(** * PDF Toolkit: the page-range parser, the organizer's working list,
      the grid layout and the background jobs of [pdf_toolkit.py]

    The development embeds the application logic of [src/pdf_toolkit.py]:
    [parse_ranges], [WorkerThread.run], the [OrganizePage] list operations
    ([_append_to_grid], [remove_page_card], [_reflow_grid],
    [on_drag_motion], [save_pdf]), [PageCard.rotate_cw] and the click
    handlers of the Split and Watermark pages.  The PDF libraries (pypdf,
    pymupdf, reportlab) and Tk are external: their calls are answered by a
    [World] record, and each call may raise.

    Conventions.
    - Python [int] is [Z]; [//] with a positive divisor is [Z.div] (floor).
    - Text is a [string]; a character is a code point below 256.
    - Python objects with identity (the [PageCard] widgets) live in an
      object store and are referred to by reference. *)

From Stdlib Require Import ZArith Lia DecimalString String Ascii Bool.
From stdpp Require Import base gmap strings list.

Local Open Scope Z_scope.

(** ** Exceptions *)

Inductive exn_class := ValueError | IndexError | OtherException.

(** An exception object: its class and [str(e)]. *)
Record exn := Exn { exn_cls : exn_class; exn_str : string }.

#[global] Instance exn_class_eq_dec : EqDecision exn_class.
Proof. solve_decision. Defined.

(** A Python call either returns or raises. *)
Inductive PyResult (A : Type) :=
| Ok (a : A)
| Raise (e : exn).
Arguments Ok {A} a.
Arguments Raise {A} e.

Definition is_raise {A} (r : PyResult A) : bool :=
  match r with Ok _ => false | Raise _ => true end.

(** ** Python string primitives used by the program *)

Module PyStr.

(** [str.isspace] on the code points below 256. *)
Definition is_space (c : ascii) : bool :=
  let n := N_of_ascii c in
  ((9 <=? n) && (n <=? 13) || (28 <=? n) && (n <=? 32)
   || (n =? 133) || (n =? 160))%N.

Definition is_digit (c : ascii) : bool :=
  let n := N_of_ascii c in ((48 <=? n) && (n <=? 57))%N.

Definition digit_val (c : ascii) : Z := Z.of_N (N_of_ascii c) - 48.

Fixpoint lstrip (s : string) : string :=
  match s with
  | EmptyString => EmptyString
  | String c r => if is_space c then lstrip r else s
  end.

Fixpoint rstrip (s : string) : string :=
  match s with
  | EmptyString => EmptyString
  | String c r =>
      match rstrip r with
      | EmptyString => if is_space c then EmptyString else String c EmptyString
      | r' => String c r'
      end
  end.

(** [s.strip()] *)
Definition strip (s : string) : string := rstrip (lstrip s).

(** [s.replace(old, "")] for a one-character [old]. *)
Fixpoint remove_char (old : ascii) (s : string) : string :=
  match s with
  | EmptyString => EmptyString
  | String c r =>
      if Ascii.eqb c old then remove_char old r
      else String c (remove_char old r)
  end.

(** [s.split(sep)] for a one-character [sep]: never the empty list. *)
Fixpoint split (sep : ascii) (s : string) : list string :=
  match s with
  | EmptyString => [EmptyString]
  | String c r =>
      if Ascii.eqb c sep then EmptyString :: split sep r
      else match split sep r with
           | h :: t => String c h :: t
           | [] => [String c EmptyString]
           end
  end.

(** [sep in s] for a one-character [sep]. *)
Fixpoint contains (sep : ascii) (s : string) : bool :=
  match s with
  | EmptyString => false
  | String c r => Ascii.eqb c sep || contains sep r
  end.

(** [s.split(sep, 1)]: cut at the first [sep], if there is one. *)
Fixpoint split1 (sep : ascii) (s : string) : list string :=
  match s with
  | EmptyString => [EmptyString]
  | String c r =>
      if Ascii.eqb c sep then [EmptyString; r]
      else match split1 sep r with
           | h :: t => String c h :: t
           | [] => [String c EmptyString]
           end
  end.

(** The digits of an [int] literal: decimal digits, single underscores
    allowed between two digits only. *)
Fixpoint int_digits (after_digit : bool) (acc : Z) (s : string) : option Z :=
  match s with
  | EmptyString => if after_digit then Some acc else None
  | String c r =>
      if is_digit c then int_digits true (10 * acc + digit_val c) r
      else if Ascii.eqb c "_" then
             if after_digit then int_digits false acc r else None
           else None
  end.

(** The whitespace that [int] skips around a literal: the ASCII
    whitespace and, of the code points from 128 to 255, the two that
    count as spaces.  The separators 28 to 31, which [str.strip] takes
    away, are not skipped. *)
Definition is_int_space (c : ascii) : bool :=
  let n := N_of_ascii c in
  ((9 <=? n) && (n <=? 13) || (n =? 32) || (n =? 133) || (n =? 160))%N.

Fixpoint int_lstrip (s : string) : string :=
  match s with
  | EmptyString => EmptyString
  | String c r => if is_int_space c then int_lstrip r else s
  end.

Fixpoint int_rstrip (s : string) : string :=
  match s with
  | EmptyString => EmptyString
  | String c r =>
      match int_rstrip r with
      | EmptyString => if is_int_space c then EmptyString else String c EmptyString
      | r' => String c r'
      end
  end.

(** The number of digits of a literal. *)
Fixpoint count_digits (s : string) : Z :=
  match s with
  | EmptyString => 0
  | String c r => (if is_digit c then 1 else 0) + count_digits r
  end.

(** [sys.get_int_max_str_digits()], as the interpreter sets it. *)
Definition int_max_str_digits : Z := 4300.

(** A decimal literal after its sign: more digits than the limit are
    refused, the leading zeros counting too. *)
Definition int_body (t : string) : option Z :=
  if int_max_str_digits <? count_digits t then None else int_digits false 0 t.

(** [int(s)]: the whitespace around the literal is ignored, one sign is
    allowed.  [None] stands for the [ValueError] of a refused literal. *)
Definition int (s : string) : option Z :=
  match int_rstrip (int_lstrip s) with
  | String "+" r => int_body r
  | String "-" r => Z.opp <$> int_body r
  | t => int_body t
  end.

(** [str(n)] for an integer. *)
Definition of_Z (z : Z) : string := NilZero.string_of_int (Z.to_int z).

Definition is_empty (s : string) : bool :=
  match s with EmptyString => true | _ => false end.

(** [s.replace(old, new)] for one-character [old] and [new]. *)
Fixpoint replace_char (old new : ascii) (s : string) : string :=
  match s with
  | EmptyString => EmptyString
  | String c r =>
      String (if Ascii.eqb c old then new else c) (replace_char old new r)
  end.


End PyStr.

(** ** [parse_ranges] (lines 91-123) *)

Module RangeParser.
Import PyStr.

(** [max(1, min(total_pages, n))] *)
Definition clamp (total_pages n : Z) : Z := Z.max 1 (Z.min total_pages n).

(** The list comprehension of line 96, applied to the stripped text. *)
Definition parts_of (text : string) : list string :=
  strip <$> filter (fun p => is_empty (strip p) = false)
                   (split "," (remove_char " " text)).

(** The body of the [for] loop for one [part], up to the [append]. *)
Definition parse_part (total_pages : Z) (part : string) : PyResult (Z * Z) :=
  let endpoints : PyResult (Z * Z) :=
    if contains "-" part then
      match split1 "-" part with
      | [left_; right_] =>
          if is_empty left_ && is_empty right_ then
            Raise (Exn ValueError ("Range '-' is not valid: " +:+ part))
          else
            match (if is_empty left_ then Some 1 else int left_),
                  (if is_empty right_ then Some total_pages else int right_) with
            | Some start, Some end_ => Ok (start, end_)
            | _, _ =>
                Raise (Exn ValueError ("Invalid characters in range: " +:+ part))
            end
      | _ => Raise (Exn ValueError "not enough values to unpack")
      end
    else
      match int part with
      | Some n => Ok (n, n)
      | None =>
          Raise (Exn ValueError ("Invalid characters in page number: " +:+ part))
      end in
  match endpoints with
  | Raise e => Raise e
  | Ok (start, end_) =>
      let start := clamp total_pages start in
      let end_ := clamp total_pages end_ in
      if end_ <? start then
        Raise (Exn ValueError
                 ("Start page " +:+ of_Z start +:+ " cannot be after end page "
                  +:+ of_Z end_ +:+ " in range: " +:+ part))
      else Ok (start, end_)
  end.

(** The [for] loop: [result] grows by one pair per part, the first
    failing part raises. *)
Fixpoint parse_loop (total_pages : Z) (parts : list string)
         (result : list (Z * Z)) : PyResult (list (Z * Z)) :=
  match parts with
  | [] => Ok result
  | part :: rest =>
      match parse_part total_pages part with
      | Raise e => Raise e
      | Ok r => parse_loop total_pages rest (result ++ [r])
      end
  end.

Definition parse_ranges (ranges_text : string) (total_pages : Z)
  : PyResult (list (Z * Z)) :=
  let text := strip ranges_text in
  if is_empty text then Ok []
  else parse_loop total_pages (parts_of text) [].

End RangeParser.

(** ** The progress channel and the background jobs *)

(** The payload of a ["progress"] tuple.  The program computes it in
    floating point, [int((num/den)*scale)]; the expression is kept as it
    is written. *)
Inductive percent :=
| PctOf (num den scale : Z)
| PctConst (n : Z).

(** The tuples put on [progress_queue]: [("progress", pct)],
    [("status", msg)], [("done", msg)], [("error", msg)]. *)
Inductive event :=
| EvProgress (p : percent)
| EvStatus (msg : string)
| EvDone (msg : string)
| EvError (msg : string).

Definition is_error_event (ev : event) : bool :=
  match ev with EvError _ => true | _ => false end.
Definition is_done_event (ev : event) : bool :=
  match ev with EvDone _ => true | _ => false end.

(** A page object of pypdf: where it comes from, its [/Rotate] entry and
    the overlays merged onto it. *)
Record Page := mkPage {
  page_src : string;
  page_idx : nat;
  page_rotate : Z;
  page_overlays : nat;
}.

(** One entry of [page_data] built by [_render_worker] (the thumbnail
    image is left out). *)
Record PageData := mkPageData {
  pd_index : nat;
  pd_path : string;
  pd_rotation : Z;
}.

(** The calls into the libraries and the operating system.  Each of them
    may raise. *)
Inductive ext_call :=
| ExtPdfReader (path : string)                (* PdfReader(path[, password]) *)
| ExtFitzOpen (path : string)                 (* fitz.open(path) *)
| ExtRender (path : string) (i : nat)         (* get_pixmap, frombytes, thumbnail *)
| ExtDocClose (path : string)                 (* doc.close() *)
| ExtAfter                                    (* self.after(100, ...) *)
| ExtRotate (path : string) (i : nat) (angle : Z)   (* page.rotate(angle) *)
| ExtAddPage (path : string) (i : nat)        (* writer.add_page(page) *)
| ExtWrite (path : string)                    (* open(path, "wb"); writer.write(f) *)
| ExtAppend (path : string)                   (* writer.append(path) *)
| ExtMakeDirs (path : string)                 (* safe_make_dirs(path) *)
| ExtMediabox (path : string) (i : nat)       (* float(page.mediabox.width/height) *)
| ExtCanvas (path : string) (i : nat)         (* io.BytesIO(), canvas.Canvas(...) *)
| ExtTextSettings                             (* the text, angle, opacity and size widgets *)
| ExtDrawText (path : string) (i : nat)       (* colors.Color(...), the text drawn on the canvas *)
| ExtDrawImage (path : string) (i : nat)      (* ImageReader(...), getSize, drawImage *)
| ExtWatermark (path : string) (i : nat)      (* c.save(); packet.seek(0); PdfReader(packet) *)
| ExtOverlay (path : string) (i : nat)        (* canvas drawing of a page number *)
| ExtMergePage (path : string) (i : nat) (attempt : nat)  (* page.merge_page(...) *)
| ExtEncrypt (path : string).                 (* writer.encrypt(...) *)

(** What the environment answers.  During one run a call gets one
    answer: files do not change while a job works on them. *)
Record World := mkWorld {
  raises : ext_call -> option exn;     (* the exception a call raises, if any *)
  pdf_pages : string -> list Z;        (* [/Rotate] of the pages PdfReader finds *)
  fitz_len : string -> nat;            (* len(doc) of pymupdf *)
  txt_entry : string;                  (* the text of the watermark page's text entry *)
  text_color : string;                 (* WatermarkPage.text_color *)
  wm_image : string;                   (* WatermarkPage.wm_image, empty when none is picked *)
  basename : string -> string;         (* os.path.basename *)
  splitext_base : string -> string;    (* os.path.splitext(...)[0] *)
  path_join : string -> string -> string;  (* os.path.join *)
  isfile : string -> bool;             (* os.path.isfile *)
  isdir : string -> bool;              (* os.path.isdir *)
  folder_pdfs : string -> list string; (* the paths of the folder's .pdf files *)
}.

(** What a job changes: the queue (oldest event first), the files it
    writes, the Tk callbacks it schedules and what it prints. *)
Record JobState := mkJobState {
  progress_queue : list event;
  disk : list (string * list Page);
  after_calls : list (list PageData * option Z);
  stdout : list string;
}.

Definition empty_state : JobState := mkJobState [] [] [] [].

(** Code that runs on a thread: it changes the state and returns or
    raises. *)
Definition Job (A : Type) : Type := JobState -> JobState * PyResult A.

#[global] Instance job_ret : MRet Job := fun A a s => (s, Ok a).
#[global] Instance job_bind : MBind Job := fun A B k m s =>
  match m s with
  | (s', Ok a) => k a s'
  | (s', Raise e) => (s', Raise e)
  end.

Definition raise {A} (e : exn) : Job A := fun s => (s, Raise e).

(** [try: body  except Exception as e: handler e] *)
Definition try_except {A} (body : Job A) (handler : exn -> Job A) : Job A :=
  fun s => match body s with
           | (s', Raise e) => handler e s'
           | r => r
           end.

(** [progress_queue.put(ev)] *)
Definition put (ev : event) : Job unit := fun s =>
  (mkJobState (progress_queue s ++ [ev]) (disk s) (after_calls s) (stdout s), Ok tt).

Definition write_file (path : string) (pages : list Page) : Job unit := fun s =>
  (mkJobState (progress_queue s) (disk s ++ [(path, pages)]) (after_calls s) (stdout s), Ok tt).

Definition schedule (data : list PageData) (insert_idx : option Z) : Job unit := fun s =>
  (mkJobState (progress_queue s) (disk s) (after_calls s ++ [(data, insert_idx)]) (stdout s), Ok tt).

Definition print (line : string) : Job unit := fun s =>
  (mkJobState (progress_queue s) (disk s) (after_calls s) (stdout s ++ [line]), Ok tt).

(** A call into a library. *)
Definition ext (w : World) (c : ext_call) : Job unit := fun s =>
  (s, match raises w c with Some e => Raise e | None => Ok tt end).

(** The events a job adds to the queue when started in state [s]. *)
Definition emitted {A} (m : Job A) (s : JobState) : list event :=
  drop (length (progress_queue s)) (progress_queue (m s).1).

(** [PdfReader(path)]: the reader's pages. *)
Definition read_pdf (w : World) (path : string) : PyResult (list Page) :=
  match raises w (ExtPdfReader path) with
  | Some e => Raise e
  | None => Ok (imap (fun i r => mkPage path i r 0) (pdf_pages w path))
  end.

Definition open_reader (w : World) (path : string) : Job (list Page) :=
  fun s => (s, read_pdf w path).

(** [with open(out, "wb") as f: writer.write(f)] *)
Definition write_pdf (w : World) (out : string) (writer : list Page) : Job unit :=
  ext w (ExtWrite out) ;; write_file out writer.

(** *** [WorkerThread.run] (lines 134-142)

    [has_queue] is the truth value of [self.progress_queue]; [run_worker]
    always passes the application's queue. *)
Definition WorkerThread_run (has_queue : bool) (target : Job unit) : Job unit :=
  try_except target
    (fun e => if has_queue then put (EvError (exn_str e)) else raise e).

Definition str_nat (n : nat) : string := PyStr.of_Z (Z.of_nat n).

(** ** Python list primitives *)

Module PyList.

(** [l.insert(i, x)]: a negative [i] counts from the end, an index
    beyond either end is moved to that end. *)
Definition insert {A} (i : Z) (x : A) (l : list A) : list A :=
  let n := Z.of_nat (length l) in
  let i := if i <? 0 then Z.max 0 (i + n) else Z.min i n in
  take (Z.to_nat i) l ++ x :: drop (Z.to_nat i) l.

(** [l.index(x)] on references: the first position, [None] for the
    [ValueError]. *)
Fixpoint index (x : nat) (l : list nat) : option nat :=
  match l with
  | [] => None
  | y :: rest => if decide (y = x) then Some 0%nat else S <$> index x rest
  end.

(** [x in l] *)
Definition mem (x : nat) (l : list nat) : bool := bool_decide (x ∈ l).

(** [l.remove(x)]: the first occurrence goes. *)
Fixpoint remove (x : nat) (l : list nat) : list nat :=
  match l with
  | [] => []
  | y :: rest => if decide (y = x) then rest else y :: remove x rest
  end.

End PyList.

(** ** The organizer: [PageCard] and [OrganizePage] *)

(** The attributes of a [PageCard] object that the program computes with. *)
Record PageCard := mkPageCard {
  orig_index : nat;
  source_path : string;
  rotation : Z;
}.

#[global] Instance PageCard_inhabited : Inhabited PageCard :=
  populate (mkPageCard 0 EmptyString 0).

(** [PageCard.rotate_cw] (lines 623-625): [self.rotation += 90]. *)
Definition rotate_cw (self : PageCard) : PageCard :=
  mkPageCard (orig_index self) (source_path self) (rotation self + 90).

(** [OrganizePage]: the card objects by reference, the working list
    [page_widgets] of references, the selection, the dragged card and the
    placement made by the last [_reflow_grid]. *)
Record OrganizePage := mkOrganizePage {
  cards : gmap nat PageCard;
  next_ref : nat;
  page_widgets : list nat;
  selected_card : option nat;
  drag_item : option nat;
  grid : list (nat * (Z * Z));
}.

(** [self.grid_cols = 5] *)
Definition grid_cols : Z := 5.

(** [OrganizePage.__init__] *)
Definition OrganizePage_init : OrganizePage :=
  mkOrganizePage ∅ 0 [] None None [].

Definition set_page_widgets (l : list nat) (st : OrganizePage) : OrganizePage :=
  mkOrganizePage (cards st) (next_ref st) l (selected_card st) (drag_item st) (grid st).
Definition set_selected_card (c : option nat) (st : OrganizePage) : OrganizePage :=
  mkOrganizePage (cards st) (next_ref st) (page_widgets st) c (drag_item st) (grid st).
Definition set_drag_item (c : option nat) (st : OrganizePage) : OrganizePage :=
  mkOrganizePage (cards st) (next_ref st) (page_widgets st) (selected_card st) c (grid st).
Definition set_grid (g : list (nat * (Z * Z))) (st : OrganizePage) : OrganizePage :=
  mkOrganizePage (cards st) (next_ref st) (page_widgets st) (selected_card st) (drag_item st) g.

(** [PageCard(...)]: a new object, its rotation 0. *)
Definition new_card (data : PageData) (st : OrganizePage) : nat * OrganizePage :=
  (next_ref st,
   mkOrganizePage (<[next_ref st := mkPageCard (pd_index data) (pd_path data) 0]> (cards st))
                  (S (next_ref st)) (page_widgets st) (selected_card st)
                  (drag_item st) (grid st)).

(** The card behind a reference. *)
Definition card_of (st : OrganizePage) (ref : nat) : PageCard := cards st !!! ref.

(** The rotate button of the card [ref]. *)
Definition rotate_card (ref : nat) (st : OrganizePage) : OrganizePage :=
  mkOrganizePage (<[ref := rotate_cw (card_of st ref)]> (cards st)) (next_ref st)
                 (page_widgets st) (selected_card st) (drag_item st) (grid st).

(** *** [_reflow_grid] (lines 455-466) *)

(** The loop, started at [(row, col)] with [C] columns. *)
Fixpoint reflow_loop (C : Z) (row col : Z) (widgets : list nat)
  : list (nat * (Z * Z)) :=
  match widgets with
  | [] => []
  | card :: rest =>
      (card, (row, col)) ::
      (let col := col + 1 in
       if C <=? col then reflow_loop C (row + 1) 0 rest
       else reflow_loop C row col rest)
  end.

Definition _reflow_grid (st : OrganizePage) : OrganizePage :=
  set_grid (reflow_loop grid_cols 0 0 (page_widgets st)) st.

(** *** [_append_to_grid] (lines 426-445) *)

Fixpoint make_cards (new_page_data : list PageData) (st : OrganizePage)
  : list nat * OrganizePage :=
  match new_page_data with
  | [] => ([], st)
  | data :: rest =>
      let '(card, st) := new_card data st in
      let '(new_cards, st) := make_cards rest st in
      (card :: new_cards, st)
  end.

(** [for i, card in enumerate(new_cards): page_widgets.insert(insert_idx + i, card)] *)
Fixpoint insert_cards (insert_idx : Z) (i : Z) (new_cards : list nat)
         (widgets : list nat) : list nat :=
  match new_cards with
  | [] => widgets
  | card :: rest =>
      insert_cards insert_idx (i + 1) rest (PyList.insert (insert_idx + i) card widgets)
  end.

(** The new state and the events put on the queue. *)
Definition _append_to_grid (new_page_data : list PageData) (insert_idx : option Z)
           (st : OrganizePage) : OrganizePage * list event :=
  let '(new_cards, st) := make_cards new_page_data st in
  let st :=
    match insert_idx with
    | Some idx => set_page_widgets (insert_cards idx 0 new_cards (page_widgets st)) st
    | None => set_page_widgets (page_widgets st ++ new_cards) st
    end in
  (_reflow_grid st,
   [EvStatus "Populating grid..."; EvStatus "Loaded."; EvProgress (PctConst 0)]).

(** *** [remove_page_card] (lines 447-453) *)

Definition remove_page_card (card : nat) (st : OrganizePage) : OrganizePage :=
  let st := if decide (Some card = selected_card st)
            then set_selected_card None st else st in
  let st := if PyList.mem card (page_widgets st)
            then set_page_widgets (PyList.remove card (page_widgets st)) st
            else st in
  _reflow_grid st.

(** *** Drag and drop (lines 469-504) *)

Definition select_card (card : nat) (st : OrganizePage) : OrganizePage :=
  set_selected_card (Some card) st.

Definition on_drag_start (card : nat) (st : OrganizePage) : OrganizePage :=
  set_drag_item (Some card) (select_card card st).

(** Lines 483-494: the index under the pointer.  [n] is
    [len(self.page_widgets)], [width] and [height] are [winfo_width()] and
    [winfo_height()] of the first card, [(x, y)] the pointer relative to
    the grid frame. *)
Definition drag_target (C n width height x y : Z) : Z :=
  let w_width := width + 10 in
  let w_height := height + 10 in
  let w_width := if w_width <? 50 then 170 else w_width in
  let w_height := if w_height <? 50 then 250 else w_height in
  let target_col := Z.max 0 (Z.min (C - 1) (x / w_width)) in
  let target_row := Z.max 0 (y / w_height) in
  let target_idx := target_row * C + target_col in
  if n <=? target_idx then n - 1 else target_idx.

(** Lines 496-501: the move inside the list.  [None] says that the list
    was not touched. *)
Definition drag_move (item : nat) (target_idx : Z) (widgets : list nat)
  : PyResult (option (list nat)) :=
  match PyList.index item widgets with
  | None => Raise (Exn ValueError "list.index(x): x not in list")
  | Some current_idx =>
      if decide (target_idx ≠ Z.of_nat current_idx) then
        Ok (Some (PyList.insert target_idx item (delete current_idx widgets)))
      else Ok None
  end.

(** [on_drag_motion].  [winfo] gives the size Tk reports for a card. *)
Definition on_drag_motion (winfo : nat -> Z * Z) (x y : Z) (st : OrganizePage)
  : PyResult OrganizePage :=
  match drag_item st with
  | None => Ok st
  | Some item =>
      if bool_decide (page_widgets st = []) then Ok st
      else
        match page_widgets st !! 0%nat with
        | None => Raise (Exn IndexError "list index out of range")
        | Some first =>
            let target_idx :=
              drag_target grid_cols (Z.of_nat (length (page_widgets st)))
                          (winfo first).1 (winfo first).2 x y in
            match drag_move item target_idx (page_widgets st) with
            | Raise e => Raise e
            | Ok None => Ok st
            | Ok (Some widgets) => Ok (_reflow_grid (set_page_widgets widgets st))
            end
        end
  end.

Definition on_drag_stop (st : OrganizePage) : OrganizePage :=
  set_drag_item None st.

(** What a click handler does besides changing its page: the message
    boxes it shows and the workers it starts with [run_worker]. *)
Inductive ui_effect :=
| ShowWarning (title msg : string)
| ShowError (title msg : string)
| ShowInfo (title msg : string)
| RunWorker (target : Job unit).


#[global] Instance result_ret : MRet PyResult := fun A a => Ok a.
#[global] Instance result_bind : MBind PyResult := fun A B k m =>
  match m with
  | Ok a => k a
  | Raise e => Raise e
  end.

(** ** [hex_to_rgb_fraction] (lines 81-88) *)

Module HexColor.
Import PyStr.

(** The value of a hexadecimal digit. *)
Definition hex_digit_val (c : ascii) : option Z :=
  let n := N_of_ascii c in
  if ((48 <=? n) && (n <=? 57))%N then Some (Z.of_N n - 48)
  else if ((97 <=? n) && (n <=? 102))%N then Some (Z.of_N n - 87)
  else if ((65 <=? n) && (n <=? 70))%N then Some (Z.of_N n - 55)
  else None.

(** The digits of a literal of base 16: single underscores are allowed
    between two digits only. *)
Fixpoint hex_digits (after_digit : bool) (acc : Z) (s : string) : option Z :=
  match s with
  | EmptyString => if after_digit then Some acc else None
  | String c r =>
      match hex_digit_val c with
      | Some v => hex_digits true (16 * acc + v) r
      | None =>
          if Ascii.eqb c "_" then
            if after_digit then hex_digits false acc r else None
          else None
      end
  end.

(** The literal after its sign: the prefix [0x] or [0X] may come first,
    and one underscore may follow it. *)
Definition hex_body (t : string) : option Z :=
  match t with
  | String "0" (String x r) =>
      if Ascii.eqb x "x" || Ascii.eqb x "X" then
        match r with
        | String "_" r' => hex_digits false 0 r'
        | _ => hex_digits false 0 r
        end
      else hex_digits false 0 t
  | _ => hex_digits false 0 t
  end.

(** [int(s, 16)]: surrounding whitespace is ignored, one sign is
    allowed.  [None] stands for the [ValueError]. *)
Definition int16 (s : string) : option Z :=
  match int_rstrip (int_lstrip s) with
  | String "+" r => hex_body r
  | String "-" r => Z.opp <$> hex_body r
  | t => hex_body t
  end.

(** [s.lstrip("#")] *)
Fixpoint lstrip_hash (s : string) : string :=
  match s with
  | String "#" r => lstrip_hash r
  | _ => s
  end.

(** [int(x, 16)] with its exception; the text of the exception names the
    literal (as it is printed when its characters are plain). *)
Definition int16_or_raise (x : string) : PyResult Z :=
  match int16 x with
  | Some n => Ok n
  | None => Raise (Exn ValueError ("invalid literal for int() with base 16: '"
                                   +:+ x +:+ "'"))
  end.

(** [hex_to_rgb_fraction]: the three fractions are given by their
    numerators over [255.0]; the triple [0, 0, 0] of the last line has
    the numerators 0. *)
Definition hex_to_rgb_fraction (hexcolor : string) : PyResult (Z * Z * Z) :=
  let hexcolor := lstrip_hash hexcolor in
  if (String.length hexcolor =? 6)%nat then
    r ← int16_or_raise (substring 0 2 hexcolor) ;
    g ← int16_or_raise (substring 2 2 hexcolor) ;
    b ← int16_or_raise (substring 4 2 hexcolor) ;
    Ok (r, g, b)
  else Ok (0, 0, 0).

End HexColor.

(** [mode_text] of the two watermark handlers: the text entry is not
    blank. *)
Definition mode_text (w : World) : bool :=
  negb (PyStr.is_empty (PyStr.strip (txt_entry w))).

(** [_create_watermark_reader] gives [None] for the page: in image mode,
    when no image is picked or the image cannot be drawn. *)
Definition watermark_none (w : World) (path : string) (i : nat) : bool :=
  negb (mode_text w)
  && (PyStr.is_empty (wm_image w)
      || bool_decide (is_Some (raises w (ExtDrawImage path i)))).

Section Jobs.

Variable w : World.

(** *** [_render_worker] (lines 392-424) *)

(** The loop over [enumerate(doc)], from page [i] on, [n] pages left. *)
Fixpoint render_loop (path : string) (total : nat) (i n : nat)
         (page_data : list PageData) : Job (list PageData) :=
  match n with
  | O => mret page_data
  | S n' =>
      ext w (ExtRender path i) ;;
      let page_data := page_data ++ [mkPageData i path 0] in
      put (EvProgress (PctOf (Z.of_nat i + 1) (Z.of_nat total) 50)) ;;
      put (EvStatus ("Rendering " +:+ str_nat (i + 1) +:+ "/" +:+ str_nat total
                     +:+ " from " +:+ basename w path)) ;;
      render_loop path total (S i) n' page_data
  end.

Definition _render_worker (path : string) (insert_idx : option Z) : Job unit :=
  try_except
    (ext w (ExtFitzOpen path) ;;
     let total := fitz_len w path in
     page_data ← render_loop path total 0 total [] ;
     ext w (ExtDocClose path) ;;
     ext w ExtAfter ;;
     schedule page_data insert_idx)
    (fun e => put (EvError ("Could not render PDF: " +:+ exn_str e))).

(** *** [save_pdf] (lines 507-550) *)

(** The [for] loop of the job over [enumerate(self.page_widgets)], from
    position [i] on.  [readers] is the cache of opened sources; their
    page objects are shared, [page.rotate] changes them in place and
    [writer.add_page] copies the page as it is then. *)
Fixpoint save_loop (total : nat) (i : nat) (widgets : list PageCard)
         (readers : gmap string (list Page)) (writer : list Page)
  : Job (list Page) :=
  match widgets with
  | [] => mret writer
  | card :: rest =>
      let src := source_path card in
      '(reader, readers) ←
        match readers !! src with
        | Some reader => mret (reader, readers)
        | None => reader ← open_reader w src ; mret (reader, <[src := reader]> readers)
        end ;
      '(readers, writer) ←
        (if bool_decide (orig_index card < length reader)%nat then
           match reader !! orig_index card with
           | None => raise (Exn IndexError "Sequence index out of range")
           | Some page =>
               let rot := rotation card `mod` 360 in
               '(page, readers) ←
                 (if bool_decide (rot ≠ 0) then
                    ext w (ExtRotate src (orig_index card) rot) ;;
                    let page := mkPage (page_src page) (page_idx page)
                                       (page_rotate page + rot) (page_overlays page) in
                    mret (page, <[src := <[orig_index card := page]> reader]> readers)
                  else mret (page, readers)) ;
               ext w (ExtAddPage src (orig_index card)) ;;
               mret (readers, writer ++ [page])
           end
         else mret (readers, writer)) ;
      put (EvProgress (PctOf (Z.of_nat i + 1) (Z.of_nat total) 100)) ;;
      put (EvStatus ("Saving page " +:+ str_nat (i + 1) +:+ "/" +:+ str_nat total)) ;;
      save_loop total (S i) rest readers writer
  end.

(** The [try] block of [job]. *)
Definition save_try (widgets : list PageCard) (out : string) : Job unit :=
  writer ← save_loop (length widgets) 0 widgets ∅ [] ;
  write_pdf w out writer ;;
  let final_msg := "Saved organized PDF to: " +:+ out in
  put (EvStatus final_msg) ;;
  put (EvDone final_msg).

Definition save_job (widgets : list PageCard) (out : string) : Job unit :=
  try_except (save_try widgets out) (fun e => put (EvError (exn_str e))).

(** [OrganizePage.save_pdf]; [out] is the answer of the file dialog,
    empty when cancelled.  The job works on the cards as they are when
    it runs. *)
Definition save_pdf (out : string) (st : OrganizePage) : list ui_effect :=
  if bool_decide (page_widgets st = []) then []
  else if PyStr.is_empty out then []
  else [RunWorker (save_job (card_of st <$> page_widgets st) out)].

(** [load_pdf_clear], [add_pdf_append] and [insert_pages_here]; [p] is
    the answer of the file dialog.  The widgets destroyed by
    [load_pdf_clear] leave the grid. *)
Definition load_pdf_clear (p : string) (st : OrganizePage)
  : OrganizePage * list ui_effect :=
  if PyStr.is_empty p then (st, [])
  else (set_grid [] (set_page_widgets [] (set_selected_card None st)),
        [RunWorker (_render_worker p None)]).

Definition add_pdf_append (p : string) (st : OrganizePage)
  : OrganizePage * list ui_effect :=
  if PyStr.is_empty p then (st, [])
  else (st, [RunWorker (_render_worker p None)]).

Definition insert_pages_here (target_card : nat) (before : bool) (p : string)
           (st : OrganizePage) : PyResult (list ui_effect) :=
  if PyStr.is_empty p then Ok []
  else
    match PyList.index target_card (page_widgets st) with
    | None => Raise (Exn ValueError "list.index(x): x not in list")
    | Some idx =>
        let insert_idx := if before then Z.of_nat idx else Z.of_nat idx + 1 in
        Ok [RunWorker (_render_worker p (Some insert_idx))]
    end.

(** *** The other pages' jobs *)

(** [for pg in pages: writer.add_page(pg)] *)
Fixpoint add_pages (pages : list Page) (writer : list Page) : Job (list Page) :=
  match pages with
  | [] => mret writer
  | pg :: rest =>
      ext w (ExtAddPage (page_src pg) (page_idx pg)) ;;
      add_pages rest (writer ++ [pg])
  end.

(** [MergePage.merge_and_save]: the loop of [job] over
    [enumerate(self.pdfs, start=1)] (lines 772-793). *)
Fixpoint merge_loop (total : nat) (idx : nat) (pdfs : list string)
         (writer : list Page) : Job (list Page) :=
  match pdfs with
  | [] => mret writer
  | p :: rest =>
      writer ←
        try_except
          (ext w (ExtAppend p) ;;
           mret (writer ++ imap (fun i r => mkPage p i r 0) (pdf_pages w p)))
          (fun _ => r ← open_reader w p ; add_pages r writer) ;
      put (EvProgress (PctOf (Z.of_nat idx) (Z.of_nat total) 100)) ;;
      put (EvStatus ("Merging: " +:+ str_nat idx +:+ "/" +:+ str_nat total)) ;;
      merge_loop total (S idx) rest writer
  end.

Definition merge_job (pdfs : list string) (out : string) : Job unit :=
  writer ← merge_loop (length pdfs) 1 pdfs [] ;
  write_pdf w out writer ;;
  let final_message := "Merge complete! Output saved to: " +:+ out in
  put (EvStatus final_message) ;;
  put (EvDone final_message).

(** [SplitPage.extract]: [job_multi_split] (lines 873-890). *)
Fixpoint multi_split_loop (total_files : nat) (idx : nat)
         (save_destinations : list (string * list Page)) : Job unit :=
  match save_destinations with
  | [] => mret tt
  | (out_path, pages_list) :: rest =>
      put (EvProgress (PctOf (Z.of_nat idx) (Z.of_nat total_files) 100)) ;;
      put (EvStatus ("Writing split file " +:+ str_nat (idx + 1) +:+ "/"
                     +:+ str_nat total_files +:+ ": " +:+ basename w out_path)) ;;
      writer ← add_pages pages_list [] ;
      ext w (ExtMakeDirs out_path) ;;
      write_pdf w out_path writer ;;
      multi_split_loop total_files (S idx) rest
  end.

Definition job_multi_split (save_destinations : list (string * list Page))
           (out_dir : string) : Job unit :=
  let total_files := length save_destinations in
  multi_split_loop total_files 0 save_destinations ;;
  let final_message := "Split complete! " +:+ str_nat total_files
                       +:+ " files saved to " +:+ out_dir +:+ "." in
  put (EvStatus final_message) ;;
  put (EvDone final_message).

(** [SplitPage.split_all]: [job] (lines 906-922). *)
Fixpoint split_all_loop (base out_dir : string) (total : nat) (i : nat)
         (pages : list Page) : Job unit :=
  match pages with
  | [] => mret tt
  | page :: rest =>
      writer ← add_pages [page] [] ;
      let fname := path_join w out_dir (base +:+ "_page_" +:+ str_nat i +:+ ".pdf") in
      write_pdf w fname writer ;;
      put (EvProgress (PctOf (Z.of_nat i) (Z.of_nat total) 100)) ;;
      put (EvStatus ("Writing page " +:+ str_nat i +:+ "/" +:+ str_nat total)) ;;
      split_all_loop base out_dir total (S i) rest
  end.

Definition split_all_job (path out_dir : string) : Job unit :=
  r ← open_reader w path ;
  let base := splitext_base w (basename w path) in
  let total := length r in
  split_all_loop base out_dir total 1 r ;;
  let final_message := "Split complete! " +:+ str_nat total
                       +:+ " pages saved to " +:+ out_dir +:+ "." in
  put (EvStatus final_message) ;;
  put (EvDone final_message).

(** [idx in selected_pages], the set filled from [range(s-1, e)] for
    each parsed pair. *)
Definition selected (ranges : list (Z * Z)) (idx : nat) : bool :=
  existsb (fun '(s, e) => (s - 1 <=? Z.of_nat idx) && (Z.of_nat idx <? e)) ranges.

(** The range expression of the watermark page: all pages when the
    entry is blank. *)
Definition watermark_ranges (range_text : string) (total : nat)
  : PyResult (list (Z * Z)) :=
  if PyStr.is_empty (PyStr.strip range_text) then Ok [(1, Z.of_nat total)]
  else RangeParser.parse_ranges range_text (Z.of_nat total).

(** The overlay step of one page: [try: page.merge_page(...)
    except Exception: page.merge_page(...)]. *)
Definition merge_overlay (page : Page) : Job Page :=
  try_except (ext w (ExtMergePage (page_src page) (page_idx page) 0))
             (fun _ => ext w (ExtMergePage (page_src page) (page_idx page) 1)) ;;
  mret (mkPage (page_src page) (page_idx page) (page_rotate page)
               (S (page_overlays page))).

(** [_create_watermark_reader] (lines 1016-1067) for the page [i] of
    [path]; [true] is returned for a reader, [false] for [None].  The
    colour of the text goes through [hex_to_rgb_fraction]; a failure of
    the image is printed and gives [None]. *)
Definition _create_watermark_reader (path : string) (i : nat) : Job bool :=
  ext w (ExtCanvas path i) ;;
  drawn ←
    (if mode_text w then
       ext w ExtTextSettings ;;
       match HexColor.hex_to_rgb_fraction (text_color w) with
       | Raise e => raise e
       | Ok _ => ext w (ExtDrawText path i) ;; mret true
       end
     else if PyStr.is_empty (wm_image w) then mret false
     else
       try_except
         (ext w (ExtDrawImage path i) ;; mret true)
         (fun e => print ("Image watermark error: " +:+ exn_str e) ;; mret false)) ;
  if drawn : bool then ext w (ExtWatermark path i) ;; mret true
  else mret false.

(** The body of the page loop of both watermark jobs, up to
    [w.add_page(page)]. *)
Definition watermark_page (ranges : list (Z * Z)) (idx : nat) (page : Page)
           (writer : list Page) : Job (list Page) :=
  ext w (ExtMediabox (page_src page) (page_idx page)) ;;
  page ←
    (if selected ranges idx then
       wm_r ← _create_watermark_reader (page_src page) (page_idx page) ;
       if wm_r : bool then merge_overlay page else mret page
     else mret page) ;
  add_pages [page] writer.

(** [WatermarkPage.apply_to_single]: [job] (lines 1083-1123).  [r] is
    the reader opened by the click handler. *)
Fixpoint single_loop (ranges : list (Z * Z)) (total : nat) (idx : nat)
         (pages : list Page) (writer : list Page) : Job (list Page) :=
  match pages with
  | [] => mret writer
  | page :: rest =>
      writer ← watermark_page ranges idx page writer ;
      put (EvProgress (PctOf (Z.of_nat idx + 1) (Z.of_nat total) 100)) ;;
      put (EvStatus ("Processing page " +:+ str_nat (idx + 1) +:+ "/"
                     +:+ str_nat total)) ;;
      single_loop ranges total (S idx) rest writer
  end.

Definition apply_to_single_job (r : list Page) (range_text out : string)
  : Job unit :=
  let total := length r in
  match watermark_ranges range_text total with
  | Raise e => put (EvError (exn_str e))
  | Ok parsed_ranges_list =>
      writer ← single_loop parsed_ranges_list total 0 r [] ;
      write_pdf w out writer ;;
      let final_message :=
        "Watermark applied successfully! Output saved to: " +:+ out in
      put (EvStatus final_message) ;;
      put (EvDone final_message)
  end.

(** [WatermarkPage.apply_to_folder]: [job] (lines 1141-1179). *)
Fixpoint folder_pages (ranges : list (Z * Z)) (i : nat) (pages : list Page)
         (writer : list Page) : Job (list Page) :=
  match pages with
  | [] => mret writer
  | page :: rest =>
      writer ← watermark_page ranges i page writer ;
      folder_pages ranges (S i) rest writer
  end.

(** One file.  [true] is returned when the job executes its [return]. *)
Definition folder_file (range_text out_dir : string) (p : string) : Job bool :=
  try_except
    (r ← open_reader w p ;
     let total_pages := length r in
     match watermark_ranges range_text total_pages with
     | Raise e => put (EvError (exn_str e)) ;; mret true
     | Ok parsed_ranges_list =>
         writer ← folder_pages parsed_ranges_list 0 r [] ;
         let outfn := path_join w out_dir (basename w p) in
         write_pdf w outfn writer ;;
         mret false
     end)
    (fun e => print ("Error watermarking " +:+ p +:+ " " +:+ exn_str e) ;;
              mret false).

Fixpoint folder_loop (range_text out_dir : string) (total_files : nat)
         (idx : nat) (pdfs : list string) : Job bool :=
  match pdfs with
  | [] => mret false
  | p :: rest =>
      returned ← folder_file range_text out_dir p ;
      if returned : bool then mret true
      else
        put (EvProgress (PctOf (Z.of_nat idx) (Z.of_nat total_files) 100)) ;;
        put (EvStatus ("Processed " +:+ str_nat idx +:+ "/" +:+ str_nat total_files)) ;;
        folder_loop range_text out_dir total_files (S idx) rest
  end.

Definition apply_to_folder_job (pdfs : list string) (range_text out_dir : string)
  : Job unit :=
  let total_files := length pdfs in
  returned ← folder_loop range_text out_dir total_files 1 pdfs ;
  if returned : bool then mret tt
  else
    let final_message := "Batch watermark complete! " +:+ str_nat total_files
                         +:+ " files saved to: " +:+ out_dir in
    put (EvStatus final_message) ;;
    put (EvDone final_message).

(** [WatermarkPage.add_page_numbers]: [job] (lines 1199-1232). *)
Fixpoint numbers_loop (total : nat) (i : nat) (pages : list Page)
         (writer : list Page) : Job (list Page) :=
  match pages with
  | [] => mret writer
  | page :: rest =>
      ext w (ExtMediabox (page_src page) (page_idx page)) ;;
      ext w (ExtOverlay (page_src page) (page_idx page)) ;;
      page ← merge_overlay page ;
      writer ← add_pages [page] writer ;
      put (EvProgress (PctOf (Z.of_nat i) (Z.of_nat total) 100)) ;;
      put (EvStatus ("Numbering page " +:+ str_nat i +:+ "/" +:+ str_nat total)) ;;
      numbers_loop total (S i) rest writer
  end.

Definition page_numbers_job (r : list Page) (out : string) : Job unit :=
  writer ← numbers_loop (length r) 1 r [] ;
  write_pdf w out writer ;;
  let final_message := "Page numbering complete! Output saved to: " +:+ out in
  put (EvStatus final_message) ;;
  put (EvDone final_message).

(** [ProtectPage.add_password] and [remove_password]: their [job]s
    (lines 1281-1294 and 1309-1320). *)
Definition add_password_job (pick_path out : string) : Job unit :=
  r ← open_reader w pick_path ;
  writer ← add_pages r [] ;
  ext w (ExtEncrypt out) ;;
  write_pdf w out writer ;;
  let final_message := "Password(s) added successfully! Output saved to: " +:+ out in
  put (EvStatus final_message) ;;
  put (EvDone final_message).

Definition remove_password_job (pick_path out : string) : Job unit :=
  r ← open_reader w pick_path ;
  writer ← add_pages r [] ;
  write_pdf w out writer ;;
  let final_message := "Password removed successfully! Output saved to: " +:+ out in
  put (EvStatus final_message) ;;
  put (EvDone final_message).

(** *** The click handlers that take a range expression *)

(** [r.pages[i]] *)
Definition pages_getitem (r : list Page) (i : Z) : PyResult Page :=
  let i := if i <? 0 then i + Z.of_nat (length r) else i in
  if (0 <=? i) && (i <? Z.of_nat (length r)) then
    match r !! Z.to_nat i with
    | Some page => Ok page
    | None => Raise (Exn IndexError "Sequence index out of range")
    end
  else Raise (Exn IndexError "Sequence index out of range").

(** [for i in range(start - 1, end): pages_to_write.append(r.pages[i])] *)
Fixpoint collect_range (r : list Page) (indices : list Z)
         (pages_to_write : list Page) : PyResult (list Page) :=
  match indices with
  | [] => Ok pages_to_write
  | i :: rest =>
      page ← pages_getitem r i ;
      collect_range r rest (pages_to_write ++ [page])
  end.

Fixpoint collect_ranges (r : list Page) (ranges_to_extract : list (Z * Z))
         (pages_to_write : list Page) : PyResult (list Page) :=
  match ranges_to_extract with
  | [] => Ok pages_to_write
  | (start, end_) :: rest =>
      pages_to_write ← collect_range r (seqZ (start - 1) (end_ - (start - 1)))
                                     pages_to_write ;
      collect_ranges r rest pages_to_write
  end.

(** The loop of [extract] over [individual_range_texts] (lines 849-866). *)
Fixpoint extract_loop (r : list Page) (base_name out_dir : string)
         (individual_range_texts : list string)
         (save_destinations : list (string * list Page))
  : PyResult (list (string * list Page)) :=
  match individual_range_texts with
  | [] => Ok save_destinations
  | range_str :: rest =>
      ranges_to_extract ← RangeParser.parse_ranges range_str (Z.of_nat (length r)) ;
      pages_to_write ← collect_ranges r ranges_to_extract [] ;
      let save_destinations :=
        match pages_to_write with
        | [] => save_destinations
        | _ =>
            let safe_range_str :=
              PyStr.replace_char "-" "_" (PyStr.remove_char " " range_str) in
            let out_path :=
              path_join w out_dir (base_name +:+ "_" +:+ safe_range_str +:+ ".pdf") in
            save_destinations ++ [(out_path, pages_to_write)]
        end in
      extract_loop r base_name out_dir rest save_destinations
  end.

(** The [try] block of [extract] (lines 842-893). *)
Definition extract_try (path out_dir : string)
           (individual_range_texts : list string) : PyResult (list ui_effect) :=
  r ← read_pdf w path ;
  let base_name := splitext_base w (basename w path) in
  save_destinations ← extract_loop r base_name out_dir individual_range_texts [] ;
  match save_destinations with
  | [] => Ok [ShowWarning "Warning"
                "No pages matched the provided ranges or the ranges were invalid."]
  | _ => Ok [RunWorker (job_multi_split save_destinations out_dir)]
  end.

(** [SplitPage.extract] (lines 826-898).  [path] is [self.path],
    [ent_text] the text of the entry, [out_dir] the answer of the folder
    dialog. *)
Definition extract (path : option string) (ent_text out_dir : string)
  : list ui_effect :=
  match path with
  | None => [ShowWarning "Warning" "Pick a PDF first"]
  | Some path =>
      if PyStr.is_empty path then [ShowWarning "Warning" "Pick a PDF first"]
      else
        let range_text := PyStr.strip ent_text in
        if PyStr.is_empty range_text then
          [ShowWarning "Warning" "Enter page ranges (e.g., 1-184, 185)."]
        else if PyStr.is_empty out_dir then []
        else
          let individual_range_texts :=
            PyStr.strip <$> filter (fun t => PyStr.is_empty (PyStr.strip t) = false)
                                   (PyStr.split "," range_text) in
          match extract_try path out_dir individual_range_texts with
          | Ok effects => effects
          | Raise e =>
              if decide (exn_cls e = ValueError)
              then [ShowError "Invalid Range" (exn_str e)]
              else [ShowError "Error" ("An error occurred: " +:+ exn_str e)]
          end
  end.



(** *** Every job that [run_worker] is given *)

Inductive job :=
| JobRender (path : string) (insert_idx : option Z)
| JobSave (widgets : list PageCard) (out : string)
| JobMerge (pdfs : list string) (out : string)
| JobMultiSplit (save_destinations : list (string * list Page)) (out_dir : string)
| JobSplitAll (path out_dir : string)
| JobWatermarkSingle (r : list Page) (range_text out : string)
| JobWatermarkFolder (pdfs : list string) (range_text out_dir : string)
| JobPageNumbers (r : list Page) (out : string)
| JobAddPassword (pick_path out : string)
| JobRemovePassword (pick_path out : string).

Definition job_body (j : job) : Job unit :=
  match j with
  | JobRender path insert_idx => _render_worker path insert_idx
  | JobSave widgets out => save_job widgets out
  | JobMerge pdfs out => merge_job pdfs out
  | JobMultiSplit save_destinations out_dir => job_multi_split save_destinations out_dir
  | JobSplitAll path out_dir => split_all_job path out_dir
  | JobWatermarkSingle r range_text out => apply_to_single_job r range_text out
  | JobWatermarkFolder pdfs range_text out_dir =>
      apply_to_folder_job pdfs range_text out_dir
  | JobPageNumbers r out => page_numbers_job r out
  | JobAddPassword pick_path out => add_password_job pick_path out
  | JobRemovePassword pick_path out => remove_password_job pick_path out
  end.

(** [MainApp.run_worker]: the thread's [run] with the application's queue. *)
Definition run_worker (j : job) : Job unit := WorkerThread_run true (job_body j).

End Jobs.

(** ** Notions used to state the properties *)

Module RangeSpec.
Import PyStr RangeParser.

(** The tokens of a range expression: the text is stripped and loses its
    blanks, is cut at the commas, and every piece is stripped of its
    whitespace; empty pieces are dropped. *)
Definition tokens (text : string) : list string := parts_of (strip text).

(** A normalized range. *)
Definition in_range (total_pages : Z) (r : Z * Z) : Prop :=
  1 <= r.1 /\ r.1 <= r.2 /\ r.2 <= total_pages.

(** An end point of ["A-B"]: the default when the side is missing, else
    the number written there. *)
Definition endpoint (default : Z) (side : string) (v : Z) : Prop :=
  (side = EmptyString /\ v = default) \/ (side <> EmptyString /\ int side = Some v).

(** The pair a token stands for: ["N"] gives [(N, N)], ["A-B"] gives
    [(A, B)] with [A] defaulting to 1 and [B] to [total_pages], both
    clamped into [[1, total_pages]]. *)
Inductive token_range (total_pages : Z) : string -> Z * Z -> Prop :=
| token_single tok n :
    contains "-" tok = false ->
    int tok = Some n ->
    token_range total_pages tok (clamp total_pages n, clamp total_pages n)
| token_dash a_text b_text a b :
    contains "-" a_text = false ->
    endpoint 1 a_text a ->
    endpoint total_pages b_text b ->
    token_range total_pages (a_text +:+ String "-" b_text)
                (clamp total_pages a, clamp total_pages b).

(** The pieces of a token where a page number is expected. *)
Definition number_fields (tok : string) : list string :=
  if contains "-" tok
  then filter (fun f => is_empty f = false) (split1 "-" tok)
  else [tok].

(** The two end points of a token before clamping, when all its number
    fields are accepted by [int]. *)
Definition endpoints (total_pages : Z) (tok : string) : option (Z * Z) :=
  if contains "-" tok then
    match split1 "-" tok with
    | [a_text; b_text] =>
        a ← (if is_empty a_text then Some 1 else int a_text) ;
        b ← (if is_empty b_text then Some total_pages else int b_text) ;
        Some (a, b)
    | _ => None
    end
  else n ← int tok ; Some (n, n).

(** Start after end, once both are clamped. *)
Definition start_after_end (total_pages : Z) (tok : string) : Prop :=
  exists a b, endpoints total_pages tok = Some (a, b) /\
              clamp total_pages b < clamp total_pages a.

(** When a token makes [parse_ranges] raise: a number field that [int]
    rejects. *)
Definition token_fails (total_pages : Z) (tok : string) : Prop :=
  tok = "-"%string
  \/ (exists f, f ∈ number_fields tok /\ int f = None)
  \/ start_after_end total_pages tok.

(** A character that is not a decimal digit occurs in [s]. *)
Fixpoint has_non_digit (s : string) : bool :=
  match s with
  | EmptyString => false
  | String c r => negb (is_digit c) || has_non_digit r
  end.

(** The same with "a non-numeric character appears where a page number
    is expected" read to the letter. *)
Definition token_fails_literal (total_pages : Z) (tok : string) : Prop :=
  tok = "-"%string
  \/ (exists f, f ∈ number_fields tok /\ has_non_digit f = true)
  \/ start_after_end total_pages tok.

End RangeSpec.

Module GridSpec.

(** [clamp(v, lo, hi)] *)
Definition clampZ (v lo hi : Z) : Z := Z.max lo (Z.min hi v).

(** The pixel footprint of a cell: the first card's size plus the
    padding, or the fallback when the card is not realized yet. *)
Definition cell (size fallback : Z) : Z :=
  if size + 10 <? 50 then fallback else size + 10.

(** The target index as the specification writes it. *)
Definition target_index (C n cellW cellH x y : Z) : Z :=
  let targetCol := clampZ (x / cellW) 0 (C - 1) in
  let targetRow := Z.max 0 (y / cellH) in
  clampZ (targetRow * C + targetCol) 0 (n - 1).

End GridSpec.

(** ** The organizer as the user drives it *)

(** The page and the application's job state. *)
Definition App : Type := OrganizePage * JobState.

Definition App_init : App := (OrganizePage_init, empty_state).

(** The callbacks scheduled with [after] run on the UI thread, in order. *)
Fixpoint run_callbacks (calls : list (list PageData * option Z)) (app : App) : App :=
  match calls with
  | [] => app
  | (data, insert_idx) :: rest =>
      let '(st, evs) := _append_to_grid data insert_idx app.1 in
      let js := app.2 in
      run_callbacks rest
        (st, mkJobState (progress_queue js ++ evs) (disk js) (after_calls js) (stdout js))
  end.

(** The effects of a handler, one after the other: a worker runs to its
    end, then the callbacks it scheduled are run. *)
Fixpoint run_effects (effects : list ui_effect) (app : App) : App :=
  match effects with
  | [] => app
  | RunWorker target :: rest =>
      let js := (WorkerThread_run true target app.2).1 in
      let calls := after_calls js in
      run_effects rest
        (run_callbacks calls
           (app.1, mkJobState (progress_queue js) (disk js) [] (stdout js)))
  | _ :: rest => run_effects rest app
  end.

(** The user's actions on the organizer: the two open buttons with the
    chosen file, the delete and rotate buttons of the card at a position
    of the working list, and the save button with the chosen file. *)
Inductive action :=
| Load (p : string)
| Append (p : string)
| Delete (position : nat)
| RotateCw (position : nat)
| Save (out : string).

Definition do_action (w : World) (a : action) (app : App) : App :=
  match a with
  | Load p =>
      let '(st, effects) := load_pdf_clear w p app.1 in
      run_effects effects (st, app.2)
  | Append p =>
      let '(st, effects) := add_pdf_append w p app.1 in
      run_effects effects (st, app.2)
  | Delete position =>
      match page_widgets app.1 !! position with
      | Some card => (remove_page_card card app.1, app.2)
      | None => app
      end
  | RotateCw position =>
      match page_widgets app.1 !! position with
      | Some card => (rotate_card card app.1, app.2)
      | None => app
      end
  | Save out => run_effects (save_pdf w out app.1) app
  end.

Definition do_actions (w : World) (actions : list action) (app : App) : App :=
  foldl (fun app a => do_action w a app) app actions.

(** ** What the save job writes *)

Module SaveSpec.

(** No call into a library raises. *)
Definition quiet_world (w : World) : Prop := forall c, raises w c = None.

Definition origin (p : Page) : string * nat := (page_src p, page_idx p).
Definition card_origin (c : PageCard) : string * nat :=
  (source_path c, orig_index c).

(** The card's page still exists in its source. *)
Definition valid_card (w : World) (c : PageCard) : bool :=
  bool_decide (orig_index c < length (pdf_pages w (source_path c)))%nat.

(** The angle handed to [page.rotate] for a card. *)
Definition save_angle (c : PageCard) : Z := rotation c `mod` 360.

(** The sum of the angles applied for the cards of [done] that show
    the source page [o]. *)
Fixpoint applied (done : list PageCard) (o : string * nat) : Z :=
  match done with
  | [] => 0
  | c :: rest =>
      (if decide (card_origin c = o) then save_angle c else 0) + applied rest o
  end.

(** The pages of the saved file for the cards [widgets], the cards of
    [done] having been saved before them. *)
Fixpoint save_output (w : World) (done widgets : list PageCard) : list Page :=
  match widgets with
  | [] => []
  | c :: rest =>
      match pdf_pages w (source_path c) !! orig_index c with
      | Some r0 =>
          [mkPage (source_path c) (orig_index c)
                  (r0 + applied (done ++ [c]) (card_origin c)) 0]
      | None => []
      end ++ save_output w (done ++ [c]) rest
  end.

(** The cache of readers after the cards of [done] have been saved:
    their sources are open, and every cached page carries the angles
    applied to it so far. *)
Definition readers_inv (w : World) (done : list PageCard)
           (readers : gmap string (list Page)) : Prop :=
  (forall c, c ∈ done -> is_Some (readers !! source_path c)) /\
  (forall src pages,
      readers !! src = Some pages ->
      pages = imap (fun i r0 => mkPage src i (r0 + applied done (src, i)) 0)
                   (pdf_pages w src)).

(** A job step that writes no file and schedules no callback. *)
Definition same_files (s' s : JobState) : Prop :=
  disk s' = disk s /\ after_calls s' = after_calls s.


End SaveSpec.

(** What [_render_worker] hands to [_append_to_grid] for a source of [n]
    pages. *)
Definition page_data_of (path : string) (n : nat) : list PageData :=
  (fun i => mkPageData i path 0) <$> seq 0 n.

(** A world for examples: the page tables [pages], the failing calls
    [failing], pymupdf and pypdf agreeing on the page counts. *)
Definition world_of (pages : string -> list Z) (failing : ext_call -> option exn)
  : World :=
  mkWorld failing pages (fun p => length (pages p))
          "CONFIDENTIAL" "#000000" EmptyString
          (fun p => p) (fun p => p) (fun d f => d +:+ "/" +:+ f)
          (fun _ => true) (fun _ => true) (fun _ => []).

(** Two sources, of three and of two pages; the second page of the
    second one is stored turned by 90 degrees. *)
Definition example_pages (path : string) : list Z :=
  if decide (path = "a.pdf"%string) then [0; 0; 0]
  else if decide (path = "b.pdf"%string) then [0; 90]
  else [].

Definition example_world : World := world_of example_pages (fun _ => None).

(** The same sources on a disk where nothing can be written. *)
Definition read_only_world : World :=
  world_of example_pages
           (fun c => match c with
                     | ExtWrite _ => Some (Exn OtherException "Permission denied")
                     | _ => None
                     end).

(** ** The actions that take a range expression *)




(** [individual_range_texts] of [extract]: the entries it parses one by
    one. *)
Definition entries_of (ent_text : string) : list string :=
  PyStr.strip <$> filter (fun t => PyStr.is_empty (PyStr.strip t) = false)
                         (PyStr.split "," (PyStr.strip ent_text)).


(** ** Traces of events *)

Module Trace.

(** Neither ["done"] nor ["error"]. *)
Definition plain (ev : event) : Prop :=
  is_error_event ev = false /\ is_done_event ev = false.

Definition count (f : event -> bool) (evs : list event) : nat :=
  length (filter (fun ev => f ev = true) evs).

(** [m] adds the events [evs] to the queue and ends with [r], for some
    [evs] and [r] that satisfy [P], whatever state it starts in. *)
Definition emits {A} (m : Job A) (P : PyResult A -> list event -> Prop) : Prop :=
  forall s, exists evs,
    progress_queue (m s).1 = progress_queue s ++ evs /\ P (m s).2 evs.

(** Only plain events. *)
Definition quiet {A} (m : Job A) : Prop :=
  emits m (fun _ evs => Forall plain evs).

(** Plain events, then at most one more event, which is there only
    when the code returns a value that [final] accepts. *)
Definition once {A} (final : A -> bool) (r : PyResult A) (evs : list event)
  : Prop :=
  exists pre last,
    evs = pre ++ last /\ Forall plain pre /\
    match r with
    | Ok a => if final a then (length last <= 1)%nat else last = []
    | Raise _ => last = []
    end.

(** A job: plain events, then at most one more, none when it raises. *)
Definition ends_once (m : Job unit) : Prop := emits m (once (fun _ => true)).

(** A loop body that says whether the job executed its [return]: only
    then may one more event follow the plain ones. *)
Definition returns_once (m : Job bool) : Prop := emits m (once (fun b => b)).

End Trace.


(** ** [MainApp]: the status bar and [_poll_progress] (lines 238-265) *)

(** A message box of [_poll_progress]: [showinfo] with the title of the
    success notice, or [showerror("Error", ...)]; the text is kept. *)
Inductive message_box :=
| InfoBox (msg : string)
| ErrorBox (msg : string).

(** The variables of the status bar and the boxes shown so far. *)
Record MainApp := mkMainApp {
  status : string;
  progress_var : percent;
  boxes : list message_box;
}.

(** The body of the [while] loop of [_poll_progress] for one tuple. *)
Definition poll_event (app : MainApp) (ev : event) : MainApp :=
  match ev with
  | EvProgress payload => mkMainApp (status app) payload (boxes app)
  | EvStatus payload => mkMainApp payload (progress_var app) (boxes app)
  | EvDone payload =>
      let final_msg := if PyStr.is_empty payload
                       then "Operation completed successfully!"%string
                       else payload in
      mkMainApp "Done" (PctConst 0) (boxes app ++ [InfoBox final_msg])
  | EvError payload =>
      mkMainApp "Error" (PctConst 0) (boxes app ++ [ErrorBox payload])
  end.

(** [_poll_progress]: every tuple of the queue is taken, oldest first,
    until [queue.Empty]; the queue is left empty. *)
Definition _poll_progress (queue : list event) (app : MainApp)
  : list event * MainApp :=
  ([], foldl poll_event app queue).

(** The first two lines of [run_worker], before the thread starts. *)
Definition run_worker_ui (app : MainApp) : MainApp :=
  mkMainApp "Working..." (PctConst 0) (boxes app).

(** ** [MergePage]: the list of files (lines 685-770) *)

Module Listbox.

(** A Tk listbox is modelled by its lines, each with its text and
    whether it is selected. *)

(** [lst.insert(tk.END, txt)] *)
Definition insert_end (txt : string) (lst : list (string * bool))
  : list (string * bool) :=
  lst ++ [(txt, false)].

(** [lst.insert(i, txt)] for [i >= 0]: past the end the line is added
    last. *)
Definition insert_at (i : nat) (txt : string) (lst : list (string * bool))
  : list (string * bool) :=
  take i lst ++ (txt, false) :: drop i lst.

(** [lst.delete(i)]: nothing happens out of range. *)
Definition delete_at (i : nat) (lst : list (string * bool))
  : list (string * bool) :=
  delete i lst.

(** [lst.get(i)]: the empty string out of range. *)
Definition get (i : nat) (lst : list (string * bool)) : string :=
  match lst !! i with
  | Some (txt, _) => txt
  | None => EmptyString
  end.

(** [lst.selection_set(i)] *)
Definition selection_set (i : nat) (lst : list (string * bool))
  : list (string * bool) :=
  match lst !! i with
  | Some (txt, _) => <[i := (txt, true)]> lst
  | None => lst
  end.

(** [lst.curselection()]: the selected positions, in increasing order. *)
Fixpoint curselection_from (i : nat) (lst : list (string * bool)) : list nat :=
  match lst with
  | [] => []
  | (_, sel) :: rest =>
      (if sel : bool then [i] else []) ++ curselection_from (S i) rest
  end.

Definition curselection (lst : list (string * bool)) : list nat :=
  curselection_from 0 lst.

Definition texts (lst : list (string * bool)) : list string := fst <$> lst.

End Listbox.

(** [MergePage]: the paths [self.pdfs], the listbox [self.lst] that
    shows them and the text of [self.out_entry]. *)
Record MergePage := mkMergePage {
  pdfs : list string;
  lst : list (string * bool);
  out_entry : string;
}.

Definition MergePage_init : MergePage := mkMergePage [] [] EmptyString.

(** ["+".join(names)] *)
Fixpoint join_plus (names : list string) : string :=
  match names with
  | [] => EmptyString
  | [name] => name
  | name :: rest => name +:+ "+" +:+ join_plus rest
  end.

(** [_generate_default_filename] (lines 738-753) *)
Definition _generate_default_filename (w : World) (pdfs : list string) : string :=
  match pdfs with
  | [] => "merged.pdf"%string
  | _ =>
      let base_names := (fun p => splitext_base w (basename w p)) <$> take 3 pdfs in
      let new_name := join_plus base_names in
      let new_name := if bool_decide (3 < length pdfs)%nat
                      then new_name +:+ "_et_al" else new_name in
      new_name +:+ "_merged.pdf"
  end.

(** [x in l] and swapping two places of a Python list of paths. *)
Definition path_mem (p : string) (l : list string) : bool := bool_decide (p ∈ l).

(** [l[i], l[j] = l[j], l[i]]: an [IndexError] out of range. *)
Definition swap (i j : nat) (l : list string) : PyResult (list string) :=
  match l !! i, l !! j with
  | Some x, Some y => Ok (<[j := x]> (<[i := y]> l))
  | _, _ => Raise (Exn IndexError "list index out of range")
  end.

(** [del l[i]] *)
Definition del (i : nat) (l : list string) : PyResult (list string) :=
  match l !! i with
  | Some _ => Ok (delete i l)
  | None => Raise (Exn IndexError "list assignment index out of range")
  end.

Section Merge.

Variable w : World.

(** The loop of [add_pdfs] (lines 687-690). *)
Fixpoint add_pdfs_loop (paths : list string) (pdfs : list string) (lst : list (string * bool))
  : list string * list (string * bool) :=
  match paths with
  | [] => (pdfs, lst)
  | p :: rest =>
      if path_mem p pdfs then add_pdfs_loop rest pdfs lst
      else add_pdfs_loop rest (pdfs ++ [p]) (Listbox.insert_end (basename w p) lst)
  end.

(** [add_pdfs]; [paths] is the answer of the file dialog. *)
Definition add_pdfs (paths : list string) (self : MergePage) : MergePage :=
  let '(pdfs, lst) := add_pdfs_loop paths (pdfs self) (lst self) in
  match paths with
  | [] => mkMergePage pdfs lst (out_entry self)
  | _ => mkMergePage pdfs lst (_generate_default_filename w pdfs)
  end.

(** The text of the entry after a change of the list: it is renewed
    only when it is not empty. *)
Definition renew_out_entry (pdfs : list string) (out_entry : string) : string :=
  if PyStr.is_empty out_entry then out_entry
  else _generate_default_filename w pdfs.

(** The loop of [remove_selected] over [reversed(idxs)] (lines 699-701). *)
Fixpoint remove_loop (idxs : list nat) (pdfs : list string) (lst : list (string * bool))
  : PyResult (list string * list (string * bool)) :=
  match idxs with
  | [] => Ok (pdfs, lst)
  | i :: rest =>
      pdfs ← del i pdfs ;
      remove_loop rest pdfs (Listbox.delete_at i lst)
  end.

Definition remove_selected (self : MergePage) : PyResult MergePage :=
  let idxs := Listbox.curselection (lst self) in
  '(pdfs, lst) ← remove_loop (reverse idxs) (pdfs self) (lst self) ;
  Ok (mkMergePage pdfs lst (renew_out_entry pdfs (out_entry self))).

(** One turn of the loop of [move_up] or [move_down]: the line at [i]
    goes to [j]. *)
Definition move_line (i j : nat) (pdfs : list string) (lst : list (string * bool))
  : PyResult (list string * list (string * bool)) :=
  pdfs ← swap j i pdfs ;
  let txt := Listbox.get i lst in
  let lst := Listbox.delete_at i lst in
  let lst := Listbox.insert_at j txt lst in
  let lst := Listbox.selection_set j lst in
  Ok (pdfs, lst).

(** The loop of [move_up] (lines 711-717). *)
Fixpoint move_up_loop (idxs : list nat) (pdfs : list string) (lst : list (string * bool))
  : PyResult (list string * list (string * bool)) :=
  match idxs with
  | [] => Ok (pdfs, lst)
  | i :: rest =>
      match i with
      | O => move_up_loop rest pdfs lst
      | S j =>
          '(pdfs, lst) ← move_line i j pdfs lst ;
          move_up_loop rest pdfs lst
      end
  end.

Definition move_up (self : MergePage) : PyResult MergePage :=
  let idxs := Listbox.curselection (lst self) in
  match idxs with
  | [] => Ok self
  | _ =>
      '(pdfs, lst) ← move_up_loop idxs (pdfs self) (lst self) ;
      Ok (mkMergePage pdfs lst (renew_out_entry pdfs (out_entry self)))
  end.

(** The loop of [move_down] over [reversed(idxs)] (lines 726-732). *)
Fixpoint move_down_loop (idxs : list nat) (pdfs : list string) (lst : list (string * bool))
  : PyResult (list string * list (string * bool)) :=
  match idxs with
  | [] => Ok (pdfs, lst)
  | i :: rest =>
      if bool_decide (Z.of_nat i = Z.of_nat (length pdfs) - 1)
      then move_down_loop rest pdfs lst
      else
        '(pdfs, lst) ← move_line i (S i) pdfs lst ;
        move_down_loop rest pdfs lst
  end.

Definition move_down (self : MergePage) : PyResult MergePage :=
  let idxs := Listbox.curselection (lst self) in
  match idxs with
  | [] => Ok self
  | _ =>
      '(pdfs, lst) ← move_down_loop (reverse idxs) (pdfs self) (lst self) ;
      Ok (mkMergePage pdfs lst (renew_out_entry pdfs (out_entry self)))
  end.

(** [merge_and_save] (lines 755-795); [out] is the answer of the save
    dialog.  [safe_make_dirs] runs in the handler and may raise. *)
Definition merge_and_save (out : string) (self : MergePage)
  : PyResult (list ui_effect) :=
  match pdfs self with
  | [] => Ok [ShowWarning "Warning" "Add at least one PDF."]
  | _ =>
      if PyStr.is_empty out then Ok []
      else
        match raises w (ExtMakeDirs out) with
        | Some e => Raise e
        | None => Ok [RunWorker (merge_job w (pdfs self) out)]
        end
  end.

End Merge.

(** The listbox shows the files of [self.pdfs], line by line. *)
Definition in_sync (w : World) (self : MergePage) : Prop :=
  Listbox.texts (lst self) = basename w <$> pdfs self.

(** ** More notions used to state the properties *)

(** The organizer's cards are distinct objects that exist. *)
Definition cards_distinct (st : OrganizePage) : Prop :=
  NoDup (page_widgets st) /\
  Forall (fun card => (card < next_ref st)%nat) (page_widgets st).

(** The pages [start .. end] of a document, counted from 1. *)
Definition page_slice (r : list Page) (start end_ : Z) : list Page :=
  take (Z.to_nat (end_ - (start - 1))) (drop (Z.to_nat (start - 1)) r).

(** The pages of a source as a reader gives them. *)
Definition source_pages (w : World) (path : string) : list Page :=
  imap (fun i r => mkPage path i r 0) (pdf_pages w path).

(** Only [writer.append] may fail. *)
Definition only_append_fails (w : World) : Prop :=
  forall c, match c with ExtAppend _ => True | _ => raises w c = None end.

(** The file names of [split_all], from page [i] on. *)
Fixpoint split_all_files (w : World) (base out_dir : string) (i : nat)
         (pages : list Page) : list (string * list Page) :=
  match pages with
  | [] => []
  | page :: rest =>
      (path_join w out_dir (base +:+ "_page_" +:+ str_nat i +:+ ".pdf"), [page])
      :: split_all_files w base out_dir (S i) rest
  end.

(** The page a watermark job writes for the page at position [idx]. *)
Definition watermarked (w : World) (ranges : list (Z * Z)) (idx : nat)
           (page : Page) : Page :=
  if selected ranges idx && negb (watermark_none w (page_src page) (page_idx page))
  then mkPage (page_src page) (page_idx page) (page_rotate page)
              (S (page_overlays page))
  else page.

(** The events of the folder job for the files from number [idx] on,
    when no file makes it return. *)
Fixpoint folder_events (total_files : nat) (idx : nat) (pdfs : list string)
  : list event :=
  match pdfs with
  | [] => []
  | _ :: rest =>
      EvProgress (PctOf (Z.of_nat idx) (Z.of_nat total_files) 100)
      :: EvStatus ("Processed " +:+ str_nat idx +:+ "/" +:+ str_nat total_files)
      :: folder_events total_files (S idx) rest
  end.

(** The organizer's state is well formed: its cards are distinct objects
    and the grid shows the working list. *)
Definition well_formed (st : OrganizePage) : Prop :=
  cards_distinct st /\
  grid st = reflow_loop grid_cols 0 0 (page_widgets st).

(** ** The files a job writes *)

(** Code that writes no file and schedules no callback, whatever state
    it starts in and however it ends. *)
Definition keeps_files {A} (m : Job A) : Prop :=
  forall s, SaveSpec.same_files (m s).1 s.

(** The jobs that write one file, and the file asked for. *)
Definition output_of (j : job) : option string :=
  match j with
  | JobSave _ out | JobMerge _ out | JobWatermarkSingle _ _ out
  | JobPageNumbers _ out | JobAddPassword _ out | JobRemovePassword _ out => Some out
  | JobRender _ _ | JobMultiSplit _ _ | JobSplitAll _ _ | JobWatermarkFolder _ _ _ => None
  end.

(** The last lines of a job that writes one file: the file, then the
    final status and the ["done"] event. *)
Definition finish (w : World) (out msg : string) (writer : list Page) : Job unit :=
  write_pdf w out writer ;; put (EvStatus msg) ;; put (EvDone msg).

(** How a run that is to write the file [out] ends: the file is written
    and ["done"] is the last event after plain ones, or no file is
    written and ["error"] is the last event after plain ones. *)
Definition one_file_or_none (run : Job unit) (out : string) (s : JobState) : Prop :=
  (exists pages evs msg,
      disk (run s).1 = disk s ++ [(out, pages)] /\
      emitted run s = evs ++ [EvDone msg] /\ Forall Trace.plain evs) \/
  (exists evs msg,
      disk (run s).1 = disk s /\
      emitted run s = evs ++ [EvError msg] /\ Forall Trace.plain evs).

(** The example sources with a pypdf whose [writer.append] fails. *)
Definition append_fails_world : World :=
  world_of example_pages
           (fun c => match c with
                     | ExtAppend _ => Some (Exn OtherException "append failed")
                     | _ => None
                     end).

(** What the worker makes of the end of a job body: the state after the
    [except] clause of [WorkerThread.run] with a queue. *)
Definition worker_outcome (r : JobState * PyResult unit) : JobState * PyResult unit :=
  match r with
  | (s', Raise e) => put (EvError (exn_str e)) s'
  | (s', Ok a) => (s', Ok a)
  end.

(** The two kinds of lines the watermark jobs print: the one of
    [_create_watermark_reader] for an image that cannot be drawn, and
    the one of the folder job for a file that fails. *)
Fixpoint starts_with (start line : string) : bool :=
  match start, line with
  | EmptyString, _ => true
  | String a start, String b line => Ascii.eqb a b && starts_with start line
  | String _ _, EmptyString => false
  end.

Definition image_error_line (line : string) : bool :=
  starts_with "Image watermark error: " line.

Definition file_error_line (line : string) : bool :=
  starts_with "Error watermarking " line.

(** Code that at most prints lines of one kind: the queue, the files
    and the scheduled callbacks stay as they are, however it ends. *)
Definition only_prints (kind : string -> bool) {A} (m : Job A) : Prop :=
  forall s, exists lines,
    Forall (fun line => kind line = true) lines /\
    (m s).1 = mkJobState (progress_queue s) (disk s) (after_calls s)
                         (stdout s ++ lines).

(** A file of the folder at which the folder job does not return: it
    cannot be read, or the range text is accepted for its page count. *)
Definition folder_passes (w : World) (range_text : string) (p : string) : Prop :=
  forall r, read_pdf w p = Ok r ->
            is_raise (watermark_ranges range_text (length r)) = false.

(** The files the folder job writes for the files of the folder. *)
Definition folder_outputs (w : World) (out_dir : string) (pdfs : list string)
  : list string :=
  (fun p => path_join w out_dir (basename w p)) <$> pdfs.


(** One of the first [n] pages is selected by the ranges. *)
Definition some_selected (ranges : list (Z * Z)) (n : nat) : Prop :=
  exists idx, (idx < n)%nat /\ selected ranges idx = true.

(** The colour of a text watermark can be converted. *)
Definition colour_ok (w : World) : Prop :=
  mode_text w = true ->
  exists rgb, HexColor.hex_to_rgb_fraction (text_color w) = Ok rgb.

(** A page with one more overlay merged onto it. *)
Definition with_overlay (page : Page) : Page :=
  mkPage (page_src page) (page_idx page) (page_rotate page) (S (page_overlays page)).

(** The paths whose line in the listbox is not selected. *)
Fixpoint unselected (pdfs : list string) (lst : list (string * bool)) : list string :=
  match pdfs, lst with
  | p :: pdfs, (_, sel) :: lst =>
      if sel : bool then unselected pdfs lst else p :: unselected pdfs lst
  | _, _ => []
  end.

(** The file that [extract] plans for one entry of the range text and
    the pair it stands for. *)
Definition destination (w : World) (r : list Page) (base_name out_dir : string)
           (range_str : string) (rng : Z * Z) : string * list Page :=
  (path_join w out_dir
     (base_name +:+ "_"
      +:+ PyStr.replace_char "-" "_" (PyStr.remove_char " " range_str) +:+ ".pdf"),
   page_slice r rng.1 rng.2).
(** ** The range parser *)

Section RangeFacts.
Import PyStr RangeParser RangeSpec.

Lemma is_empty_true s : is_empty s = true <-> s = EmptyString.
Proof. destruct s; simpl; split; congruence. Qed.

Lemma is_empty_false s : is_empty s = false <-> s <> EmptyString.
Proof. destruct s; simpl; split; congruence. Qed.

(** A part that contains the separator is cut in two at its first
    occurrence. *)
Lemma split1_contains sep s :
  contains sep s = true ->
  exists a b, split1 sep s = [a; b] /\ s = a +:+ String sep b /\
              contains sep a = false.
Proof.
  induction s as [|c r IH]; simpl; [discriminate|].
  destruct (Ascii.eqb_spec c sep) as [->|Hne]; simpl.
  - intros _. exists EmptyString, r. auto.
  - intros Hc. destruct (IH Hc) as (a & b & -> & -> & Ha).
    exists (String c a), b. simpl.
    destruct (Ascii.eqb_spec c sep); [contradiction|]. auto.
Qed.

Lemma clamp_bounds total n : 1 <= total -> 1 <= clamp total n <= total.
Proof. unfold clamp. lia. Qed.

(** The optional end points of a token, as [parse_part] reads them. *)
Lemma parse_part_endpoints total tok :
  parse_part total tok =
  if bool_decide (tok = "-"%string) then
    Raise (Exn ValueError ("Range '-' is not valid: " +:+ tok))
  else
    match endpoints total tok with
    | None =>
        Raise (Exn ValueError
                 ((if contains "-" tok then "Invalid characters in range: "
                   else "Invalid characters in page number: ") +:+ tok))
    | Some (a, b) =>
        if clamp total b <? clamp total a then
          Raise (Exn ValueError
                   ("Start page " +:+ of_Z (clamp total a)
                    +:+ " cannot be after end page " +:+ of_Z (clamp total b)
                    +:+ " in range: " +:+ tok))
        else Ok (clamp total a, clamp total b)
    end.
Proof.
  unfold parse_part, endpoints. case_bool_decide as Hd; [subst; reflexivity|].
  destruct (contains "-" tok) eqn:Hc.
  - destruct (split1_contains _ _ Hc) as (a & b & Hs & Htok & Ha).
    rewrite Hs.
    destruct (is_empty a) eqn:Ea, (is_empty b) eqn:Eb; simpl.
    + apply is_empty_true in Ea, Eb. subst. done.
    + destruct (int b); reflexivity.
    + destruct (int a); reflexivity.
    + destruct (int a), (int b); reflexivity.
  - destruct (int tok); reflexivity.
Qed.

Lemma endpoints_token_range total tok a b :
  endpoints total tok = Some (a, b) ->
  token_range total tok (clamp total a, clamp total b).
Proof.
  unfold endpoints. destruct (contains "-" tok) eqn:Hc.
  - destruct (split1_contains _ _ Hc) as (x & y & Hs & -> & Hx).
    rewrite Hs. intros H.
    destruct (is_empty x) eqn:Ex, (is_empty y) eqn:Ey; simpl in H.
    + injection H as <- <-. apply is_empty_true in Ex, Ey.
      constructor; [done| left; done | left; done].
    + destruct (int y) as [v|] eqn:Iy; simplify_eq/=.
      apply is_empty_true in Ex. apply is_empty_false in Ey.
      constructor; [done | left; done | right; done].
    + destruct (int x) as [v|] eqn:Ix; simplify_eq/=.
      apply is_empty_false in Ex. apply is_empty_true in Ey.
      constructor; [done | right; done | left; done].
    + destruct (int x) as [u|] eqn:Ix; simplify_eq/=.
      destruct (int y) as [v|] eqn:Iy; simplify_eq/=.
      apply is_empty_false in Ex, Ey.
      constructor; [done | right; done | right; done].
  - destruct (int tok) as [n|] eqn:I; simpl; intros H; simplify_eq.
    by constructor.
Qed.

(** What one accepted part contributes. *)
Lemma parse_part_ok total tok r :
  parse_part total tok = Ok r ->
  token_range total tok r /\ r.1 <= r.2 /\ (1 <= total -> in_range total r).
Proof.
  rewrite parse_part_endpoints. case_bool_decide; [discriminate|].
  destruct (endpoints total tok) as [[a b]|] eqn:He; [|discriminate].
  destruct (Z.ltb_spec (clamp total b) (clamp total a)); [discriminate|].
  intros [= <-]. split; [by apply endpoints_token_range|].
  split; [done|]. intros Ht. unfold in_range; simpl.
  pose proof (clamp_bounds total a Ht). pose proof (clamp_bounds total b Ht). lia.
Qed.

Lemma endpoints_none total tok :
  endpoints total tok = None -> tok <> "-"%string ->
  exists f, f ∈ number_fields tok /\ int f = None.
Proof.
  unfold endpoints, number_fields. destruct (contains "-" tok) eqn:Hc.
  - destruct (split1_contains _ _ Hc) as (x & y & Hs & -> & Hx).
    rewrite Hs. intros H Hne.
    destruct (is_empty x) eqn:Ex, (is_empty y) eqn:Ey; simpl in H.
    + discriminate.
    + destruct (int y) eqn:Iy; [discriminate|].
      exists y. split; [|done]. apply list_elem_of_filter. set_solver.
    + destruct (int x) eqn:Ix; [discriminate|].
      exists x. split; [|done]. apply list_elem_of_filter. set_solver.
    + destruct (int x) eqn:Ix.
      * destruct (int y) eqn:Iy; [discriminate|].
        exists y. split; [|done]. apply list_elem_of_filter. set_solver.
      * exists x. split; [|done]. apply list_elem_of_filter. set_solver.
  - destruct (int tok) eqn:I; [discriminate|]. intros _ _.
    exists tok. set_solver.
Qed.

Lemma number_field_rejected total tok f :
  f ∈ number_fields tok -> int f = None -> endpoints total tok = None.
Proof.
  unfold endpoints, number_fields. destruct (contains "-" tok) eqn:Hc.
  - destruct (split1_contains _ _ Hc) as (x & y & Hs & -> & Hx).
    rewrite Hs. intros [Hf Hin]%list_elem_of_filter Hi.
    apply is_empty_false in Hf.
    assert (f = x \/ f = y) as [->| ->].
    { apply elem_of_cons in Hin as [?|Hin]; [by left|].
      apply list_elem_of_singleton in Hin. by right. }
    + destruct (is_empty x) eqn:Ex; [apply is_empty_true in Ex; done|].
      by rewrite Hi.
    + destruct (is_empty y) eqn:Ey; [apply is_empty_true in Ey; done|].
      rewrite Hi. by destruct (if is_empty x then _ else _).
  - intros ->%list_elem_of_singleton ->. done.
Qed.

(** A part raises exactly when it fails in one of the three ways. *)
Lemma parse_part_raises total tok :
  is_raise (parse_part total tok) = true <-> token_fails total tok.
Proof.
  rewrite parse_part_endpoints. unfold token_fails, start_after_end.
  case_bool_decide as Hd; simpl; [tauto|].
  destruct (endpoints total tok) as [[a b]|] eqn:He.
  - destruct (Z.ltb_spec (clamp total b) (clamp total a)); simpl.
    + split; [|done]. intros _. right; right. eauto.
    + split; [done|]. intros [?|[(f & Hf & Hi)|(a' & b' & Heq & Hlt)]].
      * done.
      * rewrite (number_field_rejected total tok f Hf Hi) in He. done.
      * simplify_eq. lia.
  - simpl. split; [|done]. intros _. right; left.
    by apply endpoints_none with total.
Qed.

Lemma parse_loop_ok total parts acc rs :
  parse_loop total parts acc = Ok rs ->
  exists rs', rs = acc ++ rs' /\
              Forall2 (fun tok r => parse_part total tok = Ok r) parts rs'.
Proof.
  revert acc. induction parts as [|p parts IH]; simpl; intros acc.
  - intros [= <-]. exists []. by rewrite app_nil_r.
  - destruct (parse_part total p) as [r|e] eqn:Hp; [|discriminate].
    intros (rs' & -> & HF)%IH. exists (r :: rs').
    split; [by rewrite <- app_assoc | by constructor].
Qed.

Lemma parse_loop_raises total parts acc :
  is_raise (parse_loop total parts acc) = true <->
  Exists (fun tok => is_raise (parse_part total tok) = true) parts.
Proof.
  revert acc. induction parts as [|p parts IH]; simpl; intros acc.
  - split; [done | by intros ?%Exists_nil].
  - rewrite Exists_cons. destruct (parse_part total p) as [r|e] eqn:Hp; simpl.
    + rewrite IH. split; [by right|]. by intros [?|?].
    + split; [by left | done].
Qed.

Lemma parse_ranges_loop text total :
  parse_ranges text total = parse_loop total (tokens text) [].
Proof.
  unfold parse_ranges, tokens. destruct (is_empty (strip text)) eqn:E; [|done].
  apply is_empty_true in E. rewrite E. reflexivity.
Qed.

(** The pairs of a successful parse are normalized ranges. *)
Lemma parse_ranges_bounds text total rs :
  1 <= total -> parse_ranges text total = Ok rs -> Forall (in_range total) rs.
Proof.
  intros Ht. rewrite parse_ranges_loop.
  intros (rs' & -> & HF)%parse_loop_ok. simpl.
  induction HF as [|tok r toks rs Hp HF IH]; constructor; [|done].
  by apply (parse_part_ok _ _ _ Hp).
Qed.

(** C3 (as amended): the success postcondition of [parse_ranges].
    Whenever the parse succeeds, the result has one pair per token of
    the comma-separated text, in order: a token "N" gives the clamped
    (N, N), a token "A-B" gives the clamped (A, B) with A defaulting to 1
    and B to the page count; start never exceeds end, and for a document
    of at least one page every pair satisfies
    1 <= start <= end <= total_pages.  The three examples of the
    specification evaluate as stated. *)
Theorem parse_ranges_postcondition :
  (forall text total rs,
      parse_ranges text total = Ok rs ->
      Forall2 (token_range total) (tokens text) rs /\
      Forall (fun r => r.1 <= r.2) rs /\
      (1 <= total -> Forall (in_range total) rs))
  /\ parse_ranges "1-3,5" 10 = Ok [(1, 3); (5, 5)]
  /\ parse_ranges "1-100" 10 = Ok [(1, 10)]
  /\ parse_ranges "" 10 = Ok [].
Proof.
  split; [|by repeat split].
  intros text total rs. rewrite parse_ranges_loop.
  intros (rs' & -> & HF)%parse_loop_ok. simpl.
  induction HF as [|tok r toks rs Hp HF IH].
  - by repeat split.
  - destruct IH as (IH1 & IH2 & IH3).
    destruct (parse_part_ok _ _ _ Hp) as (Ht & Hle & Hin).
    repeat split; [by constructor | by constructor |].
    intros H1. constructor; auto.
Qed.

Lemma parse_ranges_postcondition_witness :
  parse_ranges "2-4, 7" 9 = Ok [(2, 4); (7, 7)] /\
  (Forall2 (token_range 9) (tokens "2-4, 7") [(2, 4); (7, 7)] /\
   Forall (fun r => r.1 <= r.2) [(2, 4); (7, 7)] /\
   (1 <= 9 -> Forall (in_range 9) [(2, 4); (7, 7)])).
Proof.
  split; [reflexivity|].
  apply (proj1 parse_ranges_postcondition "2-4, 7" 9). reflexivity.
Defined.

(** C3 as stated fails for a document without pages: the parse of "1"
    succeeds with the pair (1, 1), whose end exceeds the page count 0. *)
Lemma parse_ranges_zero_pages :
  parse_ranges "1" 0 = Ok [(1, 1)] /\ ~ Forall (in_range 0) [(1, 1)].
Proof.
  split; [reflexivity|].
  intros H. apply Forall_cons in H as [(_ & _ & H) _]. simpl in H. lia.
Qed.

(** ** What [int] accepts *)

Lemma digit_not_int_space c : is_digit c = true -> is_int_space c = false.
Proof. destruct c as [[] [] [] [] [] [] [] []]; vm_compute; congruence. Qed.

Lemma digit_val_nonneg c : is_digit c = true -> 0 <= digit_val c.
Proof.
  unfold is_digit, digit_val. intros [H1 _]%andb_true_iff.
  apply N.leb_le in H1. lia.
Qed.

Lemma digits_int_rstrip s : has_non_digit s = false -> int_rstrip s = s.
Proof.
  induction s as [|c s IH]; [done|]. simpl.
  intros [Hc Hs]%orb_false_elim. apply negb_false_iff in Hc.
  rewrite IH by done. destruct s; [|done].
  by rewrite digit_not_int_space.
Qed.

Lemma digits_int_digits s :
  has_non_digit s = false ->
  forall after_digit acc,
    0 <= acc -> s <> EmptyString \/ after_digit = true ->
    exists n, int_digits after_digit acc s = Some n /\ 0 <= n.
Proof.
  induction s as [|c s IH]; intros Hd after_digit acc Hacc Hne.
  - destruct Hne as [Hne| ->]; [done|]. by exists acc.
  - simpl in *. apply orb_false_elim in Hd as [Hc Hs].
    apply negb_false_iff in Hc. rewrite Hc.
    pose proof (digit_val_nonneg c Hc).
    apply IH; [done | lia | by right].
Qed.

(** A field of decimal digits only, within the digit limit, is a
    number for [int]. *)
Lemma int_of_digits f :
  f <> EmptyString -> has_non_digit f = false ->
  count_digits f <= int_max_str_digits ->
  exists n, int f = Some n /\ 0 <= n.
Proof.
  intros Hne Hd Hcount. destruct f as [|c r]; [done|].
  assert (Hc : is_digit c = true).
  { simpl in Hd. apply orb_false_elim in Hd as [Hc _].
    by apply negb_false_iff in Hc. }
  assert (Hbody : exists n, int_body (String c r) = Some n /\ 0 <= n).
  { unfold int_body. destruct (Z.ltb_spec int_max_str_digits (count_digits (String c r)));
      [lia|].
    apply digits_int_digits; [done | lia | by left]. }
  unfold int. simpl int_lstrip. rewrite digit_not_int_space by done.
  rewrite digits_int_rstrip by done.
  destruct c as [[] [] [] [] [] [] [] []];
    first [exact Hbody | by vm_compute in Hc].
Qed.

(** C4 (as amended): [parse_ranges] raises exactly when some token is a
    bare "-", or has a number field that [int] rejects, or has its
    start after its end once both end points are clamped.  [int] skips
    the whitespace around the number, takes one sign and single
    underscores between digits, and refuses more than 4300 digits: a
    field of decimal digits only, at most 4300 of them, is never
    rejected.  In particular "-" and "5-2" raise for 10 pages, and
    "20-15" does not, because both end points are clamped to the last
    page first. *)
Theorem parse_ranges_raises_iff :
  (forall text total,
      is_raise (parse_ranges text total) = true <->
      exists tok, tok ∈ tokens text /\ token_fails total tok)
  /\ (forall f,
         f <> EmptyString -> has_non_digit f = false ->
         count_digits f <= int_max_str_digits ->
         exists n, int f = Some n /\ 0 <= n)
  /\ is_raise (parse_ranges "-" 10) = true
  /\ is_raise (parse_ranges "5-2" 10) = true
  /\ parse_ranges "20-15" 10 = Ok [(10, 10)].
Proof.
  split; [|split; [exact int_of_digits | by repeat split]].
  intros text total. rewrite parse_ranges_loop, parse_loop_raises, Exists_exists.
  split; intros (tok & Hin & Hf); exists tok; split; try done;
    by apply parse_part_raises.
Qed.

(** C4 as stated fails: the token "+5" has the non-numeric character "+"
    where a page number is expected, and the parse succeeds. *)
Lemma parse_ranges_sign_accepted :
  ~ (is_raise (parse_ranges "+5" 10) = true <->
     exists tok, tok ∈ tokens "+5" /\ token_fails_literal 10 tok).
Proof.
  intros [_ H]. enough (is_raise (parse_ranges "+5" 10) = true) by done.
  apply H. exists "+5"%string. split; [by left|].
  right; left. exists "+5"%string. split; [by left | reflexivity].
Qed.

End RangeFacts.

(** ** The grid *)

Section GridFacts.
Import GridSpec.

(** The placement of the card at position [i] when the loop starts at
    [(row, col)]. *)
Lemma reflow_loop_lookup C widgets : forall row col i card,
  0 < C -> 0 <= col < C ->
  widgets !! i = Some card ->
  reflow_loop C row col widgets !! i
  = Some (card, ((row * C + col + Z.of_nat i) / C,
                 (row * C + col + Z.of_nat i) `mod` C)).
Proof.
  induction widgets as [|c rest IH]; intros row col i card HC Hcol Hi;
    [done|].
  destruct i as [|i]; simpl in *.
  - injection Hi as ->. do 3 f_equal.
    + apply (Z.div_unique _ _ _ col); lia.
    + apply (Z.mod_unique _ _ row); lia.
  - destruct (Z.leb_spec C (col + 1)).
    + rewrite (IH (row + 1) 0 i card) by (done || lia).
      do 4 f_equal; lia.
    + rewrite (IH row (col + 1) i card) by (done || lia).
      do 4 f_equal; lia.
Qed.

(** C6: the grid round trip.  For a positive column count [C] the
    card at position [i] of the working list is placed at row [i div C]
    and column [i mod C], so [row * C + col] gives [i] back; this holds
    in particular for the placement that [_reflow_grid] stores with its
    5 columns. *)
Theorem grid_round_trip (C : Z) (widgets : list nat) (i : nat) :
  0 < C -> (i < length widgets)%nat ->
  exists card row col,
    widgets !! i = Some card /\
    reflow_loop C 0 0 widgets !! i = Some (card, (row, col)) /\
    row = Z.of_nat i / C /\ col = Z.of_nat i `mod` C /\
    row * C + col = Z.of_nat i /\
    (C = grid_cols ->
     forall st, page_widgets st = widgets ->
                grid (_reflow_grid st) !! i = Some (card, (row, col))).
Proof.
  intros HC Hi. destruct (lookup_lt_is_Some_2 widgets i Hi) as [card Hc].
  exists card, (Z.of_nat i / C), (Z.of_nat i `mod` C).
  assert (Hl : reflow_loop C 0 0 widgets !! i
               = Some (card, (Z.of_nat i / C, Z.of_nat i `mod` C))).
  { rewrite (reflow_loop_lookup C widgets 0 0 i card) by (done || lia).
    do 4 f_equal; lia. }
  repeat split; try done.
  - pose proof (Z.div_mod (Z.of_nat i) C). lia.
  - intros -> st <-. exact Hl.
Qed.

Lemma grid_round_trip_witness :
  exists card row col,
    [10; 11; 12; 13; 14; 15; 16]%nat !! 6%nat = Some card /\
    reflow_loop 5 0 0 [10; 11; 12; 13; 14; 15; 16]%nat !! 6%nat
    = Some (card, (row, col)) /\
    row = 6 / 5 /\ col = 6 `mod` 5 /\ row * 5 + col = 6 /\
    (5 = grid_cols ->
     forall st, page_widgets st = [10; 11; 12; 13; 14; 15; 16]%nat ->
                grid (_reflow_grid st) !! 6%nat = Some (card, (row, col))).
Proof.
  apply (grid_round_trip 5 [10; 11; 12; 13; 14; 15; 16]%nat 6);
    [lia | simpl; lia].
Defined.

(** C7: the drag target is safe.  For every pointer position, negative
    coordinates included, and a working list of [n >= 1] cards laid out
    in [C >= 1] columns, the index computed by [on_drag_motion] is the
    specification's clamp(targetRow*C + targetCol, 0, n-1) and lies in
    [0, n-1]; with an empty working list the handler returns at once,
    whatever Tk would report for a card. *)
Theorem drag_target_safe :
  (forall C n width height x y,
      1 <= C -> 1 <= n ->
      drag_target C n width height x y
      = target_index C n (cell width 170) (cell height 250) x y /\
      0 <= drag_target C n width height x y <= n - 1)
  /\ (forall winfo x y st,
         page_widgets st = [] -> on_drag_motion winfo x y st = Ok st).
Proof.
  split.
  - intros C n width height x y HC Hn.
    unfold drag_target, target_index, clampZ, cell.
    set (cw := if width + 10 <? 50 then 170 else width + 10).
    set (ch := if height + 10 <? 50 then 250 else height + 10).
    set (col := Z.max 0 (Z.min (C - 1) (x / cw))).
    set (row := Z.max 0 (y / ch)).
    assert (0 <= col) by (unfold col; lia).
    assert (0 <= row) by (unfold row; lia).
    assert (0 <= row * C + col) by nia.
    destruct (Z.leb_spec n (row * C + col)); lia.
  - intros winfo x y st Hw. unfold on_drag_motion. rewrite Hw.
    destruct (drag_item st); reflexivity.
Qed.

Lemma drag_target_safe_witness :
  drag_target 5 7 150 200 (-40) 100000
  = target_index 5 7 (cell 150 170) (cell 200 250) (-40) 100000 /\
  0 <= drag_target 5 7 150 200 (-40) 100000 <= 7 - 1.
Proof. apply (proj1 drag_target_safe 5 7 150 200 (-40) 100000); lia. Defined.

End GridFacts.

(** ** Moving a card *)

Section MoveFacts.

Lemma index_lookup item widgets cur :
  PyList.index item widgets = Some cur -> widgets !! cur = Some item.
Proof.
  revert cur. induction widgets as [|c rest IH]; intros cur; simpl; [done|].
  destruct (decide (c = item)) as [->|Hne].
  - by intros [= <-].
  - destruct (PyList.index item rest) as [k|]; simpl; [|done].
    intros [= <-]. by apply IH.
Qed.

Lemma index_elem_of item widgets :
  item ∈ widgets -> is_Some (PyList.index item widgets).
Proof.
  induction widgets as [|c rest IH]; simpl; [by intros ?%elem_of_nil|].
  intros [->|Hin]%elem_of_cons.
  - rewrite decide_True by done. eauto.
  - destruct (decide (c = item)); [eauto|].
    destruct (IH Hin) as [k ->]. simpl. eauto.
Qed.

Lemma py_insert_in_range {A} (t : nat) (x : A) (l : list A) :
  (t <= length l)%nat ->
  PyList.insert (Z.of_nat t) x l = take t l ++ x :: drop t l.
Proof.
  intros Ht. unfold PyList.insert.
  destruct (Z.ltb_spec (Z.of_nat t) 0); [lia|].
  rewrite Z.min_l by lia. by rewrite Nat2Z.id.
Qed.

(** The move inside the list: the card goes to the target index, the
    length is kept and the other cards stay in their order. *)
Lemma drag_move_spec (item : nat) (widgets : list nat) (target cur : nat) :
  PyList.index item widgets = Some cur -> (target < length widgets)%nat ->
  (target <> cur ->
   exists widgets',
     drag_move item (Z.of_nat target) widgets = Ok (Some widgets') /\
     widgets' !! target = Some item /\
     length widgets' = length widgets /\
     delete target widgets' = delete cur widgets) /\
  (target = cur -> drag_move item (Z.of_nat target) widgets = Ok None).
Proof.
  intros Hcur Ht.
  pose proof (index_lookup _ _ _ Hcur) as Hl.
  pose proof (lookup_lt_Some _ _ _ Hl) as Hlt.
  split.
  - intros Hne. unfold drag_move. rewrite Hcur.
    rewrite decide_True by lia.
    assert (Hlen : length (delete cur widgets) = pred (length widgets)).
    { rewrite length_delete by eauto. lia. }
    rewrite py_insert_in_range by lia.
    eexists. split; [done|].
    assert (Htk : length (take target (delete cur widgets)) = target).
    { rewrite length_take. lia. }
    split; [|split].
    + rewrite lookup_app_r by lia. rewrite Htk, Nat.sub_diag. done.
    + rewrite length_app. simpl. rewrite Htk, length_drop. lia.
    + rewrite <- Htk at 1. rewrite delete_middle. apply take_drop.
  - intros ->. unfold drag_move. rewrite Hcur.
    by rewrite decide_False by lia.
Qed.

(** Every index of the list is under the pointer somewhere: at the
    corner of its cell. *)
Lemma drag_target_reaches (n width height t : Z) :
  0 <= t < n ->
  exists x y, drag_target grid_cols n width height x y = t.
Proof.
  intros Ht. unfold drag_target, grid_cols.
  set (w_width := if width + 10 <? 50 then 170 else width + 10).
  set (w_height := if height + 10 <? 50 then 250 else height + 10).
  assert (Hw : 0 < w_width).
  { subst w_width. destruct (Z.ltb_spec (width + 10) 50); lia. }
  assert (Hh : 0 < w_height).
  { subst w_height. destruct (Z.ltb_spec (height + 10) 50); lia. }
  exists (t `mod` 5 * w_width), (t `div` 5 * w_height).
  rewrite !Z.div_mul by lia.
  pose proof (Z.mod_pos_bound t 5 ltac:(lia)) as Hm.
  pose proof (Z.div_pos t 5 ltac:(lia) ltac:(lia)) as Hd.
  pose proof (Z.div_mod t 5 ltac:(lia)) as Hdm.
  rewrite (Z.min_r (5 - 1)) by lia. rewrite !Z.max_r by lia.
  destruct (Z.leb_spec n (t `div` 5 * 5 + t `mod` 5)); lia.
Qed.

(** C2: the stable move.  While a card of the working list is dragged,
    every index of the list is the target of some pointer position; and
    when the pointer is over the target index, [on_drag_motion] returns
    a state whose working list has the dragged card at the target
    index, has the same length and has the other cards in their order
    (the list without the moved card is the same before and after),
    whose grid is laid out anew from that list, and whose cards,
    selection and dragged card are as before.  When the target is the
    card's own index nothing is touched: the handler returns the very
    state it was given. *)
Theorem drag_move_stable (winfo : nat -> Z * Z) (st : OrganizePage)
        (item target : nat) :
  drag_item st = Some item ->
  item ∈ page_widgets st ->
  (target < length (page_widgets st))%nat ->
  let over_target x y :=
    forall first,
      page_widgets st !! 0%nat = Some first ->
      drag_target grid_cols (Z.of_nat (length (page_widgets st)))
                  (winfo first).1 (winfo first).2 x y = Z.of_nat target in
  (exists x y, over_target x y)
  /\ forall x y,
       over_target x y ->
       exists cur,
         PyList.index item (page_widgets st) = Some cur /\
         (target <> cur ->
          exists st',
            on_drag_motion winfo x y st = Ok st' /\
            page_widgets st' !! target = Some item /\
            length (page_widgets st') = length (page_widgets st) /\
            delete target (page_widgets st') = delete cur (page_widgets st) /\
            grid st' = reflow_loop grid_cols 0 0 (page_widgets st') /\
            cards st' = cards st /\ next_ref st' = next_ref st /\
            selected_card st' = selected_card st /\
            drag_item st' = drag_item st) /\
         (target = cur -> on_drag_motion winfo x y st = Ok st).
Proof.
  intros Hd Hin Ht over_target. subst over_target. cbv beta.
  destruct (page_widgets st) as [|first rest] eqn:Hw;
    [by apply elem_of_nil in Hin|].
  split.
  - destruct (drag_target_reaches (Z.of_nat (length (first :: rest)))
                (winfo first).1 (winfo first).2 (Z.of_nat target))
      as (x & y & Hxy); [lia|].
    exists x, y. by intros ? [= <-].
  - intros x y Htarget. specialize (Htarget first eq_refl).
    destruct (index_elem_of _ _ Hin) as [cur Hcur]. exists cur. split; [done|].
    destruct (drag_move_spec item (first :: rest) target cur Hcur Ht)
      as [Hmove Hstay].
    unfold on_drag_motion. rewrite Hd, Hw.
    rewrite bool_decide_eq_false_2 by done.
    change ((first :: rest) !! 0%nat) with (Some first). cbv beta iota.
    rewrite Htarget. split.
    + intros Hne. destruct (Hmove Hne) as (widgets' & -> & Hat & Hlen & Hdel).
      eexists. split; [reflexivity|]. simpl. by split_and!.
    + intros Heq. by rewrite (Hstay Heq).
Qed.

Lemma drag_move_stable_witness :
  let st := mkOrganizePage ∅ 14 [10; 11; 12; 13]%nat None (Some 12%nat) [] in
  let winfo := fun _ : nat => (150, 200) in
  let over_target x y :=
    forall first,
      page_widgets st !! 0%nat = Some first ->
      drag_target grid_cols (Z.of_nat (length (page_widgets st)))
                  (winfo first).1 (winfo first).2 x y = Z.of_nat 0 in
  (exists x y, over_target x y)
  /\ forall x y,
       over_target x y ->
       exists cur,
         PyList.index 12%nat (page_widgets st) = Some cur /\
         (0%nat <> cur ->
          exists st',
            on_drag_motion winfo x y st = Ok st' /\
            page_widgets st' !! 0%nat = Some 12%nat /\
            length (page_widgets st') = length (page_widgets st) /\
            delete 0%nat (page_widgets st') = delete cur (page_widgets st) /\
            grid st' = reflow_loop grid_cols 0 0 (page_widgets st') /\
            cards st' = cards st /\ next_ref st' = next_ref st /\
            selected_card st' = selected_card st /\
            drag_item st' = drag_item st) /\
         (0%nat = cur -> on_drag_motion winfo x y st = Ok st).
Proof.
  apply (drag_move_stable (fun _ : nat => (150, 200))
           (mkOrganizePage ∅ 14 [10; 11; 12; 13]%nat None (Some 12%nat) [])
           12 0);
    [reflexivity | set_solver | simpl; lia].
Defined.

End MoveFacts.

(** ** Running monadic code *)

Lemma run_bind {A B} (m : Job A) (k : A -> Job B) (s : JobState) :
  (m ≫= k) s = match m s with
               | (s', Ok a) => k a s'
               | (s', Raise e) => (s', Raise e)
               end.
Proof. reflexivity. Qed.

Lemma run_ret {A} (a : A) (s : JobState) : (mret a : Job A) s = (s, Ok a).
Proof. reflexivity. Qed.

Lemma run_put (ev : event) (s : JobState) :
  put ev s = (mkJobState (progress_queue s ++ [ev]) (disk s) (after_calls s) (stdout s),
              Ok tt).
Proof. reflexivity. Qed.

Lemma run_try_except {A} (body : Job A) (handler : exn -> Job A) (s : JobState) :
  try_except body handler s = match body s with
                              | (s', Raise e) => handler e s'
                              | (s', Ok a) => (s', Ok a)
                              end.
Proof. unfold try_except. by destruct (body s) as [s' [a|e]]. Qed.

(** ** Traces: what a job puts on the queue *)

Section TraceFacts.
Import Trace.

Lemma emits_weaken {A} (m : Job A) (P Q : PyResult A -> list event -> Prop) :
  emits m P -> (forall r evs, P r evs -> Q r evs) -> emits m Q.
Proof. intros Hm HPQ s. destruct (Hm s) as (evs & ? & ?). eauto. Qed.

Lemma emits_ret {A} (a : A) (P : PyResult A -> list event -> Prop) :
  P (Ok a) [] -> emits (mret a) P.
Proof. intros HP s. exists []. by rewrite app_nil_r. Qed.

Lemma emits_bind {A B} (m : Job A) (k : A -> Job B) P Q :
  emits m P -> (forall a, emits (k a) (Q a)) ->
  emits (m ≫= k)
        (fun r evs =>
           (exists e, r = Raise e /\ P (Raise e) evs) \/
           (exists a e1 e2, evs = e1 ++ e2 /\ P (Ok a) e1 /\ Q a r e2)).
Proof.
  intros Hm Hk s. rewrite run_bind.
  destruct (Hm s) as (e1 & Hq1 & HP).
  destruct (m s) as [s1 [a|e]]; simpl in *.
  - destruct (Hk a s1) as (e2 & Hq2 & HQ).
    exists (e1 ++ e2). rewrite Hq2, Hq1, app_assoc. split; [done|].
    right. by exists a, e1, e2.
  - exists e1. split; [done|]. left. by exists e.
Qed.

Lemma emits_try_except {A} (body : Job A) (handler : exn -> Job A) P Q :
  emits body P -> (forall e, emits (handler e) (Q e)) ->
  emits (try_except body handler)
        (fun r evs =>
           (exists a, r = Ok a /\ P (Ok a) evs) \/
           (exists e e1 e2, evs = e1 ++ e2 /\ P (Raise e) e1 /\ Q e r e2)).
Proof.
  intros Hm Hk s. rewrite run_try_except.
  destruct (Hm s) as (e1 & Hq1 & HP).
  destruct (body s) as [s1 [a|e]]; simpl in *.
  - exists e1. split; [done|]. left. by exists a.
  - destruct (Hk e s1) as (e2 & Hq2 & HQ).
    exists (e1 ++ e2). rewrite Hq2, Hq1, app_assoc. split; [done|].
    right. by exists e, e1, e2.
Qed.

(** *** Quiet code *)

Lemma quiet_ret {A} (a : A) : quiet (mret a).
Proof. by apply emits_ret. Qed.

Lemma quiet_raise {A} (e : exn) : quiet (@raise A e).
Proof. intros s. exists []. by rewrite app_nil_r. Qed.

Lemma quiet_ext w c : quiet (ext w c).
Proof. intros s. exists []. by rewrite app_nil_r. Qed.

Lemma quiet_open_reader w path : quiet (open_reader w path).
Proof. intros s. exists []. by rewrite app_nil_r. Qed.

Lemma quiet_write_file path pages : quiet (write_file path pages).
Proof. intros s. exists []. by rewrite app_nil_r. Qed.

Lemma quiet_schedule data idx : quiet (schedule data idx).
Proof. intros s. exists []. by rewrite app_nil_r. Qed.

Lemma quiet_print line : quiet (print line).
Proof. intros s. exists []. by rewrite app_nil_r. Qed.

Lemma quiet_put_progress p : quiet (put (EvProgress p)).
Proof. intros s. exists [EvProgress p]. split; [reflexivity|]. by repeat constructor. Qed.

Lemma quiet_put_status msg : quiet (put (EvStatus msg)).
Proof. intros s. exists [EvStatus msg]. split; [reflexivity|]. by repeat constructor. Qed.

Lemma quiet_bind {A B} (m : Job A) (k : A -> Job B) :
  quiet m -> (forall a, quiet (k a)) -> quiet (m ≫= k).
Proof.
  intros Hm Hk.
  eapply emits_weaken;
    [exact (emits_bind m k _ (fun _ _ evs => Forall plain evs) Hm Hk)|].
  intros r evs [(e & _ & H)|(a & e1 & e2 & -> & H1 & H2)]; [done|].
  by apply Forall_app.
Qed.

Lemma quiet_try_except {A} (body : Job A) (handler : exn -> Job A) :
  quiet body -> (forall e, quiet (handler e)) -> quiet (try_except body handler).
Proof.
  intros Hm Hk.
  eapply emits_weaken;
    [exact (emits_try_except body handler _ (fun _ _ evs => Forall plain evs) Hm Hk)|].
  intros r evs [(a & _ & H)|(e & e1 & e2 & -> & H1 & H2)]; [done|].
  by apply Forall_app.
Qed.

Lemma quiet_if {A} (b : bool) (m1 m2 : Job A) :
  quiet m1 -> quiet m2 -> quiet (if b then m1 else m2).
Proof. by destruct b. Qed.

End TraceFacts.

Create HintDb quiet.
#[export] Hint Resolve quiet_ret quiet_raise quiet_ext quiet_open_reader
  quiet_write_file quiet_schedule quiet_print quiet_put_progress
  quiet_put_status : quiet.
#[export] Hint Extern 2 (Trace.quiet (_ ≫= _)) =>
  apply quiet_bind; [|intros ?] : quiet.
#[export] Hint Extern 2 (Trace.quiet (try_except _ _)) =>
  apply quiet_try_except; [|intros ?] : quiet.
#[export] Hint Extern 2 (Trace.quiet (if _ then _ else _)) =>
  apply quiet_if : quiet.
#[export] Hint Extern 3 (Trace.quiet (match ?x with _ => _ end)) =>
  destruct x : quiet.

(** Solves quietness of straight-line code, using the hypotheses for the
    recursive calls. *)
Ltac quiet_step := simpl; eauto 20 with quiet.

Section QuietJobs.
Import Trace.
Variable w : World.

Lemma quiet_write_pdf out writer : quiet (write_pdf w out writer).
Proof. unfold write_pdf. quiet_step. Qed.

Lemma quiet_add_pages pages : forall writer, quiet (add_pages w pages writer).
Proof. induction pages; intros writer; quiet_step. Qed.

#[local] Hint Resolve quiet_write_pdf quiet_add_pages : quiet.

Lemma quiet_render_loop path total n :
  forall i page_data, quiet (render_loop w path total i n page_data).
Proof. induction n; intros i page_data; quiet_step. Qed.

Lemma quiet_save_loop total widgets :
  forall i readers writer, quiet (save_loop w total i widgets readers writer).
Proof.
  induction widgets as [|card rest IH]; intros i readers writer; [quiet_step|].
  simpl. apply quiet_bind; [quiet_step|]. intros [reader readers1].
  apply quiet_bind; [|intros [readers2 writer2]; quiet_step].
  case_bool_decide; [|quiet_step].
  destruct (reader !! orig_index card); [|quiet_step].
  apply quiet_bind; [|intros [page2 readers2]; quiet_step].
  case_bool_decide; quiet_step.
Qed.

Lemma quiet_merge_loop total pdfs :
  forall idx writer, quiet (merge_loop w total idx pdfs writer).
Proof. induction pdfs; intros idx writer; quiet_step. Qed.

Lemma quiet_multi_split_loop total dests :
  forall idx, quiet (multi_split_loop w total idx dests).
Proof. induction dests as [|[out_path pages] rest IH]; intros idx; quiet_step. Qed.

Lemma quiet_split_all_loop base out_dir total pages :
  forall i, quiet (split_all_loop w base out_dir total i pages).
Proof. induction pages; intros i; quiet_step. Qed.

Lemma quiet_merge_overlay page : quiet (merge_overlay w page).
Proof. unfold merge_overlay. quiet_step. Qed.

#[local] Hint Resolve quiet_merge_overlay : quiet.

Lemma quiet_create_watermark_reader path i :
  quiet (_create_watermark_reader w path i).
Proof.
  unfold _create_watermark_reader.
  apply quiet_bind; [quiet_step|]. intros _.
  apply quiet_bind; [|intros []; quiet_step].
  destruct (mode_text w).
  - apply quiet_bind; [quiet_step|]. intros _.
    destruct (HexColor.hex_to_rgb_fraction (text_color w)); quiet_step.
  - destruct (PyStr.is_empty (wm_image w)); quiet_step.
Qed.

#[local] Hint Resolve quiet_create_watermark_reader : quiet.

Lemma quiet_watermark_page ranges idx page writer :
  quiet (watermark_page w ranges idx page writer).
Proof.
  unfold watermark_page. apply quiet_bind; [quiet_step|]. intros _.
  apply quiet_bind; [|intros ?; quiet_step].
  destruct (selected ranges idx); [|quiet_step].
  apply quiet_bind; [quiet_step|]. intros []; quiet_step.
Qed.

#[local] Hint Resolve quiet_watermark_page : quiet.

Lemma quiet_single_loop ranges total pages :
  forall idx writer, quiet (single_loop w ranges total idx pages writer).
Proof. induction pages; intros idx writer; quiet_step. Qed.

Lemma quiet_folder_pages ranges pages :
  forall i writer, quiet (folder_pages w ranges i pages writer).
Proof. induction pages; intros i writer; quiet_step. Qed.

Lemma quiet_numbers_loop total pages :
  forall i writer, quiet (numbers_loop w total i pages writer).
Proof. induction pages; intros i writer; quiet_step. Qed.

End QuietJobs.

(** ** The worker and the end of a job *)

Section EndsOnce.
Import Trace.

Lemma once_plain {A} (final : A -> bool) (r : PyResult A) evs :
  Forall plain evs -> once final r evs.
Proof.
  intros H. exists evs, []. rewrite app_nil_r. repeat split; [done|].
  destruct r as [a|e]; [|done]. destruct (final a); simpl; [lia|done].
Qed.

Lemma once_app {A} (final : A -> bool) (r : PyResult A) evs1 evs2 :
  Forall plain evs1 -> once final r evs2 -> once final r (evs1 ++ evs2).
Proof.
  intros H1 (pre & last & -> & H2 & H3). exists (evs1 ++ pre), last.
  rewrite app_assoc. repeat split; [by apply Forall_app | done].
Qed.

Lemma once_quiet {A} (final : A -> bool) (m : Job A) :
  quiet m -> emits m (once final).
Proof.
  intros Hm. eapply emits_weaken; [exact Hm|]. intros r evs. apply once_plain.
Qed.

Lemma once_bind {A B} (final : B -> bool) (m : Job A) (k : A -> Job B) :
  quiet m -> (forall a, emits (k a) (once final)) -> emits (m ≫= k) (once final).
Proof.
  intros Hm Hk.
  eapply emits_weaken; [exact (emits_bind m k _ (fun _ => once final) Hm Hk)|].
  simpl. intros r evs [(e & -> & H)|(a & e1 & e2 & -> & H1 & H2)].
  - by apply once_plain.
  - by apply once_app.
Qed.

Lemma ends_once_quiet (m : Job unit) : quiet m -> ends_once m.
Proof. apply once_quiet. Qed.

Lemma ends_once_bind {A} (m : Job A) (k : A -> Job unit) :
  quiet m -> (forall a, ends_once (k a)) -> ends_once (m ≫= k).
Proof. apply once_bind. Qed.

Lemma returns_once_quiet (m : Job bool) : quiet m -> returns_once m.
Proof. apply once_quiet. Qed.

Lemma returns_once_bind {A} (m : Job A) (k : A -> Job bool) :
  quiet m -> (forall a, returns_once (k a)) -> returns_once (m ≫= k).
Proof. apply once_bind. Qed.

Lemma ends_once_put ev : ends_once (put ev).
Proof.
  intros s. exists [ev]. split; [reflexivity|].
  exists [], [ev]. repeat split; simpl; [constructor | lia].
Qed.

(** [try: body  except Exception as e: put(("error", ...))] *)
Lemma ends_once_try (body : Job unit) (f : exn -> string) :
  ends_once body ->
  ends_once (try_except body (fun e => put (EvError (f e)))).
Proof.
  intros Hb s. rewrite run_try_except.
  destruct (Hb s) as (e1 & Hq1 & pre & last & -> & Hpre & Hlast).
  destruct (body s) as [s1 [a|e]]; simpl in *.
  - exists (pre ++ last). split; [done|]. by exists pre, last.
  - subst last. exists (pre ++ [EvError (f e)]).
    rewrite Hq1, app_nil_r, app_assoc. split; [done|].
    exists pre, [EvError (f e)]. repeat split; [done | simpl; lia].
Qed.

Lemma ends_once_done (m : Job unit) (msg1 msg2 : string) :
  quiet m -> ends_once (m ;; put (EvStatus msg1) ;; put (EvDone msg2)).
Proof.
  intros Hm. apply ends_once_bind; [done|]. intros _.
  apply ends_once_bind; [apply quiet_put_status|]. intros _. apply ends_once_put.
Qed.

Lemma returns_once_try (body : Job bool) (handler : exn -> Job bool) :
  returns_once body -> (forall e, quiet (handler e)) ->
  (forall e s, (handler e s).2 = Ok false) ->
  returns_once (try_except body handler).
Proof.
  intros Hb Hh Hf s. rewrite run_try_except.
  destruct (Hb s) as (e1 & Hq1 & pre & last & -> & Hpre & Hlast).
  destruct (body s) as [s1 [a|e]]; simpl in *.
  - exists (pre ++ last). split; [done|]. by exists pre, last.
  - subst last. destruct (Hh e s1) as (e2 & Hq2 & He2). specialize (Hf e s1).
    exists (pre ++ e2). rewrite Hq2, Hq1, app_nil_r, app_assoc. split; [done|].
    exists (pre ++ e2), []. rewrite app_nil_r.
    repeat split; [by apply Forall_app|]. by rewrite Hf.
Qed.

(** After a body that may have executed [return]: the rest runs only
    when it has not. *)
Lemma once_after_return {A} (final : A -> bool) (m : Job bool) (a : A)
      (k : Job A) :
  final a = true ->
  returns_once m -> emits k (once final) ->
  emits (returned ← m ; if returned : bool then mret a else k) (once final).
Proof.
  intros Hfin Hm Hk s. rewrite run_bind.
  destruct (Hm s) as (e1 & Hq1 & pre & last & -> & Hpre & Hlast).
  destruct (m s) as [s1 [[]|e]]; simpl in *.
  - exists (pre ++ last). split; [done|]. exists pre, last. by rewrite Hfin.
  - subst last. destruct (Hk s1) as (e2 & Hq2 & Hon).
    exists (pre ++ e2). rewrite Hq2, Hq1, app_nil_r, app_assoc.
    split; [done|]. by apply once_app.
  - subst last. exists pre. rewrite app_nil_r in Hq1. split; [done|].
    by apply once_plain.
Qed.

(** *** Counting the final events *)

Lemma count_app f evs1 evs2 :
  count f (evs1 ++ evs2) = (count f evs1 + count f evs2)%nat.
Proof. unfold count. by rewrite filter_app, length_app. Qed.

Lemma count_plain evs :
  Forall plain evs ->
  count is_error_event evs = 0%nat /\ count is_done_event evs = 0%nat.
Proof.
  unfold count. induction 1 as [|ev evs [He Hd] _ [IH1 IH2]]; [done|].
  rewrite !filter_cons, decide_False, decide_False by congruence. done.
Qed.

Lemma count_single_le (ev : event) :
  (count is_error_event [ev] + count is_done_event [ev] <= 1)%nat.
Proof. by destruct ev; cbv; lia. Qed.

End EndsOnce.

Section JobsEnd.
Import Trace.
Variable w : World.

#[local] Hint Resolve quiet_write_pdf quiet_add_pages quiet_render_loop
  quiet_save_loop quiet_merge_loop quiet_multi_split_loop
  quiet_split_all_loop quiet_single_loop quiet_folder_pages
  quiet_numbers_loop quiet_merge_overlay quiet_watermark_page : quiet.

Lemma ends_once_save_try widgets out : ends_once (save_try w widgets out).
Proof.
  unfold save_try. apply ends_once_bind; [quiet_step|]. intros writer.
  apply ends_once_done. quiet_step.
Qed.

Lemma returns_once_folder_file range_text out_dir p :
  returns_once (folder_file w range_text out_dir p).
Proof.
  unfold folder_file. apply returns_once_try; [| intros; quiet_step | done].
  apply returns_once_bind; [quiet_step|]. intros r.
  destruct (watermark_ranges _ _) as [ranges|e].
  - apply returns_once_quiet. quiet_step.
  - intros s. exists [EvError (exn_str e)]. split; [reflexivity|].
    exists [], [EvError (exn_str e)]. repeat split; simpl; [constructor | lia].
Qed.

Lemma returns_once_folder_loop range_text out_dir total pdfs :
  forall idx, returns_once (folder_loop w range_text out_dir total idx pdfs).
Proof.
  induction pdfs as [|p rest IH]; intros idx; simpl.
  - apply returns_once_quiet. quiet_step.
  - apply (once_after_return (fun b => b)); [done | apply returns_once_folder_file|].
    apply returns_once_bind; [quiet_step|]. intros _.
    apply returns_once_bind; [quiet_step|]. intros _. apply IH.
Qed.

(** Every job of the program puts plain events on the queue and then
    at most one ["done"] or ["error"]; it puts none when it raises. *)
Lemma job_ends_once (j : job) : ends_once (job_body w j).
Proof.
  destruct j; simpl.
  - apply ends_once_try, ends_once_quiet. quiet_step.
  - apply ends_once_try, ends_once_save_try.
  - unfold merge_job. apply ends_once_bind; [quiet_step|]. intros writer.
    apply ends_once_done. quiet_step.
  - unfold job_multi_split. apply ends_once_done. quiet_step.
  - unfold split_all_job. apply ends_once_bind; [quiet_step|]. intros r.
    apply ends_once_done. quiet_step.
  - unfold apply_to_single_job. destruct (watermark_ranges _ _) as [ranges|e].
    + apply ends_once_bind; [quiet_step|]. intros writer.
      apply ends_once_done. quiet_step.
    + apply ends_once_put.
  - unfold apply_to_folder_job.
    apply (once_after_return (fun _ => true));
      [done | apply returns_once_folder_loop|].
    apply ends_once_bind; [quiet_step|]. intros _. apply ends_once_put.
  - unfold page_numbers_job. apply ends_once_bind; [quiet_step|]. intros writer.
    apply ends_once_done. quiet_step.
  - unfold add_password_job. apply ends_once_bind; [quiet_step|]. intros r.
    apply ends_once_bind; [quiet_step|]. intros writer.
    apply ends_once_bind; [quiet_step|]. intros _.
    apply ends_once_done. quiet_step.
  - unfold remove_password_job. apply ends_once_bind; [quiet_step|]. intros r.
    apply ends_once_bind; [quiet_step|]. intros writer.
    apply ends_once_done. quiet_step.
Qed.

Lemma emitted_app {A} (m : Job A) s evs :
  progress_queue (m s).1 = progress_queue s ++ evs -> emitted m s = evs.
Proof. unfold emitted. intros ->. by rewrite drop_app_length. Qed.

(** An exception inside the [try] block of the save job. *)
Lemma save_job_raise widgets out s e :
  (save_try w widgets out s).2 = Raise e ->
  (save_job w widgets out s).2 = Ok tt /\
  exists pre, Forall plain pre /\
              emitted (save_job w widgets out) s = pre ++ [EvError (exn_str e)].
Proof.
  intros Htry. unfold save_job.
  destruct (ends_once_save_try widgets out s)
    as (evs & Hq & pre & last & -> & Hpre & Hlast).
  assert (Hrun := run_try_except (save_try w widgets out)
                    (fun e => put (EvError (exn_str e))) s).
  destruct (save_try w widgets out s) as [s1 [[]|e1]]; simpl in *; [done|].
  injection Htry as ->. subst last. rewrite Hrun. split; [done|].
  exists pre. split; [done|]. apply emitted_app.
  rewrite Hrun. simpl. by rewrite Hq, app_nil_r, <- app_assoc.
Qed.

(** C8: the failure channel of a job.  Whatever job of the program the
    worker runs, [run] returns without an exception; the queue only
    grows, by plain events followed by at most one "done" or "error";
    and when the job body raises, the events of the body are followed by
    exactly one "error" event carrying the exception's text, and there
    is no "done" event.  The same count holds for the save job when the
    exception is raised inside its own [try] block. *)
Theorem worker_failure_channel (j : job) (s : JobState) :
  let body := job_body w j in
  let run := run_worker w j in
  (run s).2 = Ok tt
  /\ progress_queue (run s).1 = progress_queue s ++ emitted run s
  /\ (count is_error_event (emitted run s)
       + count is_done_event (emitted run s) <= 1)%nat
  /\ (forall e, (body s).2 = Raise e ->
                emitted run s = emitted body s ++ [EvError (exn_str e)] /\
                count is_error_event (emitted run s) = 1%nat /\
                count is_done_event (emitted run s) = 0%nat)
  /\ (forall widgets out e,
         j = JobSave widgets out ->
         (save_try w widgets out s).2 = Raise e ->
         count is_error_event (emitted run s) = 1%nat /\
         count is_done_event (emitted run s) = 0%nat).
Proof.
  intros body run.
  destruct (job_ends_once j s) as (evs & Hq & pre & last & -> & Hpre & Hlast).
  fold body in Hq, Hlast.
  pose proof (emitted_app body s _ Hq) as Hbody.
  destruct (count_plain pre Hpre) as [Hpe Hpd].
  assert (Hrun : run s = match body s with
                         | (s', Raise e) => put (EvError (exn_str e)) s'
                         | (s', Ok a) => (s', Ok a)
                         end).
  { unfold run, run_worker, WorkerThread_run. by rewrite run_try_except. }
  destruct (body s) as [s1 [[]|e]] eqn:Hb; simpl in *.
  - assert (Hem : emitted run s = pre ++ last).
    { apply emitted_app. by rewrite Hrun. }
    rewrite Hem, Hrun. simpl. split; [done|]. split; [done|].
    split; [|split].
    + rewrite !count_app, Hpe, Hpd. destruct last as [|ev [|]]; simpl in *;
        [cbv; lia | pose proof (count_single_le ev); lia | lia].
    + intros e [=].
    + intros widgets out e -> Htry.
      destruct (save_job_raise widgets out s e Htry) as (_ & pre2 & Hpre2 & Hem2).
      subst body. simpl in Hbody. rewrite <- Hbody, Hem2.
      destruct (count_plain pre2 Hpre2) as [Hc1 Hc2].
      rewrite !count_app, Hc1, Hc2. done.
  - subst last. rewrite app_nil_r in Hq, Hbody.
    assert (Hem : emitted run s = pre ++ [EvError (exn_str e)]).
    { apply emitted_app. rewrite Hrun. simpl. by rewrite Hq, <- app_assoc. }
    rewrite Hem, Hrun, Hbody. simpl. rewrite Hq, <- app_assoc.
    rewrite !count_app, Hpe, Hpd.
    split; [done|]. split; [done|]. split; [cbv; lia|]. split.
    + intros e' [= <-]. done.
    + intros widgets out e' _ _. done.
Qed.

End JobsEnd.

Lemma worker_failure_channel_witness :
  (job_body read_only_world (JobMerge ["a.pdf"; "b.pdf"] "out.pdf") empty_state).2
  = Raise (Exn OtherException "Permission denied") /\
  Trace.count is_error_event
    (emitted (run_worker read_only_world (JobMerge ["a.pdf"; "b.pdf"] "out.pdf"))
             empty_state) = 1%nat /\
  Trace.count is_done_event
    (emitted (run_worker read_only_world (JobMerge ["a.pdf"; "b.pdf"] "out.pdf"))
             empty_state) = 0%nat.
Proof.
  split; [vm_compute; reflexivity|].
  destruct (worker_failure_channel read_only_world
              (JobMerge ["a.pdf"; "b.pdf"] "out.pdf") empty_state)
    as (_ & _ & _ & H & _).
  apply (H (Exn OtherException "Permission denied")). vm_compute. reflexivity.
Defined.

(** ** Saving in a world where no library call raises *)

Section SaveFacts.
Import SaveSpec.
Variable w : World.
Hypothesis Hquiet : quiet_world w.

(** Runs the straight-line part of a job in the quiet world. *)
Ltac job_run :=
  repeat first [ rewrite run_bind | rewrite run_ret | rewrite run_put
               | progress cbv beta iota ].

Lemma ext_quiet c s : ext w c s = (s, Ok tt).
Proof. unfold ext. by rewrite Hquiet. Qed.

Lemma read_pdf_quiet path :
  read_pdf w path = Ok (imap (fun i r => mkPage path i r 0) (pdf_pages w path)).
Proof. unfold read_pdf. by rewrite Hquiet. Qed.

Lemma applied_snoc done c o :
  applied (done ++ [c]) o
  = applied done o + (if decide (card_origin c = o) then save_angle c else 0).
Proof. induction done as [|d done IH]; simpl; [lia|]. rewrite IH. lia. Qed.

Lemma applied_fresh done src i :
  (forall c, c ∈ done -> source_path c <> src) -> applied done (src, i) = 0.
Proof.
  induction done as [|d done IH]; intros H; simpl; [done|].
  rewrite IH by (intros c Hc; apply H; by right).
  rewrite decide_False; [done|]. intros [= Hs _]. by apply (H d); [left|].
Qed.

Lemma readers_inv_empty : readers_inv w [] ∅.
Proof. split; [by intros c ?%elem_of_nil | by intros src pages ?]. Qed.

(** Opening the source of the next card keeps the invariant. *)
Lemma readers_inv_open done readers src :
  readers_inv w done readers -> readers !! src = None ->
  readers_inv w done
    (<[src := imap (fun i r => mkPage src i r 0) (pdf_pages w src)]> readers).
Proof.
  intros [H1 H2] Hnone. split.
  - intros c Hc. destruct (decide (src = source_path c)) as [->|Hne].
    + rewrite lookup_insert_eq. eauto.
    + rewrite lookup_insert_ne by done. auto.
  - intros src' pages. destruct (decide (src = src')) as [<-|Hne].
    + rewrite lookup_insert_eq. intros [= <-]. apply imap_ext.
      intros i r0 _. rewrite applied_fresh; [by rewrite Z.add_0_r|].
      intros c Hc Heq. destruct (H1 c Hc) as [? Hs]. rewrite Heq in Hs. congruence.
    + rewrite lookup_insert_ne by done. auto.
Qed.

(** Saving a card whose page exists. *)
Lemma readers_inv_rotate done readers c pages r0 :
  readers_inv w done readers ->
  readers !! source_path c = Some pages ->
  pdf_pages w (source_path c) !! orig_index c = Some r0 ->
  readers_inv w (done ++ [c])
    (<[source_path c :=
         <[orig_index c :=
             mkPage (source_path c) (orig_index c)
                    (r0 + applied done (card_origin c) + save_angle c) 0]> pages]>
       readers).
Proof.
  intros [H1 H2] Hr Hp. split.
  - intros d [Hd| ->%list_elem_of_singleton]%elem_of_app.
    + destruct (decide (source_path c = source_path d)) as [->|Hne].
      * rewrite lookup_insert_eq. eauto.
      * rewrite lookup_insert_ne by done. auto.
    + rewrite lookup_insert_eq. eauto.
  - intros src pages'. destruct (decide (source_path c = src)) as [<-|Hne].
    + rewrite lookup_insert_eq. intros [= <-]. rewrite (H2 _ _ Hr).
      apply list_eq. intros i. rewrite list_lookup_imap.
      destruct (decide (i = orig_index c)) as [->|Hi].
      * rewrite list_lookup_insert_eq.
        2:{ rewrite length_imap. by eapply lookup_lt_Some. }
        rewrite Hp. simpl. rewrite applied_snoc.
        unfold card_origin. rewrite decide_True by done. do 2 f_equal. lia.
      * rewrite list_lookup_insert_ne by done. rewrite list_lookup_imap.
        destruct (pdf_pages w (source_path c) !! i); simpl; [|done].
        rewrite applied_snoc, decide_False; [by rewrite Z.add_0_r|].
        unfold card_origin. congruence.
    + rewrite lookup_insert_ne by done. intros Hs. rewrite (H2 _ _ Hs).
      apply imap_ext. intros i r _. rewrite applied_snoc, decide_False;
        [by rewrite Z.add_0_r|]. unfold card_origin. congruence.
Qed.

(** Passing a card without touching any page: its angle is 0, or its
    page is gone. *)
Lemma readers_inv_skip done readers c :
  readers_inv w done readers ->
  is_Some (readers !! source_path c) ->
  save_angle c = 0 \/ pdf_pages w (source_path c) !! orig_index c = None ->
  readers_inv w (done ++ [c]) readers.
Proof.
  intros [H1 H2] Hs Hc. split.
  - intros d [Hd| ->%list_elem_of_singleton]%elem_of_app; auto.
  - intros src pages Hr. rewrite (H2 _ _ Hr). apply imap_ext.
    intros i r Hi. rewrite applied_snoc. case_decide as Ho; [|by rewrite Z.add_0_r].
    destruct Hc as [->|Hnone]; [by rewrite Z.add_0_r|].
    unfold card_origin in Ho. injection Ho as <- <-. congruence.
Qed.

(** The loop of the save job: it returns, with the pages of
    [save_output] added to the writer, and writes no file. *)
Lemma save_loop_quiet_world total widgets :
  forall i readers writer done s,
    readers_inv w done readers ->
    exists s',
      save_loop w total i widgets readers writer s
      = (s', Ok (writer ++ save_output w done widgets)) /\
      same_files s' s.
Proof.
  induction widgets as [|c rest IH]; intros i readers writer done s Hinv.
  - exists s. simpl. by rewrite app_nil_r.
  - simpl save_loop. rewrite run_bind.
    set (src := source_path c). set (idx := orig_index c).
    assert (exists readers1 pages,
               (match readers !! src with
                | Some reader => mret (reader, readers)
                | None => reader ← open_reader w src ;
                          mret (reader, <[src := reader]> readers)
                end) s = (s, Ok (pages, readers1))
               /\ readers_inv w done readers1
               /\ readers1 !! src = Some pages) as (readers1 & pages & -> & Hinv1 & Hr1).
    { destruct (readers !! src) as [reader|] eqn:Hr.
      - by exists readers, reader.
      - eexists _, _. split; [|split].
        + rewrite run_bind. unfold open_reader. rewrite read_pdf_quiet. reflexivity.
        + by apply readers_inv_open.
        + by rewrite lookup_insert_eq. }
    pose proof (proj2 Hinv1 _ _ Hr1) as Hpages.
    assert (Hlen : length pages = length (pdf_pages w src))
      by (by rewrite Hpages, length_imap).
    rewrite run_bind. simpl save_output. fold src idx.
    destruct (pdf_pages w src !! idx) as [r0|] eqn:Hp.
    + pose proof (lookup_lt_Some _ _ _ Hp) as Hlt.
      rewrite bool_decide_eq_true_2 by lia.
      assert (Hpg : pages !! idx = Some (mkPage src idx (r0 + applied done (src, idx)) 0)).
      { rewrite Hpages, list_lookup_imap, Hp. done. }
      rewrite Hpg. rewrite run_bind. simpl page_src. simpl page_idx.
      simpl page_rotate. simpl page_overlays.
      fold (save_angle c).
      destruct (decide (save_angle c = 0)) as [Hz|Hnz].
      * rewrite bool_decide_eq_false_2 by tauto.
        rewrite run_ret, run_bind, ext_quiet. job_run.
        edestruct (IH (S i) readers1
                      (writer ++ [mkPage src idx (r0 + applied done (src, idx)) 0])
                      (done ++ [c])) as (s' & -> & Hd).
        { apply readers_inv_skip; [done | by exists pages | by left]. }
        exists s'. split; [|exact Hd].
        rewrite applied_snoc. unfold card_origin. fold src idx.
        rewrite decide_True by done. rewrite Hz, Z.add_0_r.
        by rewrite <- app_assoc.
      * rewrite bool_decide_eq_true_2 by done.
        rewrite run_bind, ext_quiet. job_run. rewrite ext_quiet. job_run.
        edestruct (IH (S i)
                      (<[src := <[idx := mkPage src idx
                                           (r0 + applied done (src, idx) + save_angle c) 0]>
                                  pages]> readers1)
                      (writer ++ [mkPage src idx (r0 + applied done (src, idx) + save_angle c) 0])
                      (done ++ [c])) as (s' & -> & Hd).
        { by apply readers_inv_rotate. }
        exists s'. split; [|exact Hd].
        rewrite applied_snoc. unfold card_origin. fold src idx.
        rewrite decide_True by done. rewrite Z.add_assoc.
        by rewrite <- app_assoc.
    + pose proof (lookup_ge_None_1 _ _ Hp) as Hge.
      rewrite bool_decide_eq_false_2 by lia.
      job_run.
      edestruct (IH (S i) readers1 writer (done ++ [c])) as (s' & -> & Hd).
      { apply readers_inv_skip; [done | by exists pages | by right]. }
      exists s'. split; [|exact Hd]. done.
Qed.

End SaveFacts.

Section SaveJobFacts.
Import SaveSpec Trace.
Variable w : World.
Hypothesis Hquiet : quiet_world w.

(** The save job in the quiet world: one file is written, and the last
    event is the ["done"] event. *)
Lemma save_job_quiet_world widgets out s :
  (run_worker w (JobSave widgets out) s).2 = Ok tt /\
  disk (run_worker w (JobSave widgets out) s).1
  = disk s ++ [(out, save_output w [] widgets)] /\
  after_calls (run_worker w (JobSave widgets out) s).1 = after_calls s /\
  exists pre,
    Forall plain pre /\
    emitted (run_worker w (JobSave widgets out)) s
    = pre ++ [EvDone ("Saved organized PDF to: " +:+ out)].
Proof.
  destruct (save_loop_quiet_world w Hquiet (length widgets) widgets 0 ∅ [] [] s
              (readers_inv_empty w)) as (s1 & Hs1 & Hd1 & Ha1).
  destruct (quiet_save_loop w (length widgets) widgets 0 ∅ [] s)
    as (evs & Hq & Hpl).
  rewrite Hs1 in Hq. simpl in Hq, Hs1.
  set (msg := ("Saved organized PDF to: " +:+ out)%string).
  assert (Hrun : run_worker w (JobSave widgets out) s
                 = (mkJobState (progress_queue s1 ++ [EvStatus msg] ++ [EvDone msg])
                               (disk s1 ++ [(out, save_output w [] widgets)])
                               (after_calls s1) (stdout s1), Ok tt)).
  { unfold run_worker, WorkerThread_run. simpl job_body. unfold save_job.
    rewrite !run_try_except. unfold save_try. rewrite run_bind, Hs1.
    cbv beta iota. rewrite run_bind. unfold write_pdf.
    rewrite run_bind, (ext_quiet w Hquiet). cbv beta iota.
    unfold write_file. cbv beta iota. rewrite run_bind, run_put.
    cbv beta iota. rewrite run_put. simpl. by rewrite <- app_assoc. }
  unfold emitted. rewrite Hrun. simpl. rewrite Hd1.
  split; [done|]. split; [done|]. split; [done|].
  exists (evs ++ [EvStatus msg]). split.
  - apply Forall_app. split; [done|]. by repeat constructor.
  - rewrite Hq, <- !app_assoc. by rewrite drop_app_length.
Qed.

Lemma valid_card_lookup c :
  valid_card w c = true <->
  is_Some (pdf_pages w (source_path c) !! orig_index c).
Proof.
  unfold valid_card. by rewrite bool_decide_eq_true, lookup_lt_is_Some.
Qed.

Lemma save_output_origins prev widgets :
  origin <$> save_output w prev widgets
  = card_origin <$> filter (fun c => valid_card w c = true) widgets.
Proof.
  revert prev. induction widgets as [|c rest IH]; intros prev; [done|].
  simpl save_output. rewrite fmap_app, IH, filter_cons.
  pose proof (valid_card_lookup c) as Hv.
  destruct (pdf_pages w (source_path c) !! orig_index c) as [r0|] eqn:Hp.
  - rewrite decide_True by (apply Hv; eauto). done.
  - rewrite decide_False; [done|]. intros [? ?]%Hv. done.
Qed.

Lemma filter_all_valid widgets :
  Forall (fun c => valid_card w c = true) widgets ->
  filter (fun c => valid_card w c = true) widgets = widgets.
Proof.
  induction 1 as [|c rest Hc _ IH]; [done|].
  by rewrite filter_cons, decide_True, IH.
Qed.


(** *** The render worker in the quiet world *)

Lemma render_loop_quiet_world path total n :
  forall i page_data s,
  exists s',
    render_loop w path total i n page_data s
    = (s', Ok (page_data ++ ((fun i => mkPageData i path 0) <$> seq i n))) /\
    disk s' = disk s /\ after_calls s' = after_calls s.
Proof.
  induction n as [|n IH]; intros i page_data s.
  - exists s. simpl. by rewrite app_nil_r.
  - simpl render_loop. rewrite run_bind, (ext_quiet w Hquiet). cbv beta iota.
    rewrite run_bind, run_put. cbv beta iota.
    rewrite run_bind, run_put. cbv beta iota.
    edestruct (IH (S i) (page_data ++ [mkPageData i path 0])) as (s' & -> & Hd & Ha).
    exists s'. simpl. by rewrite <- app_assoc.
Qed.

Lemma render_worker_quiet_world path insert_idx s :
  exists s',
    run_worker w (JobRender path insert_idx) s = (s', Ok tt) /\
    disk s' = disk s /\
    after_calls s' = after_calls s ++ [(page_data_of path (fitz_len w path), insert_idx)].
Proof.
  unfold run_worker, WorkerThread_run. simpl job_body. unfold _render_worker.
  rewrite !run_try_except, run_bind, (ext_quiet w Hquiet). cbv beta iota.
  rewrite run_bind.
  destruct (render_loop_quiet_world path (fitz_len w path) (fitz_len w path) 0 [] s)
    as (s1 & -> & Hd & Ha).
  cbv beta iota. rewrite run_bind, (ext_quiet w Hquiet). cbv beta iota.
  rewrite run_bind, (ext_quiet w Hquiet). cbv beta iota.
  eexists. split; [reflexivity|]. simpl. by rewrite Hd, Ha.
Qed.

End SaveJobFacts.

(** ** The organizer from end to end *)

Section Organizer.
Import SaveSpec Trace.
Variable w : World.
Hypothesis Hquiet : quiet_world w.

(** A render worker started by a handler: its page data reach
    [_append_to_grid]. *)
Lemma run_render_effect path insert_idx st js :
  after_calls js = [] ->
  exists js',
    run_effects [RunWorker (_render_worker w path insert_idx)] (st, js)
    = ((_append_to_grid (page_data_of path (fitz_len w path)) insert_idx st).1, js')
    /\ same_files js' js.
Proof.
  intros Ha. simpl run_effects.
  destruct (render_worker_quiet_world w Hquiet path insert_idx js)
    as (s' & Hrun & Hd & Hc).
  change (run_worker w (JobRender path insert_idx) js)
    with (WorkerThread_run true (_render_worker w path insert_idx) js) in Hrun.
  rewrite Hrun. simpl. rewrite Hc, Ha. simpl.
  destruct (_append_to_grid _ insert_idx st) as [st' evs]. simpl.
  eexists. split; [reflexivity|]. by split.
Qed.

(** The save job started by the save button. *)
Lemma run_save_effect widgets out st js :
  after_calls js = [] ->
  exists js',
    run_effects [RunWorker (save_job w widgets out)] (st, js) = (st, js')
    /\ disk js' = disk js ++ [(out, save_output w [] widgets)]
    /\ after_calls js' = [].
Proof.
  intros Ha. simpl run_effects.
  destruct (save_job_quiet_world w Hquiet widgets out js) as (_ & Hd & Hc & _).
  change (run_worker w (JobSave widgets out) js)
    with (WorkerThread_run true (save_job w widgets out) js) in Hd, Hc.
  rewrite Hc, Ha. simpl. eexists. split; [reflexivity|]. by split.
Qed.

Lemma do_load p app :
  p <> EmptyString -> after_calls app.2 = [] ->
  exists js',
    do_action w (Load p) app
    = ((_append_to_grid (page_data_of p (fitz_len w p)) None
          (set_grid [] (set_page_widgets [] (set_selected_card None app.1)))).1, js')
    /\ same_files js' app.2.
Proof.
  intros Hp Ha. unfold do_action, load_pdf_clear.
  destruct p; [done|]. simpl PyStr.is_empty. cbv iota.
  by apply run_render_effect.
Qed.

Lemma do_append p app :
  p <> EmptyString -> after_calls app.2 = [] ->
  exists js',
    do_action w (Append p) app
    = ((_append_to_grid (page_data_of p (fitz_len w p)) None app.1).1, js')
    /\ same_files js' app.2.
Proof.
  intros Hp Ha. unfold do_action, add_pdf_append.
  destruct p; [done|]. simpl PyStr.is_empty. cbv iota.
  by apply run_render_effect.
Qed.

Lemma do_save out app :
  out <> EmptyString -> page_widgets app.1 <> [] -> after_calls app.2 = [] ->
  exists js',
    do_action w (Save out) app = (app.1, js')
    /\ disk js' = disk app.2
                  ++ [(out, save_output w [] (card_of app.1 <$> page_widgets app.1))].
Proof.
  intros Hout Hw Ha. unfold do_action, save_pdf.
  rewrite bool_decide_eq_false_2 by done.
  destruct out; [done|]. simpl PyStr.is_empty. cbv iota.
  destruct app as [st js].
  destruct (run_save_effect (card_of st <$> page_widgets st) (String a out) st js Ha)
    as (js' & Hr & Hd & _).
  by exists js'.
Qed.

Lemma do_delete position app card :
  page_widgets app.1 !! position = Some card ->
  do_action w (Delete position) app = (remove_page_card card app.1, app.2).
Proof. unfold do_action. by intros ->. Qed.

(** C1: the organizer from end to end.  With libraries that do not
    fail, opening a source of three pages, appending a source of two
    pages, deleting the first card and saving writes one file whose
    pages are, in this order, pages 2 and 3 of the first source and
    pages 1 and 2 of the second.  In general the save job writes the
    pages of the working list in list order: the origins of the written
    pages are the origins of the cards whose page exists, in the order
    of the list, and all of them when every page exists. *)
Theorem organizer_end_to_end :
  (forall src1 src2 out,
      src1 <> EmptyString -> src2 <> EmptyString -> out <> EmptyString ->
      fitz_len w src1 = 3%nat -> fitz_len w src2 = 2%nat ->
      length (pdf_pages w src1) = 3%nat -> length (pdf_pages w src2) = 2%nat ->
      exists pages,
        disk (do_actions w [Load src1; Append src2; Delete 0; Save out] App_init).2
        = [(out, pages)] /\
        origin <$> pages = [(src1, 1%nat); (src1, 2%nat); (src2, 0%nat); (src2, 1%nat)])
  /\ (forall widgets out s,
         exists pages,
           disk (run_worker w (JobSave widgets out) s).1 = disk s ++ [(out, pages)] /\
           origin <$> pages
           = card_origin <$> filter (fun c => valid_card w c = true) widgets /\
           (Forall (fun c => valid_card w c = true) widgets ->
            origin <$> pages = card_origin <$> widgets)).
Proof.
  split.
  - intros src1 src2 out Hs1 Hs2 Hout Hf1 Hf2 Hp1 Hp2.
    change (do_actions w [Load src1; Append src2; Delete 0; Save out] App_init)
      with (do_action w (Save out)
              (do_action w (Delete 0)
                 (do_action w (Append src2) (do_action w (Load src1) App_init)))).
    destruct (do_load src1 App_init Hs1 eq_refl) as (js1 & -> & Hd1 & Ha1).
    rewrite Hf1.
    edestruct (do_append src2) as (js2 & -> & Hd2 & Ha2);
      [done | simpl; by rewrite Ha1 |].
    rewrite Hf2. cbn [fst snd] in Hd1, Ha1, Hd2, Ha2.
    match goal with
    | |- context [do_action w (Delete 0) (?st, js2)] => set (st2 := st)
    end.
    rewrite (do_delete 0 (st2, js2) 0%nat) by (vm_compute; reflexivity).
    change (st2, js2).1 with st2. change (st2, js2).2 with js2.
    set (st3 := remove_page_card 0 st2).
    assert (Hst3 : card_of st3 <$> page_widgets st3
                   = [mkPageCard 1 src1 0; mkPageCard 2 src1 0;
                      mkPageCard 0 src2 0; mkPageCard 1 src2 0])
      by (vm_compute; reflexivity).
    assert (Hw3 : page_widgets st3 = [1; 2; 3; 4]%nat)
      by (vm_compute; reflexivity).
    destruct (do_save out (st3, js2)) as (js3 & Heq & Hd3).
    { exact Hout. }
    { change (page_widgets st3 <> []). rewrite Hw3. discriminate. }
    { change (after_calls js2 = []). rewrite Ha2, Ha1. reflexivity. }
    rewrite Heq.
    change (disk js3
            = disk js2
              ++ [(out, save_output w [] (card_of st3 <$> page_widgets st3))])
      in Hd3.
    rewrite Hst3, Hd2, Hd1 in Hd3.
    change (disk empty_state) with (@nil (string * list Page)) in Hd3.
    rewrite app_nil_l in Hd3. cbn [fst snd]. rewrite Hd3.
    eexists. split; [reflexivity|].
    rewrite save_output_origins, filter_all_valid; [reflexivity|].
    repeat constructor; unfold valid_card; cbn [source_path orig_index];
      rewrite ?Hp1, ?Hp2; apply bool_decide_eq_true_2; lia.
  - intros widgets out s.
    destruct (save_job_quiet_world w Hquiet widgets out s) as (_ & Hd & _).
    exists (save_output w [] widgets). split; [done|].
    split; [apply save_output_origins|].
    intros Hall. by rewrite save_output_origins, filter_all_valid.
Qed.

End Organizer.

Lemma example_world_quiet : SaveSpec.quiet_world example_world.
Proof. intros c. reflexivity. Qed.

Lemma organizer_end_to_end_witness :
  exists pages,
    disk (do_actions example_world
            [Load "a.pdf"; Append "b.pdf"; Delete 0; Save "out.pdf"] App_init).2
    = [("out.pdf"%string, pages)] /\
    SaveSpec.origin <$> pages
    = [("a.pdf"%string, 1%nat); ("a.pdf"%string, 2%nat);
       ("b.pdf"%string, 0%nat); ("b.pdf"%string, 1%nat)].
Proof.
  apply (proj1 (organizer_end_to_end example_world example_world_quiet));
    (discriminate || reflexivity).
Defined.

Section SavedPages.
Import SaveSpec Trace.

Lemma filter_length_lt {A} (P : A -> Prop) `{!forall x, Decision (P x)} (l : list A) :
  Exists (fun x => ~ P x) l -> (length (filter P l) < length l)%nat.
Proof.
  induction 1 as [x l Hx|x l _ IH].
  - rewrite filter_cons, decide_False by done. simpl.
    pose proof (length_filter P l). lia.
  - rewrite filter_cons. destruct (decide (P x)); simpl; lia.
Qed.

(** C10: pages that are gone are left out silently.  With libraries
    that do not fail, the save job returns, writes one file, and puts
    one "done" event and no "error" event on the queue; the file holds,
    in list order, the pages of the cards whose original index is less
    than the page count of their source as read by the job, and no
    page for any other card, so that it is shorter than the working
    list as soon as one card is of that kind. *)
Theorem save_skips_missing_pages (w : World) (widgets : list PageCard)
        (out : string) (s : JobState) :
  quiet_world w ->
  let run := run_worker w (JobSave widgets out) in
  (run s).2 = Ok tt /\
  exists pages,
    disk (run s).1 = disk s ++ [(out, pages)] /\
    origin <$> pages
    = card_origin <$> filter (fun c => valid_card w c = true) widgets /\
    (forall c, c ∈ widgets -> valid_card w c = false ->
               card_origin c ∉ origin <$> pages) /\
    (length pages <= length widgets)%nat /\
    (Exists (fun c => valid_card w c = false) widgets ->
     (length pages < length widgets)%nat) /\
    count is_done_event (emitted run s) = 1%nat /\
    count is_error_event (emitted run s) = 0%nat.
Proof.
  intros Hquiet run.
  destruct (save_job_quiet_world w Hquiet widgets out s)
    as (Hok & Hd & _ & pre & Hpre & Hem).
  split; [done|]. exists (save_output w [] widgets).
  pose proof (save_output_origins w [] widgets) as Ho.
  assert (Hlen : length (save_output w [] widgets)
                 = length (filter (fun c => valid_card w c = true) widgets)).
  { by rewrite <- (length_fmap origin), Ho, length_fmap. }
  repeat split.
  - done.
  - done.
  - intros c Hc Hinv. rewrite Ho. intros (d & Heq & Hd')%list_elem_of_fmap.
    apply list_elem_of_filter in Hd' as [Hv _].
    unfold valid_card, card_origin in *. injection Heq as Hs Hi.
    rewrite Hs, Hi in Hinv. congruence.
  - rewrite Hlen. apply length_filter.
  - intros Hex. rewrite Hlen. apply filter_length_lt.
    eapply Exists_impl; [exact Hex|]. simpl. intros c Hc. congruence.
  - subst run. rewrite Hem, count_app.
    destruct (count_plain pre Hpre) as [_ ->]. done.
  - subst run. rewrite Hem, count_app.
    destruct (count_plain pre Hpre) as [-> _]. done.
Qed.

Lemma save_skips_missing_pages_witness :
  let widgets := [mkPageCard 0 "a.pdf" 0; mkPageCard 5 "a.pdf" 0;
                  mkPageCard 1 "b.pdf" 0] in
  let run := run_worker example_world (JobSave widgets "out.pdf") in
  (run empty_state).2 = Ok tt /\
  exists pages,
    disk (run empty_state).1 = disk empty_state ++ [("out.pdf"%string, pages)] /\
    origin <$> pages
    = card_origin <$> filter (fun c => valid_card example_world c = true) widgets /\
    (forall c, c ∈ widgets -> valid_card example_world c = false ->
               card_origin c ∉ origin <$> pages) /\
    (length pages <= length widgets)%nat /\
    (Exists (fun c => valid_card example_world c = false) widgets ->
     (length pages < length widgets)%nat) /\
    count is_done_event (emitted run empty_state) = 1%nat /\
    count is_error_event (emitted run empty_state) = 0%nat.
Proof.
  exact (save_skips_missing_pages example_world _ "out.pdf" empty_state
                                  example_world_quiet).
Defined.

(** The page count is what decides: the second card of the example
    shows page 6 of a source of three pages and is not written. *)
Example stale_card_is_dropped :
  disk (run_worker example_world
          (JobSave [mkPageCard 0 "a.pdf" 0; mkPageCard 5 "a.pdf" 0;
                    mkPageCard 1 "b.pdf" 0] "out.pdf") empty_state).1
  = [("out.pdf"%string, [mkPage "a.pdf" 0 0 0; mkPage "b.pdf" 1 90 0])].
Proof. vm_compute. reflexivity. Qed.

(** ** Rotation *)







End SavedPages.

(** ** Strings: stripping, removing blanks and splitting *)

Section StringFacts.
Import PyStr.

Lemma eqb_space_is_space c : Ascii.eqb c " " = true -> is_space c = true.
Proof. intros ->%Ascii.eqb_eq. reflexivity. Qed.

Lemma rstrip_cons c r :
  rstrip (String c r)
  = if is_empty (rstrip r)
    then (if is_space c then EmptyString else String c EmptyString)
    else String c (rstrip r).
Proof. simpl. by destruct (rstrip r). Qed.

Lemma lstrip_remove s : lstrip (remove_char " " s) = remove_char " " (lstrip s).
Proof.
  induction s as [|c r IH]; [done|]. simpl.
  destruct (Ascii.eqb c " ") eqn:Hc.
  - by rewrite (eqb_space_is_space c Hc).
  - simpl. destruct (is_space c); [done|]. simpl. by rewrite Hc.
Qed.

Lemma remove_rstrip_empty s :
  remove_char " " (rstrip s) = EmptyString -> rstrip s = EmptyString.
Proof.
  induction s as [|c r IH]; [done|]. rewrite rstrip_cons.
  destruct (is_empty (rstrip r)) eqn:He.
  - destruct (is_space c) eqn:Hs; [done|]. simpl.
    destruct (Ascii.eqb c " ") eqn:Hc; [|done].
    by rewrite (eqb_space_is_space c Hc) in Hs.
  - simpl. destruct (Ascii.eqb c " "); [|done].
    intros H. apply IH in H. by rewrite H in He.
Qed.

Lemma rstrip_remove s : rstrip (remove_char " " s) = remove_char " " (rstrip s).
Proof.
  induction s as [|c r IH]; [done|]. rewrite rstrip_cons. simpl.
  destruct (Ascii.eqb c " ") eqn:Hc.
  - rewrite IH, (eqb_space_is_space c Hc).
    destruct (is_empty (rstrip r)) eqn:He.
    + apply is_empty_true in He. by rewrite He.
    + simpl. by rewrite Hc.
  - rewrite rstrip_cons, IH.
    destruct (is_empty (rstrip r)) eqn:He.
    + apply is_empty_true in He. rewrite He. simpl.
      destruct (is_space c); [done|]. simpl. by rewrite Hc.
    + simpl. rewrite Hc.
      destruct (is_empty (remove_char " " (rstrip r))) eqn:He'; [|done].
      apply is_empty_true, remove_rstrip_empty in He'. by rewrite He' in He.
Qed.

Lemma lstrip_idem s : lstrip (lstrip s) = lstrip s.
Proof.
  induction s as [|c r IH]; [done|]. simpl.
  destruct (is_space c) eqn:Hs; [done|]. simpl. by rewrite Hs.
Qed.

Lemma lstrip_rstrip s : lstrip (rstrip s) = rstrip (lstrip s).
Proof.
  induction s as [|c r IH]; [done|]. rewrite rstrip_cons.
  cbn [lstrip]. destruct (is_space c) eqn:Hs.
  - rewrite <- IH. destruct (is_empty (rstrip r)) eqn:He.
    + apply is_empty_true in He. by rewrite He.
    + simpl. by rewrite Hs.
  - rewrite rstrip_cons, Hs.
    destruct (is_empty (rstrip r)); simpl; by rewrite Hs.
Qed.

Lemma rstrip_idem s : rstrip (rstrip s) = rstrip s.
Proof.
  induction s as [|c r IH]; [done|]. rewrite rstrip_cons.
  destruct (is_empty (rstrip r)) eqn:He.
  - destruct (is_space c) eqn:Hs; [done|]. simpl. by rewrite Hs.
  - rewrite rstrip_cons, IH, He. done.
Qed.

Lemma strip_idem s : strip (strip s) = strip s.
Proof.
  unfold strip. by rewrite lstrip_rstrip, lstrip_idem, rstrip_idem.
Qed.

(** Removing the blanks and stripping commute. *)
Lemma strip_remove s : strip (remove_char " " s) = remove_char " " (strip s).
Proof. unfold strip. by rewrite lstrip_remove, rstrip_remove. Qed.

Lemma strip_remove_strip s :
  strip (remove_char " " (strip s)) = strip (remove_char " " s).
Proof. by rewrite !strip_remove, strip_idem. Qed.

Lemma strip_remove_empty s :
  is_empty (strip (remove_char " " s)) = is_empty (strip s).
Proof.
  rewrite strip_remove. destruct (is_empty (strip s)) eqn:He.
  - apply is_empty_true in He. by rewrite He.
  - destruct (is_empty (remove_char " " (strip s))) eqn:He'; [|done].
    apply is_empty_true in He'. unfold strip in He'.
    apply remove_rstrip_empty in He'. unfold strip in He. by rewrite He' in He.
Qed.

Lemma split_cons sep c r :
  split sep (String c r)
  = if Ascii.eqb c sep then EmptyString :: split sep r
    else match split sep r with
         | h :: t => String c h :: t
         | [] => [String c EmptyString]
         end.
Proof. reflexivity. Qed.

Lemma split_nonempty sep s : split sep s <> [].
Proof.
  induction s as [|c r IH]; [done|]. rewrite split_cons.
  destruct (Ascii.eqb c sep); [done|]. by destruct (split sep r).
Qed.

Lemma split_remove sep s :
  sep <> " "%char ->
  split sep (remove_char " " s) = remove_char " " <$> split sep s.
Proof.
  intros Hsep. induction s as [|c r IH]; [done|].
  rewrite split_cons. simpl remove_char.
  destruct (Ascii.eqb c " ") eqn:Hc.
  - apply Ascii.eqb_eq in Hc as ->.
    destruct (Ascii.eqb_spec " " sep) as [<-|_]; [done|].
    rewrite IH. pose proof (split_nonempty sep r).
    destruct (split sep r) as [|h t]; [done|]. simpl. done.
  - rewrite split_cons, IH. destruct (Ascii.eqb c sep); [done|].
    pose proof (split_nonempty sep r).
    destruct (split sep r) as [|h t]; [done|]. simpl. by rewrite Hc.
Qed.

Lemma split_pieces sep s : Forall (fun x => contains sep x = false) (split sep s).
Proof.
  induction s as [|c r IH]; [by repeat constructor|]. rewrite split_cons.
  destruct (Ascii.eqb c sep) eqn:Hc; [by constructor|].
  destruct (split sep r) as [|h t]; [by repeat constructor; simpl; rewrite Hc|].
  apply Forall_cons in IH as [Hh Ht]. constructor; [|done]. simpl. by rewrite Hc.
Qed.

Lemma split_no_sep sep s : contains sep s = false -> split sep s = [s].
Proof.
  induction s as [|c r IH]; [done|]. simpl.
  intros [Hc Hr]%orb_false_elim. by rewrite Hc, IH.
Qed.

Lemma contains_remove sep s :
  contains sep s = false -> contains sep (remove_char " " s) = false.
Proof.
  induction s as [|c r IH]; [done|]. simpl.
  intros [Hc Hr]%orb_false_elim. destruct (Ascii.eqb c " "); [auto|].
  simpl. by rewrite Hc, IH.
Qed.

Lemma contains_lstrip sep s :
  contains sep s = false -> contains sep (lstrip s) = false.
Proof.
  induction s as [|c r IH]; [done|]. simpl.
  intros [Hc Hr]%orb_false_elim. destruct (is_space c); [auto|].
  simpl. by rewrite Hc, Hr.
Qed.

Lemma contains_rstrip sep s :
  contains sep s = false -> contains sep (rstrip s) = false.
Proof.
  induction s as [|c r IH]; [done|]. rewrite rstrip_cons. simpl.
  intros [Hc Hr]%orb_false_elim.
  destruct (is_empty (rstrip r)).
  - destruct (is_space c); [done|]. simpl. by rewrite Hc.
  - simpl. by rewrite Hc, IH.
Qed.

Lemma contains_strip sep s :
  contains sep s = false -> contains sep (strip s) = false.
Proof. intros H. by apply contains_rstrip, contains_lstrip. Qed.

End StringFacts.

(** ** The entries of the Split page *)

Section Entries.
Import PyStr RangeParser RangeSpec.

Lemma tokens_entries ent_text :
  tokens ent_text
  = (fun x => strip (remove_char " " x))
      <$> filter (fun t => is_empty (strip t) = false) (split "," (strip ent_text)).
Proof.
  unfold tokens, parts_of. rewrite split_remove by done.
  induction (split "," (strip ent_text)) as [|x l IH]; [done|].
  rewrite fmap_cons, !filter_cons, strip_remove_empty.
  destruct (decide (is_empty (strip x) = false)); cbv beta iota; [|exact IH].
  rewrite !fmap_cons, IH. reflexivity.
Qed.

(** One entry is parsed as the token it gives in the whole text. *)
Lemma parse_entry x total :
  contains "," x = false -> is_empty (strip x) = false ->
  parse_ranges (strip x) total
  = match parse_part total (strip (remove_char " " x)) with
    | Ok r => Ok [r]
    | Raise e => Raise e
    end.
Proof.
  intros Hc He. rewrite parse_ranges_loop. unfold tokens, parts_of.
  rewrite strip_idem, split_no_sep by (by apply contains_remove, contains_strip).
  rewrite filter_cons, strip_remove_strip, strip_remove_empty.
  rewrite decide_True by done.
  rewrite filter_nil, fmap_cons, fmap_nil, strip_remove_strip. cbn [parse_loop].
  by destruct (parse_part total (strip (remove_char " " x))).
Qed.




End Entries.


(** ** The working list of the organizer *)

Section WorkingList.

(** The cards made for new page data are new objects, one per page. *)
Lemma make_cards_spec data : forall st,
  let '(new_cards, st') := make_cards data st in
  new_cards = seq (next_ref st) (length data) /\
  next_ref st' = (next_ref st + length data)%nat /\
  page_widgets st' = page_widgets st /\
  selected_card st' = selected_card st /\
  drag_item st' = drag_item st /\
  (forall ref, (ref < next_ref st)%nat -> cards st' !!! ref = cards st !!! ref) /\
  (forall k d, data !! k = Some d ->
               cards st' !!! (next_ref st + k)%nat
               = mkPageCard (pd_index d) (pd_path d) 0).
Proof.
  induction data as [|d rest IH]; intros st.
  - simpl. repeat split; try done; try lia.
  - simpl. specialize (IH (new_card d st).2). unfold new_card in *. simpl in IH.
    destruct (make_cards rest _) as [new_cards st'].
    destruct IH as (-> & Hn & Hw & Hs & Hd & Hold & Hnew).
    repeat split; try done.
    + lia.
    + intros ref Href. rewrite Hold by lia.
      by rewrite lookup_total_insert_ne by lia.
    + intros [|k] d' Hk; simpl in Hk.
      * injection Hk as <-. rewrite Nat.add_0_r, Hold by lia.
        by rewrite lookup_total_insert_eq.
      * replace (next_ref st + S k)%nat with (S (next_ref st) + k)%nat by lia.
        by apply Hnew.
Qed.

(** Inserting a run of cards from a position on. *)
Lemma insert_cards_spec new_cards : forall (idx i : nat) widgets,
  insert_cards (Z.of_nat idx) (Z.of_nat i) new_cards widgets
  = take (idx + i) widgets ++ new_cards ++ drop (idx + i) widgets.
Proof.
  induction new_cards as [|card rest IH]; intros idx i widgets.
  - simpl. by rewrite take_drop.
  - simpl. replace (Z.of_nat i + 1) with (Z.of_nat (S i)) by lia.
    rewrite IH. unfold PyList.insert.
    destruct (Z.ltb_spec (Z.of_nat idx + Z.of_nat i) 0); [lia|].
    destruct (decide (idx + i <= length widgets)%nat) as [Hle|Hgt].
    + rewrite Z.min_l by lia.
      replace (Z.to_nat (Z.of_nat idx + Z.of_nat i)) with (idx + i)%nat by lia.
      replace (idx + S i)%nat with (S (idx + i)) by lia.
      assert (Hlen : length (take (idx + i) widgets) = (idx + i)%nat)
        by (rewrite length_take; lia).
      rewrite (take_app_ge (take (idx + i) widgets)) by lia.
      rewrite (drop_app_ge (take (idx + i) widgets)) by lia.
      rewrite Hlen. replace (S (idx + i) - (idx + i))%nat with 1%nat by lia.
      simpl. by rewrite take_0, drop_0, <- app_assoc.
    + rewrite Z.min_r by lia. rewrite Nat2Z.id.
      rewrite firstn_all, skipn_all.
      rewrite !take_ge, !drop_ge by (rewrite ?length_app; simpl; lia).
      by rewrite <- !app_assoc.
Qed.

(** X1: where [_append_to_grid] puts the new cards.  One new card
    object is made per page datum, with the datum's index and path and
    the rotation 0; without a position the new cards follow the old
    ones, with a position [idx] they stand together, in the order of the
    data, behind the first [idx] old cards (all of them when [idx] is
    past the end); the old cards keep their data and the grid is laid
    out anew. *)
Theorem append_to_grid_positions (data : list PageData) (insert_idx : option Z)
        (st : OrganizePage) :
  let st' := (_append_to_grid data insert_idx st).1 in
  let new_cards := seq (next_ref st) (length data) in
  card_of st' <$> new_cards
  = (fun d => mkPageCard (pd_index d) (pd_path d) 0) <$> data
  /\ (forall ref, (ref < next_ref st)%nat -> card_of st' ref = card_of st ref)
  /\ (insert_idx = None -> page_widgets st' = page_widgets st ++ new_cards)
  /\ (forall idx : nat,
         insert_idx = Some (Z.of_nat idx) ->
         page_widgets st'
         = take idx (page_widgets st) ++ new_cards ++ drop idx (page_widgets st))
  /\ grid st' = reflow_loop grid_cols 0 0 (page_widgets st').
Proof.
  intros st' new_cards. subst st'. unfold _append_to_grid.
  pose proof (make_cards_spec data st) as Hm.
  destruct (make_cards data st) as [cs st1].
  destruct Hm as (-> & Hn & Hw & Hs & Hd & Hold & Hnew).
  fold new_cards. split; [|split; [|split; [|split]]].
  - apply list_eq. intros k. rewrite !list_lookup_fmap.
    subst new_cards. destruct (data !! k) as [d|] eqn:Hk.
    + rewrite lookup_seq_lt by (by eapply lookup_lt_Some). simpl.
      f_equal. destruct insert_idx; unfold card_of; simpl; by apply Hnew.
    + apply lookup_ge_None_1 in Hk. rewrite lookup_seq_ge by lia. done.
  - intros ref Href. destruct insert_idx; unfold card_of; simpl; by apply Hold.
  - intros ->. simpl. by rewrite Hw.
  - intros idx ->. simpl. rewrite Hw.
    rewrite (insert_cards_spec new_cards idx 0). by rewrite Nat.add_0_r.
  - by destruct insert_idx.
Qed.

Lemma py_insert_perm {A} (i : Z) (x : A) (l : list A) :
  PyList.insert i x l ≡ₚ x :: l.
Proof.
  unfold PyList.insert. rewrite <- Permutation_middle. by rewrite take_drop.
Qed.

Lemma insert_cards_perm new_cards : forall idx i widgets,
  insert_cards idx i new_cards widgets ≡ₚ widgets ++ new_cards.
Proof.
  induction new_cards as [|card rest IH]; intros idx i widgets; simpl.
  - by rewrite app_nil_r.
  - rewrite IH, py_insert_perm. by rewrite <- Permutation_middle.
Qed.

Lemma py_remove_not_in card widgets :
  card ∉ widgets -> PyList.remove card widgets = widgets.
Proof.
  induction widgets as [|c rest IH]; [done|]. simpl.
  intros [Hne Hin]%not_elem_of_cons. rewrite decide_False by done.
  by rewrite IH.
Qed.

Lemma filter_all {A} (P : A -> Prop) `{forall x, Decision (P x)} (l : list A) :
  Forall P l -> filter P l = l.
Proof.
  induction 1 as [|x l Hx _ IH]; [done|].
  by rewrite filter_cons_True, IH.
Qed.

Lemma py_remove_filter card widgets :
  NoDup widgets ->
  PyList.remove card widgets = filter (fun c => c <> card) widgets.
Proof.
  induction widgets as [|c rest IH]; [done|]. simpl.
  intros [Hnotin Hnd]%NoDup_cons. rewrite filter_cons.
  destruct (decide (c = card)) as [->|Hne].
  - rewrite decide_False by (intros H; by apply H).
    symmetry. apply filter_all. apply Forall_forall. by intros d Hd ->.
  - rewrite decide_True by done. by rewrite IH.
Qed.

Lemma py_remove_length card widgets :
  card ∈ widgets -> S (length (PyList.remove card widgets)) = length widgets.
Proof.
  induction widgets as [|c rest IH]; [by intros ?%elem_of_nil|]. simpl.
  intros Hin. destruct (decide (c = card)) as [->|Hne]; [done|].
  apply elem_of_cons in Hin as [->|Hin]; [done|]. simpl. by rewrite IH.
Qed.

Lemma py_remove_sublist card widgets : PyList.remove card widgets `sublist_of` widgets.
Proof.
  induction widgets as [|c rest IH]; [done|]. simpl.
  destruct (decide (c = card)); [by apply sublist_cons | by apply sublist_skip].
Qed.

(** X2: what the delete button does.  [remove_page_card] takes the
    card out of the working list: a card that is not in the list leaves
    the list as it is; from a list of distinct cards exactly this card
    goes, the others keep their order and the list gets one shorter.
    The selection is dropped when it was this card, so that the removed
    card is never selected afterwards; the card objects are untouched
    and the grid is laid out anew. *)
Theorem remove_page_card_spec (card : nat) (st : OrganizePage) :
  let st' := remove_page_card card st in
  (card ∉ page_widgets st -> page_widgets st' = page_widgets st)
  /\ (NoDup (page_widgets st) ->
      page_widgets st' = filter (fun c => c <> card) (page_widgets st) /\
      card ∉ page_widgets st')
  /\ (card ∈ page_widgets st ->
      S (length (page_widgets st')) = length (page_widgets st))
  /\ selected_card st' <> Some card
  /\ (selected_card st <> Some card -> selected_card st' = selected_card st)
  /\ cards st' = cards st
  /\ grid st' = reflow_loop grid_cols 0 0 (page_widgets st').
Proof.
  intros st'. subst st'. unfold remove_page_card.
  set (st1 := if decide (Some card = selected_card st)
              then set_selected_card None st else st).
  assert (Hw1 : page_widgets st1 = page_widgets st)
    by (subst st1; by destruct (decide _)).
  assert (Hpw : page_widgets
                  (if PyList.mem card (page_widgets st1)
                   then set_page_widgets (PyList.remove card (page_widgets st1)) st1
                   else st1)
                = PyList.remove card (page_widgets st)).
  { rewrite Hw1. unfold PyList.mem. case_bool_decide; [done|].
    simpl. rewrite Hw1. by rewrite py_remove_not_in. }
  simpl. rewrite Hpw. split; [|split; [|split; [|split; [|split; [|split]]]]].
  - apply py_remove_not_in.
  - intros Hnd. rewrite py_remove_filter by done. split; [done|].
    intros [Hne _]%list_elem_of_filter. done.
  - apply py_remove_length.
  - subst st1. destruct (decide (Some card = selected_card st)) as [He|Hne];
      destruct (PyList.mem _ _); simpl; congruence.
  - intros Hsel. subst st1. rewrite decide_False by congruence.
    clear. by destruct (PyList.mem card (page_widgets st)).
  - subst st1. clear. destruct (decide (Some card = selected_card st));
      by destruct (PyList.mem card _).
  - done.
Qed.

Lemma drag_move_perm item target widgets :
  match drag_move item target widgets with
  | Ok (Some widgets') => item ∈ widgets /\ (widgets' ≡ₚ widgets)
  | Ok None => item ∈ widgets
  | Raise e => (item ∉ widgets) /\ exn_cls e = ValueError
  end.
Proof.
  unfold drag_move. destruct (PyList.index item widgets) as [cur|] eqn:Hi.
  - pose proof (index_lookup _ _ _ Hi) as Hl.
    assert (item ∈ widgets) by (by eapply list_elem_of_lookup_2).
    destruct (decide (target <> Z.of_nat cur)); [|done].
    split; [done|]. rewrite py_insert_perm. symmetry. by apply delete_Permutation.
  - split; [|done]. intros Hin. destruct (index_elem_of _ _ Hin) as [? ?].
    congruence.
Qed.

(** X3: a drag never loses a page.  While a card of the working list is
    dragged, [on_drag_motion] returns for every pointer position and
    every size Tk reports: the working list is a rearrangement of the one
    before, the card objects, the selection and the dragged card are
    unchanged, and the grid is laid out anew whenever the list has
    changed.  Without a dragged card nothing changes at all.  When the
    dragged card is not in a non-empty working list, the handler raises
    the [ValueError] of [list.index]. *)
Theorem on_drag_motion_rearranges (winfo : nat -> Z * Z) (x y : Z)
        (st : OrganizePage) :
  (drag_item st = None -> on_drag_motion winfo x y st = Ok st)
  /\ (forall item,
         drag_item st = Some item -> item ∈ page_widgets st ->
         exists st',
           on_drag_motion winfo x y st = Ok st' /\
           page_widgets st' ≡ₚ page_widgets st /\
           cards st' = cards st /\ next_ref st' = next_ref st /\
           selected_card st' = selected_card st /\
           drag_item st' = drag_item st /\
           (st' = st \/ grid st' = reflow_loop grid_cols 0 0 (page_widgets st')))
  /\ (forall item,
         drag_item st = Some item -> item ∉ page_widgets st ->
         page_widgets st <> [] ->
         exists e, on_drag_motion winfo x y st = Raise e /\
                   exn_cls e = ValueError).
Proof.
  unfold on_drag_motion. split; [by intros ->|]. split.
  - intros item Hd Hin. rewrite Hd.
    destruct (page_widgets st) as [|first rest] eqn:Hw;
      [by apply elem_of_nil in Hin|].
    rewrite bool_decide_eq_false_2 by done.
    change ((first :: rest) !! 0%nat) with (Some first). cbv beta iota.
    pose proof (drag_move_perm item
                  (drag_target grid_cols (Z.of_nat (length (first :: rest)))
                               (winfo first).1 (winfo first).2 x y)
                  (first :: rest)) as Hm.
    destruct (drag_move _ _ _) as [[widgets'|]|e].
    + destruct Hm as [_ Hp]. eexists. split; [done|]. simpl.
      repeat split; try done. by right.
    + exists st. rewrite Hw. repeat split; try done. by left.
    + by destruct Hm.
  - intros item -> Hnotin Hne. destruct (page_widgets st) as [|first rest] eqn:Hw;
      [done|].
    rewrite bool_decide_eq_false_2 by done.
    change ((first :: rest) !! 0%nat) with (Some first). cbv beta iota.
    pose proof (drag_move_perm item
                  (drag_target grid_cols (Z.of_nat (length (first :: rest)))
                               (winfo first).1 (winfo first).2 x y)
                  (first :: rest)) as Hm.
    destruct (drag_move _ _ _) as [[widgets'|]|e].
    + by destruct Hm.
    + done.
    + exists e. by destruct Hm.
Qed.

Lemma on_drag_motion_rearranges_witness :
  exists st',
    on_drag_motion (fun _ => (150, 200)) 700 0
      (mkOrganizePage ∅ 3 [0; 1; 2]%nat None (Some 0%nat) []) = Ok st' /\
    page_widgets st' ≡ₚ [0; 1; 2]%nat /\
    cards st' = ∅ /\ next_ref st' = 3%nat /\
    selected_card st' = None /\
    drag_item st' = Some 0%nat /\
    (st' = mkOrganizePage ∅ 3 [0; 1; 2]%nat None (Some 0%nat) [] \/
     grid st' = reflow_loop grid_cols 0 0 (page_widgets st')).
Proof.
  apply (proj1 (proj2 (on_drag_motion_rearranges (fun _ => (150, 200)) 700 0
                         (mkOrganizePage ∅ 3 [0; 1; 2]%nat None (Some 0%nat) [])))
           0%nat); [reflexivity | set_solver].
Defined.

Lemma well_formed_append data insert_idx st :
  well_formed st -> well_formed (_append_to_grid data insert_idx st).1.
Proof.
  intros [[Hnd Hlt] _]. unfold _append_to_grid.
  pose proof (make_cards_spec data st) as Hm.
  destruct (make_cards data st) as [new_cards st1].
  destruct Hm as (-> & Hn & Hw & _).
  assert (Hp : forall widgets,
             widgets ≡ₚ page_widgets st ++ seq (next_ref st) (length data) ->
             NoDup widgets /\
             Forall (fun card => (card < next_ref st1)%nat) widgets).
  { intros widgets ->. split.
    - apply NoDup_app. split; [done|]. split; [|apply NoDup_seq].
      intros card Hin Hin'. apply elem_of_seq in Hin'.
      rewrite Forall_forall in Hlt. specialize (Hlt _ Hin). lia.
    - rewrite Hn. apply Forall_app. split.
      + eapply Forall_impl; [exact Hlt|]. simpl. lia.
      + apply Forall_forall. intros card Hin%elem_of_seq. lia. }
  split; [|done]. destruct insert_idx as [idx|]; simpl; apply Hp; rewrite Hw;
    [apply insert_cards_perm | done].
Qed.

Lemma well_formed_remove card st :
  well_formed st -> well_formed (remove_page_card card st).
Proof.
  intros [[Hnd Hlt] _]. unfold remove_page_card.
  set (st1 := if decide (Some card = selected_card st)
              then set_selected_card None st else st).
  assert (Hw1 : page_widgets st1 = page_widgets st)
    by (subst st1; by destruct (decide _)).
  assert (Hn1 : next_ref st1 = next_ref st)
    by (subst st1; by destruct (decide _)).
  split; [|done]. simpl. unfold cards_distinct. unfold PyList.mem.
  case_bool_decide; simpl; rewrite Hw1, Hn1; [|done].
  split.
  - eapply sublist_NoDup; [done | apply py_remove_sublist].
  - apply Forall_forall. intros c Hc. rewrite Forall_forall in Hlt.
    apply Hlt. eapply elem_of_sublist; [exact Hc | apply py_remove_sublist].
Qed.

Lemma well_formed_rotate card st :
  well_formed st -> well_formed (rotate_card card st).
Proof. by intros [[? ?] ?]. Qed.

Lemma well_formed_drag winfo x y st st' :
  well_formed st -> on_drag_motion winfo x y st = Ok st' -> well_formed st'.
Proof.
  intros Hwf. unfold on_drag_motion.
  destruct (drag_item st) as [item|]; [|by intros [= <-]].
  case_bool_decide; [by intros [= <-]|].
  destruct (page_widgets st !! 0%nat) as [first|]; [|done]. cbv beta iota zeta.
  pose proof (drag_move_perm item
                (drag_target grid_cols (Z.of_nat (length (page_widgets st)))
                             (winfo first).1 (winfo first).2 x y)
                (page_widgets st)) as Hm.
  destruct (drag_move _ _ _) as [[widgets'|]|e]; [|by intros [= <-]|done].
  intros [= <-]. destruct Hm as [_ Hp]. destruct Hwf as [[Hnd Hlt] _].
  split; [|done]. split; simpl; by rewrite Hp.
Qed.

Lemma well_formed_callbacks calls : forall app,
  well_formed app.1 -> well_formed (run_callbacks calls app).1.
Proof.
  induction calls as [|[data insert_idx] rest IH]; intros app Hwf; [done|].
  simpl. pose proof (well_formed_append data insert_idx app.1 Hwf) as Ha.
  destruct (_append_to_grid data insert_idx app.1) as [st evs].
  by apply IH.
Qed.

Lemma well_formed_effects effects : forall app,
  well_formed app.1 -> well_formed (run_effects effects app).1.
Proof.
  induction effects as [|effect rest IH]; intros app Hwf; [done|].
  destruct effect; simpl; try by apply IH.
  apply IH. by apply well_formed_callbacks.
Qed.

Lemma well_formed_action w a app :
  well_formed app.1 -> well_formed (do_action w a app).1.
Proof.
  intros Hwf. destruct a as [p|p|position|position|out]; simpl.
  - unfold load_pdf_clear. destruct (PyStr.is_empty p).
    + by destruct app.
    + apply well_formed_effects. simpl. split; [|done].
      split; simpl; [apply NoDup_nil_2 | done].
  - unfold add_pdf_append. destruct (PyStr.is_empty p).
    + by destruct app.
    + by apply well_formed_effects.
  - destruct (page_widgets app.1 !! position); [|done].
    by apply well_formed_remove.
  - destruct (page_widgets app.1 !! position); [|done].
    by apply well_formed_rotate.
  - by apply well_formed_effects.
Qed.

(** X4: the organizer stays well formed.  Whatever the libraries do and
    whatever the user loads, appends, deletes, rotates and saves, the
    working list holds every card object at most once, every card in it
    has been created, and the grid shows exactly the working list; a
    drag on such a state, wherever the pointer is, keeps this too. *)
Theorem organizer_well_formed (w : World) (actions : list action) :
  let st := (do_actions w actions App_init).1 in
  well_formed st /\
  forall card winfo x y st',
    on_drag_motion winfo x y (on_drag_start card st) = Ok st' ->
    well_formed (on_drag_stop st').
Proof.
  assert (Hwf : forall app, well_formed app.1 ->
                            well_formed (do_actions w actions app).1).
  { unfold do_actions. induction actions as [|a rest IH]; intros app H; [done|].
    simpl. apply IH. by apply well_formed_action. }
  specialize (Hwf App_init).
  simpl. split.
  - apply Hwf. split; [|done]. split; simpl; [apply NoDup_nil_2 | done].
  - intros card winfo x y st' Hm.
    assert (well_formed st') as [[? ?] ?]; [|done].
    eapply well_formed_drag; [|exact Hm].
    destruct Hwf as [[? ?] ?]; [|done].
    split; [|done]. split; simpl; [apply NoDup_nil_2 | done].
Qed.

Lemma reflow_loop_fst C widgets : forall row col,
  (reflow_loop C row col widgets).*1 = widgets.
Proof.
  induction widgets as [|card rest IH]; intros row col; [done|].
  simpl. f_equal. destruct (C <=? col + 1); apply IH.
Qed.

(** X5: the layout that [_reflow_grid] stores.  The grid lists the
    cards of the working list in their order, every column is one of the
    five columns 0 to 4 and no row is negative, the cells are filled
    row by row without a gap (the cell of position [i] is followed by
    the next column, or by column 0 of the next row after column 4), and
    no two positions of the list get the same cell. *)
Theorem reflow_grid_layout (st : OrganizePage) :
  let g := grid (_reflow_grid st) in
  g.*1 = page_widgets st
  /\ (forall i card row col, g !! i = Some (card, (row, col)) ->
        0 <= row /\ 0 <= col < 5 /\
        forall card' row' col', g !! S i = Some (card', (row', col')) ->
          (col < 4 /\ row' = row /\ col' = col + 1) \/
          (col = 4 /\ row' = row + 1 /\ col' = 0))
  /\ (forall i j, (i < length g)%nat -> g.*2 !! i = g.*2 !! j -> i = j).
Proof.
  simpl. set (widgets := page_widgets st).
  assert (Hl : forall i card,
             widgets !! i = Some card ->
             reflow_loop grid_cols 0 0 widgets !! i
             = Some (card, (Z.of_nat i / 5, Z.of_nat i `mod` 5))).
  { intros i card Hi.
    rewrite (reflow_loop_lookup grid_cols widgets 0 0 i card) by (done || (unfold grid_cols; lia)).
    unfold grid_cols. do 4 f_equal; lia. }
  assert (Hg : forall i card row col,
             reflow_loop grid_cols 0 0 widgets !! i = Some (card, (row, col)) ->
             row = Z.of_nat i / 5 /\ col = Z.of_nat i `mod` 5).
  { intros i card row col Hi.
    assert (Hw : widgets !! i = Some card).
    { rewrite <- (reflow_loop_fst grid_cols widgets 0 0).
      by rewrite list_lookup_fmap, Hi. }
    rewrite (Hl _ _ Hw) in Hi. by injection Hi as <- <-. }
  split; [apply reflow_loop_fst|]. split.
  - intros i card row col Hi. destruct (Hg _ _ _ _ Hi) as [-> ->].
    split; [apply Z.div_pos; lia|]. split; [apply Z.mod_pos_bound; lia|].
    intros card' row' col' Hi'. destruct (Hg _ _ _ _ Hi') as [-> ->].
    rewrite Nat2Z.inj_succ.
    pose proof (Z.div_mod (Z.of_nat i) 5 ltac:(lia)).
    pose proof (Z.mod_pos_bound (Z.of_nat i) 5 ltac:(lia)).
    pose proof (Z.div_mod (Z.succ (Z.of_nat i)) 5 ltac:(lia)).
    pose proof (Z.mod_pos_bound (Z.succ (Z.of_nat i)) 5 ltac:(lia)).
    lia.
  - intros i j Hi Heq. rewrite !list_lookup_fmap in Heq.
    destruct (lookup_lt_is_Some_2 _ _ Hi) as [[card [row col]] Hci].
    rewrite Hci in Heq. simpl in Heq.
    destruct (reflow_loop grid_cols 0 0 widgets !! j) as [[card' [row' col']]|] eqn:Hcj;
      [|done].
    injection Heq as <- <-.
    destruct (Hg _ _ _ _ Hci) as [Hr Hc]. destruct (Hg _ _ _ _ Hcj) as [Hr' Hc'].
    pose proof (Z.div_mod (Z.of_nat i) 5 ltac:(lia)).
    pose proof (Z.div_mod (Z.of_nat j) 5 ltac:(lia)).
    lia.
Qed.

End WorkingList.

(** ** The files of the jobs *)

Section KeepsFiles.
Import SaveSpec.

Lemma keeps_ret {A} (a : A) : keeps_files (mret a).
Proof. by intros s. Qed.

Lemma keeps_raise {A} (e : exn) : keeps_files (@raise A e).
Proof. by intros s. Qed.

Lemma keeps_ext w c : keeps_files (ext w c).
Proof. by intros s. Qed.

Lemma keeps_open_reader w path : keeps_files (open_reader w path).
Proof. by intros s. Qed.

Lemma keeps_put ev : keeps_files (put ev).
Proof. by intros s. Qed.

Lemma keeps_print line : keeps_files (print line).
Proof. by intros s. Qed.

Lemma keeps_bind {A B} (m : Job A) (k : A -> Job B) :
  keeps_files m -> (forall a, keeps_files (k a)) -> keeps_files (m ≫= k).
Proof.
  intros Hm Hk s. rewrite run_bind. destruct (Hm s) as [Hd Ha].
  destruct (m s) as [s1 [a|e]]; simpl in *; [|done].
  destruct (Hk a s1) as [Hd' Ha']. split; congruence.
Qed.

Lemma keeps_try_except {A} (body : Job A) (handler : exn -> Job A) :
  keeps_files body -> (forall e, keeps_files (handler e)) ->
  keeps_files (try_except body handler).
Proof.
  intros Hm Hk s. rewrite run_try_except. destruct (Hm s) as [Hd Ha].
  destruct (body s) as [s1 [a|e]]; simpl in *; [done|].
  destruct (Hk e s1) as [Hd' Ha']. split; congruence.
Qed.

Lemma keeps_if {A} (b : bool) (m1 m2 : Job A) :
  keeps_files m1 -> keeps_files m2 -> keeps_files (if b then m1 else m2).
Proof. by destruct b. Qed.

End KeepsFiles.

Create HintDb files.
#[export] Hint Resolve keeps_ret keeps_raise keeps_ext keeps_open_reader
  keeps_put keeps_print : files.
#[export] Hint Extern 2 (keeps_files (_ ≫= _)) =>
  apply keeps_bind; [|intros ?] : files.
#[export] Hint Extern 2 (keeps_files (try_except _ _)) =>
  apply keeps_try_except; [|intros ?] : files.
#[export] Hint Extern 2 (keeps_files (if _ then _ else _)) =>
  apply keeps_if : files.
#[export] Hint Extern 3 (keeps_files (match ?x with _ => _ end)) =>
  destruct x : files.

Ltac files_step := simpl; eauto 20 with files.

Section JobFiles.
Import SaveSpec Trace.
Variable w : World.

Lemma keeps_add_pages pages : forall writer, keeps_files (add_pages w pages writer).
Proof. induction pages; intros writer; files_step. Qed.

#[local] Hint Resolve keeps_add_pages : files.

Lemma keeps_render_loop path total n :
  forall i page_data, keeps_files (render_loop w path total i n page_data).
Proof. induction n; intros i page_data; files_step. Qed.

Lemma keeps_save_loop total widgets :
  forall i readers writer, keeps_files (save_loop w total i widgets readers writer).
Proof.
  induction widgets as [|card rest IH]; intros i readers writer; [files_step|].
  simpl. apply keeps_bind; [files_step|]. intros [reader readers1].
  apply keeps_bind; [|intros [readers2 writer2]; files_step].
  case_bool_decide; [|files_step].
  destruct (reader !! orig_index card); [|files_step].
  apply keeps_bind; [|intros [page2 readers2]; files_step].
  case_bool_decide; files_step.
Qed.

Lemma keeps_merge_loop total pdfs :
  forall idx writer, keeps_files (merge_loop w total idx pdfs writer).
Proof. induction pdfs; intros idx writer; files_step. Qed.

Lemma keeps_merge_overlay page : keeps_files (merge_overlay w page).
Proof. unfold merge_overlay. files_step. Qed.

#[local] Hint Resolve keeps_merge_overlay : files.

Lemma keeps_create_watermark_reader path i :
  keeps_files (_create_watermark_reader w path i).
Proof.
  unfold _create_watermark_reader.
  apply keeps_bind; [files_step|]. intros _.
  apply keeps_bind; [|intros []; files_step].
  destruct (mode_text w).
  - apply keeps_bind; [files_step|]. intros _.
    destruct (HexColor.hex_to_rgb_fraction (text_color w)); files_step.
  - destruct (PyStr.is_empty (wm_image w)); files_step.
Qed.

#[local] Hint Resolve keeps_create_watermark_reader : files.

Lemma keeps_watermark_page ranges idx page writer :
  keeps_files (watermark_page w ranges idx page writer).
Proof.
  unfold watermark_page. apply keeps_bind; [files_step|]. intros _.
  apply keeps_bind; [|intros ?; files_step].
  destruct (selected ranges idx); [|files_step].
  apply keeps_bind; [files_step|]. intros []; files_step.
Qed.

#[local] Hint Resolve keeps_watermark_page : files.

Lemma keeps_single_loop ranges total pages :
  forall idx writer, keeps_files (single_loop w ranges total idx pages writer).
Proof. induction pages; intros idx writer; files_step. Qed.

Lemma keeps_folder_pages ranges pages :
  forall i writer, keeps_files (folder_pages w ranges i pages writer).
Proof. induction pages; intros i writer; files_step. Qed.

Lemma keeps_numbers_loop total pages :
  forall i writer, keeps_files (numbers_loop w total i pages writer).
Proof. induction pages; intros i writer; files_step. Qed.

End JobFiles.

Section OneFile.
Import SaveSpec Trace.
Variable w : World.

#[local] Hint Resolve quiet_add_pages : quiet.
#[local] Hint Resolve keeps_add_pages : files.

Lemma plain_status msg : plain (EvStatus msg).
Proof. done. Qed.

(** A body made of code that writes nothing, followed by [finish]. *)
Lemma finish_body {A} (pre : Job A) (k : A -> list Page) out msg s :
  quiet pre -> keeps_files pre ->
  let body := pre ≫= (fun a => finish w out msg (k a)) in
  exists evs, Forall plain evs /\
    ((exists e, (body s).2 = Raise e /\ disk (body s).1 = disk s /\
                progress_queue (body s).1 = progress_queue s ++ evs) \/
     (exists a, (pre s).2 = Ok a /\ (body s).2 = Ok tt /\
                disk (body s).1 = disk s ++ [(out, k a)] /\
                progress_queue (body s).1
                = progress_queue s ++ evs ++ [EvStatus msg; EvDone msg])).
Proof.
  intros Hq Hk body. subst body. rewrite run_bind.
  destruct (Hq s) as (evs & Hqs & Hpl). destruct (Hk s) as [Hd _].
  exists evs. split; [done|].
  destruct (pre s) as [s1 [a|e]]; simpl in *.
  - unfold finish, write_pdf. rewrite !run_bind. unfold ext.
    destruct (raises w (ExtWrite out)) as [e|]; simpl.
    + left. exists e. by rewrite Hd, Hqs.
    + right. exists a. by rewrite Hd, Hqs, <- !app_assoc.
  - left. exists e. by rewrite Hd, Hqs.
Qed.

(** The worker's [except] around such a body. *)
Lemma catch_finish (body : Job unit) out msg s evs pages :
  Forall plain evs ->
  ((exists e, (body s).2 = Raise e /\ disk (body s).1 = disk s /\
              progress_queue (body s).1 = progress_queue s ++ evs) \/
   ((body s).2 = Ok tt /\
    disk (body s).1 = disk s ++ [(out, pages)] /\
    progress_queue (body s).1
    = progress_queue s ++ evs ++ [EvStatus msg; EvDone msg])) ->
  one_file_or_none (try_except body (fun e => put (EvError (exn_str e)))) out s.
Proof.
  intros Hpl [(e & Hr & Hd & Hq)|(Hr & Hd & Hq)].
  - right. exists evs, (exn_str e). unfold emitted. rewrite run_try_except.
    destruct (body s) as [s1 r]. simpl in *. subst r. simpl.
    by rewrite Hq, <- app_assoc, drop_app_length.
  - left. exists pages, (evs ++ [EvStatus msg]), msg. unfold emitted.
    rewrite run_try_except. destruct (body s) as [s1 r]. simpl in *. subst r.
    simpl. rewrite Hq. split; [done|]. split.
    + rewrite drop_app_length. by rewrite <- app_assoc.
    + apply Forall_app. split; [done|]. by constructor.
Qed.

Lemma catch_finish_pre {A} (pre : Job A) (k : A -> list Page) out msg s :
  quiet pre -> keeps_files pre ->
  one_file_or_none
    (try_except (pre ≫= (fun a => finish w out msg (k a)))
                (fun e => put (EvError (exn_str e)))) out s.
Proof.
  intros Hq Hk.
  destruct (finish_body pre k out msg s Hq Hk) as (evs & Hpl & [H|(a & _ & H)]).
  - eapply (catch_finish _ out msg s evs []); [done|]. by left.
  - eapply (catch_finish _ out msg s evs (k a)); [done|]. by right.
Qed.

(** A job that cannot raise is not changed by the worker's [except]. *)
Lemma one_file_no_raise (m : Job unit) handler out s :
  (m s).2 = Ok tt -> one_file_or_none m out s ->
  one_file_or_none (try_except m handler) out s.
Proof.
  intros Hr. unfold one_file_or_none, emitted. rewrite run_try_except.
  destruct (m s) as [s1 r]. simpl in *. by subst r.
Qed.

Lemma try_put_returns (m : Job unit) s :
  (try_except m (fun e => put (EvError (exn_str e))) s).2 = Ok tt.
Proof. rewrite run_try_except. by destruct (m s) as [s1 [[]|e]]. Qed.

Lemma one_file_ext (run run' : Job unit) out s :
  run s = run' s -> one_file_or_none run' out s -> one_file_or_none run out s.
Proof. unfold one_file_or_none, emitted. by intros ->. Qed.

(** X6: one file or none.  Each job that is to write one file (save,
    merge, watermark of one file, page numbers, adding and removing a
    password) ends in one of two ways, whatever the libraries do: it has
    written exactly one file, the one asked for, and its last event is
    ["done"]; or it has written no file and its last event is
    ["error"].  All the events before the last one are progress and
    status events. *)
Theorem job_writes_one_file_or_none (j : job) (out : string) (s : JobState) :
  output_of j = Some out ->
  let run := run_worker w j in
  (exists pages evs msg,
      disk (run s).1 = disk s ++ [(out, pages)] /\
      emitted run s = evs ++ [EvDone msg] /\ Forall plain evs) \/
  (exists evs msg,
      disk (run s).1 = disk s /\
      emitted run s = evs ++ [EvError msg] /\ Forall plain evs).
Proof.
  intros Hout run. change (one_file_or_none run out s). subst run.
  unfold run_worker, WorkerThread_run.
  destruct j; simpl in Hout; try done; injection Hout as ->; simpl job_body.
  - apply one_file_no_raise; [apply try_put_returns|].
    apply (catch_finish_pre _ (fun writer => writer)).
    + apply quiet_save_loop.
    + apply keeps_save_loop.
  - apply (catch_finish_pre _ (fun writer => writer)).
    + apply quiet_merge_loop.
    + apply keeps_merge_loop.
  - unfold apply_to_single_job.
    destruct (watermark_ranges range_text (length r)) as [ranges|e].
    + apply (catch_finish_pre _ (fun writer => writer)).
      * apply quiet_single_loop.
      * apply keeps_single_loop.
    + right. exists [], (exn_str e). unfold emitted. rewrite run_try_except.
      simpl. by rewrite drop_app_length.
  - apply (catch_finish_pre _ (fun writer => writer)).
    + apply quiet_numbers_loop.
    + apply keeps_numbers_loop.
  - eapply one_file_ext;
      [|apply (catch_finish_pre
                 (r ← open_reader w pick_path ;
                  writer ← add_pages w r [] ;
                  ext w (ExtEncrypt out) ;; mret writer)
                 (fun writer => writer) out
                 ("Password(s) added successfully! Output saved to: " +:+ out));
        [quiet_step | files_step]].
    rewrite !run_try_except. unfold add_password_job. rewrite !run_bind.
    destruct (open_reader w pick_path s) as [s1 [r|e]]; [|done].
    rewrite !run_bind. destruct (add_pages w r [] s1) as [s2 [writer|e]]; [|done].
    rewrite !run_bind. by destruct (ext w (ExtEncrypt out) s2) as [s3 [[]|e]].
  - eapply one_file_ext;
      [|apply (catch_finish_pre
                 (r ← open_reader w pick_path ; add_pages w r [])
                 (fun writer => writer) out
                 ("Password removed successfully! Output saved to: " +:+ out));
        [quiet_step | files_step]].
    rewrite !run_try_except. unfold remove_password_job. rewrite !run_bind.
    destruct (open_reader w pick_path s) as [s1 [r|e]]; [|done].
    rewrite !run_bind. by destruct (add_pages w r [] s1) as [s2 [writer|e]].
Qed.

End OneFile.

Lemma job_writes_one_file_or_none_witness :
  let run := run_worker read_only_world (JobMerge ["a.pdf"%string] "out.pdf") in
  (exists pages evs msg,
      disk (run empty_state).1 = disk empty_state ++ [("out.pdf"%string, pages)] /\
      emitted run empty_state = evs ++ [EvDone msg] /\ Forall Trace.plain evs) \/
  (exists evs msg,
      disk (run empty_state).1 = disk empty_state /\
      emitted run empty_state = evs ++ [EvError msg] /\ Forall Trace.plain evs).
Proof.
  apply (job_writes_one_file_or_none read_only_world
           (JobMerge ["a.pdf"%string] "out.pdf") "out.pdf" empty_state).
  reflexivity.
Defined.

Section MergeOutput.
Import SaveSpec Trace.
Variable w : World.

Lemma add_pages_ok pages : forall writer s,
  (forall path i, raises w (ExtAddPage path i) = None) ->
  add_pages w pages writer s = (s, Ok (writer ++ pages)).
Proof.
  induction pages as [|pg rest IH]; intros writer s Hadd; simpl.
  - by rewrite app_nil_r.
  - rewrite run_bind. unfold ext. rewrite Hadd. cbv beta iota.
    rewrite IH by done. by rewrite <- app_assoc.
Qed.

Lemma add_pages_result pages : forall writer s,
  add_pages w pages writer s = (s, Ok (writer ++ pages)) \/
  exists e, add_pages w pages writer s = (s, Raise e).
Proof.
  induction pages as [|pg rest IH]; intros writer s; simpl.
  - left. by rewrite app_nil_r.
  - rewrite run_bind. unfold ext.
    destruct (raises w (ExtAddPage (page_src pg) (page_idx pg))) as [e|];
      cbv beta iota; [right; by exists e|].
    destruct (IH (writer ++ [pg]) s) as [->|[e ->]];
      [left; by rewrite <- app_assoc | right; by exists e].
Qed.

Lemma imap_origins p l : forall n,
  origin <$> imap (fun i r => mkPage p (n + i) r 0) l
  = (fun i => (p, i)) <$> seq n (length l).
Proof.
  induction l as [|r l IHl]; intros n; [done|].
  rewrite imap_cons. cbn [length seq]. rewrite !fmap_cons, <- (IHl (S n)).
  rewrite Nat.add_0_r. f_equal. f_equal. apply imap_ext. intros i x _. simpl.
  f_equal. lia.
Qed.

Lemma source_pages_origins p :
  origin <$> source_pages w p
  = (fun i => (p, i)) <$> seq 0 (length (pdf_pages w p)).
Proof. apply (imap_origins p (pdf_pages w p) 0). Qed.

Lemma merge_step p writer s :
  only_append_fails w ->
  try_except
    (ext w (ExtAppend p) ;;
     mret (writer ++ imap (fun i r => mkPage p i r 0) (pdf_pages w p)))
    (fun _ => r ← open_reader w p ; add_pages w r writer) s
  = (s, Ok (writer ++ source_pages w p)).
Proof.
  intros Hw. rewrite run_try_except, run_bind. unfold ext.
  destruct (raises w (ExtAppend p)) as [e|]; cbv beta iota; [|done].
  rewrite run_bind. unfold open_reader, read_pdf.
  pose proof (Hw (ExtPdfReader p)) as Hr. simpl in Hr. rewrite Hr.
  cbv beta iota. apply add_pages_ok. intros path i. apply (Hw (ExtAddPage path i)).
Qed.

Lemma merge_loop_output total pdfs :
  only_append_fails w ->
  forall idx writer s,
  exists s',
    merge_loop w total idx pdfs writer s
    = (s', Ok (writer ++ concat (source_pages w <$> pdfs))) /\
    same_files s' s.
Proof.
  intros Hw. induction pdfs as [|p rest IH]; intros idx writer s.
  - exists s. simpl. by rewrite app_nil_r.
  - simpl merge_loop. rewrite run_bind, merge_step by done. cbv beta iota.
    rewrite run_bind, run_put. cbv beta iota.
    rewrite run_bind, run_put. cbv beta iota.
    edestruct (IH (S idx) (writer ++ source_pages w p)) as (s' & -> & Hd & Ha).
    exists s'. simpl. rewrite <- app_assoc. split; [done|]. by split.
Qed.

(** X7: what the merge job writes.  When nothing but [writer.append] can
    fail, the merge job writes one file whose pages are the pages of the
    listed sources, source after source in the order of the list and
    page after page as a reader gives them; the fallback that reads a
    source and adds its pages one by one gives the same pages as
    [append].  The job ends with the status and the ["done"] event
    that name the output file. *)
Theorem merge_job_output (pdfs : list string) (out : string) (s : JobState) :
  only_append_fails w ->
  let run := run_worker w (JobMerge pdfs out) in
  let final_message := ("Merge complete! Output saved to: " +:+ out)%string in
  disk (run s).1 = disk s ++ [(out, concat (source_pages w <$> pdfs))]
  /\ (exists evs, Forall plain evs /\
                  emitted run s = evs ++ [EvStatus final_message; EvDone final_message])
  /\ origin <$> concat (source_pages w <$> pdfs)
     = concat ((fun p => (fun i => (p, i)) <$> seq 0 (length (pdf_pages w p))) <$> pdfs).
Proof.
  intros Hw run final_message. subst run.
  unfold run_worker, WorkerThread_run. simpl job_body. unfold merge_job, emitted.
  rewrite run_try_except, run_bind.
  destruct (merge_loop_output (length pdfs) pdfs Hw 1 [] s) as (s1 & Hrun & Hd & _).
  destruct (quiet_merge_loop w (length pdfs) pdfs 1 [] s) as (evs & Hq & Hpl).
  rewrite Hrun in Hq |- *. simpl in Hq. cbv beta iota.
  unfold write_pdf. rewrite !run_bind. unfold ext.
  pose proof (Hw (ExtWrite out)) as Hwr. simpl in Hwr. rewrite Hwr. simpl.
  rewrite Hd, Hq. split; [done|]. split.
  - exists evs. split; [done|]. by rewrite <- !app_assoc, drop_app_length.
  - clear. induction pdfs as [|p rest IH]; [done|].
    rewrite !fmap_cons, !concat_cons, fmap_app, IH. f_equal.
    apply source_pages_origins.
Qed.

End MergeOutput.

Lemma merge_job_output_witness :
  let run := run_worker append_fails_world (JobMerge ["a.pdf"; "b.pdf"]%string "out.pdf") in
  let final_message := ("Merge complete! Output saved to: " +:+ "out.pdf")%string in
  disk (run empty_state).1
  = disk empty_state
    ++ [("out.pdf"%string,
         concat (source_pages append_fails_world <$> ["a.pdf"; "b.pdf"]%string))]
  /\ (exists evs, Forall Trace.plain evs /\
                  emitted run empty_state
                  = evs ++ [EvStatus final_message; EvDone final_message])
  /\ SaveSpec.origin <$> concat (source_pages append_fails_world <$> ["a.pdf"; "b.pdf"]%string)
     = concat ((fun p => (fun i => (p, i))
                           <$> seq 0 (length (pdf_pages append_fails_world p)))
                 <$> ["a.pdf"; "b.pdf"]%string).
Proof.
  apply (merge_job_output append_fails_world ["a.pdf"; "b.pdf"]%string "out.pdf"
           empty_state).
  by intros [].
Defined.

Section SplitFiles.
Import SaveSpec Trace.
Variable w : World.

Lemma split_all_files_length base out_dir pages : forall i,
  length (split_all_files w base out_dir i pages) = length pages.
Proof. induction pages as [|page rest IH]; intros i; simpl; by rewrite ?IH. Qed.

Lemma not_done_in_plain evs msg : Forall plain evs -> EvDone msg ∉ evs.
Proof.
  intros Hpl Hin. rewrite Forall_forall in Hpl.
  by destruct (Hpl _ Hin) as [_ ?].
Qed.

Lemma split_all_loop_step base out_dir total i page rest s :
  split_all_loop w base out_dir total i (page :: rest) s
  = match raises w (ExtAddPage (page_src page) (page_idx page)) with
    | Some e => (s, Raise e)
    | None =>
        let fname := path_join w out_dir (base +:+ "_page_" +:+ str_nat i +:+ ".pdf") in
        match raises w (ExtWrite fname) with
        | Some e => (s, Raise e)
        | None =>
            split_all_loop w base out_dir total (S i) rest
              (mkJobState
                 ((progress_queue s
                   ++ [EvProgress (PctOf (Z.of_nat i) (Z.of_nat total) 100)])
                  ++ [EvStatus ("Writing page " +:+ str_nat i +:+ "/"
                                +:+ str_nat total)])
                 (disk s ++ [(fname, [page])]) (after_calls s) (stdout s))
        end
    end.
Proof.
  simpl split_all_loop. unfold write_pdf, ext, mbind, mret, job_bind, job_ret.
  destruct (raises w (ExtAddPage (page_src page) (page_idx page))); [done|].
  cbv beta iota zeta.
  by destruct (raises w (ExtWrite _)).
Qed.

Lemma split_all_loop_files base out_dir total pages : forall i s,
  exists k evs,
    progress_queue (split_all_loop w base out_dir total i pages s).1
    = progress_queue s ++ evs /\
    Forall plain evs /\
    disk (split_all_loop w base out_dir total i pages s).1
    = disk s ++ take k (split_all_files w base out_dir i pages) /\
    ((split_all_loop w base out_dir total i pages s).2 = Ok tt ->
     k = length pages) /\
    (quiet_world w -> (split_all_loop w base out_dir total i pages s).2 = Ok tt).
Proof.
  induction pages as [|page rest IH]; intros i s.
  - exists 0%nat, []. simpl. by rewrite !app_nil_r.
  - rewrite split_all_loop_step.
    destruct (raises w (ExtAddPage (page_src page) (page_idx page))) as [e|] eqn:Ha.
    { exists 0%nat, []. simpl. rewrite !app_nil_r. repeat split; try done.
      intros Hq. by rewrite Hq in Ha. }
    cbv zeta.
    destruct (raises w (ExtWrite _)) as [e|] eqn:Hw.
    { exists 0%nat, []. simpl. rewrite !app_nil_r. repeat split; try done.
      intros Hq. by rewrite Hq in Hw. }
    match goal with
    | |- context [split_all_loop w base out_dir total (S i) rest ?s2] =>
        set (s2' := s2);
        destruct (IH (S i) s2') as (k & evs & Hq & Hpl & Hd & Hk & Hquiet)
    end.
    exists (S k), ([EvProgress (PctOf (Z.of_nat i) (Z.of_nat total) 100);
                    EvStatus ("Writing page " +:+ str_nat i +:+ "/" +:+ str_nat total)]
                     ++ evs).
    rewrite Hq, Hd. split; [|split; [|split; [|split]]].
    + subst s2'. simpl. by rewrite <- !app_assoc.
    + by repeat constructor.
    + subst s2'. simpl. by rewrite <- !app_assoc.
    + intros Hr. by rewrite Hk.
    + done.
Qed.

Lemma worker_run (body : Job unit) s :
  WorkerThread_run true body s = worker_outcome (body s).
Proof. unfold WorkerThread_run. rewrite run_try_except. by destruct (body s) as [s1 [[]|e]]. Qed.

Lemma split_all_job_run path out_dir s :
  split_all_job w path out_dir s
  = match raises w (ExtPdfReader path) with
    | Some e => (s, Raise e)
    | None =>
        let msg := "Split complete! " +:+ str_nat (length (source_pages w path))
                   +:+ " pages saved to " +:+ out_dir +:+ "." in
        match split_all_loop w (splitext_base w (basename w path)) out_dir
                             (length (source_pages w path)) 1 (source_pages w path) s with
        | (s1, Ok _) =>
            (mkJobState ((progress_queue s1 ++ [EvStatus msg]) ++ [EvDone msg])
                        (disk s1) (after_calls s1) (stdout s1), Ok tt)
        | (s1, Raise e) => (s1, Raise e)
        end
    end.
Proof.
  unfold split_all_job, open_reader, read_pdf, mbind, job_bind.
  destruct (raises w (ExtPdfReader path)); [done|].
  fold (source_pages w path). cbv zeta.
  by destruct (split_all_loop w _ out_dir _ 1 (source_pages w path) s) as [s1 [[]|e]].
Qed.

(** X8: the files of "split all".  The job writes the pages of the
    source one by one, page [i] (counted from 1) alone into the file
    [{base}_page_{i}.pdf] of the chosen folder.  Whatever the libraries
    do, the files written are the first [k] of these files in this
    order; when the job reports ["done"] all of them are written, and
    with libraries that do not fail the job does end with ["done"]. *)
Theorem split_all_job_files (path out_dir : string) (s : JobState) :
  let files := split_all_files w (splitext_base w (basename w path)) out_dir 1
                               (source_pages w path) in
  let run := run_worker w (JobSplitAll path out_dir) in
  length files = length (pdf_pages w path)
  /\ (exists k, disk (run s).1 = disk s ++ take k files)
  /\ (forall msg, EvDone msg ∈ emitted run s -> disk (run s).1 = disk s ++ files)
  /\ (quiet_world w ->
      disk (run s).1 = disk s ++ files /\
      exists evs,
        Forall plain evs /\
        emitted run s
        = evs ++ [EvDone ("Split complete! " +:+ str_nat (length (pdf_pages w path))
                          +:+ " pages saved to " +:+ out_dir +:+ ".")]).
Proof.
  intros files run.
  assert (Hlen : length files = length (pdf_pages w path)).
  { subst files. rewrite split_all_files_length. unfold source_pages.
    by rewrite length_imap. }
  split; [done|].
  assert (Hrun : run s = worker_outcome (split_all_job w path out_dir s))
    by apply worker_run.
  unfold emitted. rewrite Hrun, split_all_job_run. clear Hrun run.
  destruct (raises w (ExtPdfReader path)) as [e|] eqn:Hr.
  { simpl. rewrite drop_app_length. split; [exists 0%nat; by rewrite app_nil_r|].
    split; [by intros msg ?%list_elem_of_singleton|].
    intros Hq. by rewrite Hq in Hr. }
  destruct (split_all_loop_files (splitext_base w (basename w path)) out_dir
              (length (source_pages w path)) (source_pages w path) 1 s)
    as (k & evs & Hq & Hpl & Hd & Hk & Hquiet).
  fold files in Hd.
  destruct (split_all_loop w _ out_dir _ 1 (source_pages w path) s) as [s1 [[]|e]];
    simpl in *.
  - rewrite Hk in Hd by done. rewrite <- (split_all_files_length
      (splitext_base w (basename w path)) out_dir _ 1), firstn_all in Hd.
    fold files in Hd. rewrite Hd, Hq, <- !app_assoc, drop_app_length.
    split; [exists (length files); by rewrite firstn_all|]. split; [done|].
    intros _. split; [done|].
    eexists (evs ++ [EvStatus _]). split.
    + apply Forall_app. split; [done|]. by repeat constructor.
    + rewrite <- app_assoc. unfold source_pages. by rewrite length_imap.
  - rewrite Hd, Hq, <- !app_assoc, drop_app_length.
    split; [by exists k|]. split.
    + intros msg [Hin|Hin%list_elem_of_singleton]%elem_of_app; [|done].
      by apply not_done_in_plain in Hin.
    + intros Hqw. by specialize (Hquiet Hqw).
Qed.

Lemma multi_split_loop_step total idx out_path pages_list rest s :
  multi_split_loop w total idx ((out_path, pages_list) :: rest) s
  = let s1 := mkJobState
                ((progress_queue s
                  ++ [EvProgress (PctOf (Z.of_nat idx) (Z.of_nat total) 100)])
                 ++ [EvStatus ("Writing split file " +:+ str_nat (idx + 1) +:+ "/"
                               +:+ str_nat total +:+ ": " +:+ basename w out_path)])
                (disk s) (after_calls s) (stdout s) in
    match add_pages w pages_list [] s1 with
    | (s2, Raise e) => (s2, Raise e)
    | (s2, Ok writer) =>
        match raises w (ExtMakeDirs out_path) with
        | Some e => (s2, Raise e)
        | None =>
            match raises w (ExtWrite out_path) with
            | Some e => (s2, Raise e)
            | None =>
                multi_split_loop w total (S idx) rest
                  (mkJobState (progress_queue s2) (disk s2 ++ [(out_path, writer)])
                              (after_calls s2) (stdout s2))
            end
        end
    end.
Proof.
  simpl multi_split_loop. unfold write_pdf, ext, mbind, mret, job_bind, job_ret.
  cbv beta iota zeta. unfold put at 1 2. cbv beta iota.
  destruct (add_pages w pages_list [] _) as [s2 [writer|e]]; [|done].
  destruct (raises w (ExtMakeDirs out_path)); [done|].
  by destruct (raises w (ExtWrite out_path)).
Qed.

Lemma multi_split_loop_files total dests : forall idx s,
  exists k evs,
    progress_queue (multi_split_loop w total idx dests s).1
    = progress_queue s ++ evs /\
    Forall plain evs /\
    disk (multi_split_loop w total idx dests s).1 = disk s ++ take k dests /\
    ((multi_split_loop w total idx dests s).2 = Ok tt -> k = length dests) /\
    (quiet_world w -> (multi_split_loop w total idx dests s).2 = Ok tt).
Proof.
  induction dests as [|[out_path pages_list] rest IH]; intros idx s.
  - exists 0%nat, []. simpl. by rewrite !app_nil_r.
  - rewrite multi_split_loop_step. cbv zeta.
    set (ev1 := EvProgress (PctOf (Z.of_nat idx) (Z.of_nat total) 100)).
    set (ev2 := EvStatus ("Writing split file " +:+ str_nat (idx + 1) +:+ "/"
                          +:+ str_nat total +:+ ": " +:+ basename w out_path)).
    assert (Hpl2 : Forall plain [ev1; ev2]) by (by repeat constructor).
    match goal with
    | |- context [add_pages w pages_list [] ?s2] =>
        destruct (add_pages_result w pages_list [] s2) as [Ha|[e Ha]]
    end; rewrite Ha.
    2:{ exists 0%nat, [ev1; ev2]. simpl. rewrite <- !app_assoc, app_nil_r.
        repeat split; try done. intros Hq.
        rewrite (add_pages_ok w pages_list [] _) in Ha; [done|].
        intros; apply Hq. }
    destruct (raises w (ExtMakeDirs out_path)) as [e|] eqn:Hm.
    { exists 0%nat, [ev1; ev2]. simpl. rewrite <- !app_assoc, app_nil_r.
      repeat split; try done. intros Hq. by rewrite Hq in Hm. }
    destruct (raises w (ExtWrite out_path)) as [e|] eqn:Hw.
    { exists 0%nat, [ev1; ev2]. simpl. rewrite <- !app_assoc, app_nil_r.
      repeat split; try done. intros Hq. by rewrite Hq in Hw. }
    match goal with
    | |- context [multi_split_loop w total (S idx) rest ?s2] =>
        set (s2' := s2);
        destruct (IH (S idx) s2') as (k & evs & Hq & Hpl & Hd & Hk & Hquiet)
    end.
    exists (S k), ([ev1; ev2] ++ evs).
    rewrite Hq, Hd. split; [|split; [|split; [|split]]].
    + subst s2'. simpl. by rewrite <- !app_assoc.
    + by repeat constructor.
    + subst s2'. simpl. by rewrite <- !app_assoc.
    + intros Hr. by rewrite Hk.
    + done.
Qed.

(** X9: the files of the extraction job.  [job_multi_split] writes the
    destinations that [extract] has collected, each with its own pages,
    in the order of the list.  Whatever the libraries do, the files
    written are the first [k] destinations; when the job reports
    ["done"] all of them are written, and with libraries that do not
    fail the job does end with ["done"] and the number of files. *)
Theorem multi_split_job_files (save_destinations : list (string * list Page))
        (out_dir : string) (s : JobState) :
  let run := run_worker w (JobMultiSplit save_destinations out_dir) in
  (exists k, disk (run s).1 = disk s ++ take k save_destinations)
  /\ (forall msg, EvDone msg ∈ emitted run s ->
                  disk (run s).1 = disk s ++ save_destinations)
  /\ (quiet_world w ->
      disk (run s).1 = disk s ++ save_destinations /\
      exists evs,
        Forall plain evs /\
        emitted run s
        = evs ++ [EvDone ("Split complete! " +:+ str_nat (length save_destinations)
                          +:+ " files saved to " +:+ out_dir +:+ ".")]).
Proof.
  intros run.
  assert (Hrun : run s = worker_outcome (job_multi_split w save_destinations out_dir s))
    by apply worker_run.
  unfold emitted. rewrite Hrun. clear Hrun run.
  unfold job_multi_split. rewrite run_bind.
  destruct (multi_split_loop_files (length save_destinations) save_destinations 0 s)
    as (k & evs & Hq & Hpl & Hd & Hk & Hquiet).
  destruct (multi_split_loop w _ 0 save_destinations s) as [s1 [[]|e]];
    simpl in *.
  - rewrite Hk, firstn_all in Hd by done.
    rewrite Hd, Hq, <- !app_assoc, drop_app_length.
    split; [exists (length save_destinations); by rewrite firstn_all|].
    split; [done|]. intros _. split; [done|].
    eexists (evs ++ [EvStatus _]). split.
    + apply Forall_app. split; [done|]. by repeat constructor.
    + by rewrite <- app_assoc.
  - rewrite Hd, Hq, <- !app_assoc, drop_app_length.
    split; [by exists k|]. split.
    + intros msg [Hin|Hin%list_elem_of_singleton]%elem_of_app; [|done].
      by apply not_done_in_plain in Hin.
    + intros Hqw. by specialize (Hquiet Hqw).
Qed.

End SplitFiles.

(** ** The overlay jobs *)

Section OnlyPrints.
Variable kind : string -> bool.

Lemma state_eta s :
  s = mkJobState (progress_queue s) (disk s) (after_calls s) (stdout s ++ []).
Proof. destruct s. simpl. by rewrite app_nil_r. Qed.

Lemma only_prints_ret {A} (a : A) : only_prints kind (mret a).
Proof. intros s. exists []. split; [done | apply state_eta]. Qed.

Lemma only_prints_raise {A} (e : exn) : only_prints kind (@raise A e).
Proof. intros s. exists []. split; [done | apply state_eta]. Qed.

Lemma only_prints_ext w c : only_prints kind (ext w c).
Proof. intros s. exists []. split; [done | apply state_eta]. Qed.

Lemma only_prints_open_reader w path : only_prints kind (open_reader w path).
Proof. intros s. exists []. split; [done | apply state_eta]. Qed.

Lemma only_prints_print line : kind line = true -> only_prints kind (print line).
Proof. intros Hline s. exists [line]. split; [by constructor | done]. Qed.

Lemma only_prints_bind {A B} (m : Job A) (k : A -> Job B) :
  only_prints kind m -> (forall a, only_prints kind (k a)) ->
  only_prints kind (m ≫= k).
Proof.
  intros Hm Hk s. rewrite run_bind. destruct (Hm s) as (l1 & Hl1 & Hs1).
  destruct (m s) as [s1 [a|e]]; simpl in Hs1; subst s1; [|by exists l1].
  match goal with
  | |- context [k a ?s1] => destruct (Hk a s1) as (l2 & Hl2 & Hs2)
  end.
  exists (l1 ++ l2). split; [by apply Forall_app|].
  rewrite Hs2. simpl. by rewrite app_assoc.
Qed.

Lemma only_prints_try_except {A} (body : Job A) (handler : exn -> Job A) :
  only_prints kind body -> (forall e, only_prints kind (handler e)) ->
  only_prints kind (try_except body handler).
Proof.
  intros Hm Hk s. rewrite run_try_except. destruct (Hm s) as (l1 & Hl1 & Hs1).
  destruct (body s) as [s1 [a|e]]; simpl in Hs1; subst s1; [by exists l1|].
  match goal with
  | |- context [handler e ?s1] => destruct (Hk e s1) as (l2 & Hl2 & Hs2)
  end.
  exists (l1 ++ l2). split; [by apply Forall_app|].
  rewrite Hs2. simpl. by rewrite app_assoc.
Qed.

Lemma only_prints_if {A} (b : bool) (m1 m2 : Job A) :
  only_prints kind m1 -> only_prints kind m2 ->
  only_prints kind (if b then m1 else m2).
Proof. by destruct b. Qed.

End OnlyPrints.

Create HintDb prints.
#[export] Hint Resolve only_prints_ret only_prints_raise only_prints_ext
  only_prints_open_reader : prints.
#[export] Hint Extern 2 (only_prints _ (_ ≫= _)) =>
  apply only_prints_bind; [|intros ?] : prints.
#[export] Hint Extern 2 (only_prints _ (try_except _ _)) =>
  apply only_prints_try_except; [|intros ?] : prints.
#[export] Hint Extern 2 (only_prints _ (if _ then _ else _)) =>
  apply only_prints_if : prints.

Ltac prints_step := simpl; eauto 20 with prints.

(** The two kinds of printed lines are told apart by their first
    character. *)
Lemma image_line_not_file_line line :
  image_error_line line = true -> file_error_line line = false.
Proof.
  unfold image_error_line, file_error_line. destruct line as [|c line]; [done|].
  cbn [starts_with]. destruct (Ascii.eqb_spec "I" c) as [<-|]; [done|].
  by rewrite andb_false_l.
Qed.

Lemma starts_with_append (s t : string) : starts_with s (s +:+ t) = true.
Proof.
  induction s as [|c s IH]; simpl; [done|].
  by rewrite Ascii.eqb_refl.
Qed.

Lemma filter_image_lines lines :
  Forall (fun line => image_error_line line = true) lines ->
  filter file_error_line lines = [].
Proof.
  induction 1 as [|line lines Hline _ IH]; [done|].
  rewrite filter_cons_False; [done|].
  rewrite (image_line_not_file_line _ Hline). by intros [].
Qed.

Section Overlays.
Import SaveSpec Trace.
Variable w : World.

Lemma only_prints_add_pages kind pages :
  forall writer, only_prints kind (add_pages w pages writer).
Proof. induction pages; intros writer; prints_step. Qed.

#[local] Hint Resolve only_prints_add_pages : prints.

Lemma only_prints_merge_overlay kind page : only_prints kind (merge_overlay w page).
Proof. unfold merge_overlay. prints_step. Qed.

#[local] Hint Resolve only_prints_merge_overlay : prints.

Lemma only_prints_create_watermark_reader path i :
  only_prints image_error_line (_create_watermark_reader w path i).
Proof.
  unfold _create_watermark_reader.
  apply only_prints_bind; [prints_step|]. intros _.
  apply only_prints_bind; [|intros []; prints_step].
  destruct (mode_text w).
  - apply only_prints_bind; [prints_step|]. intros _.
    destruct (HexColor.hex_to_rgb_fraction (text_color w)); prints_step.
  - destruct (PyStr.is_empty (wm_image w)); [prints_step|].
    apply only_prints_try_except; [prints_step|]. intros e.
    apply only_prints_bind; [|intros ?; prints_step].
    apply only_prints_print. apply starts_with_append.
Qed.

#[local] Hint Resolve only_prints_create_watermark_reader : prints.

Lemma only_prints_watermark_page ranges idx page writer :
  only_prints image_error_line (watermark_page w ranges idx page writer).
Proof.
  unfold watermark_page. apply only_prints_bind; [prints_step|]. intros _.
  apply only_prints_bind; [|intros ?; prints_step].
  destruct (selected ranges idx); [|prints_step].
  apply only_prints_bind; [prints_step|]. intros []; prints_step.
Qed.

#[local] Hint Resolve only_prints_watermark_page : prints.

Lemma only_prints_folder_pages ranges pages :
  forall i writer,
    only_prints image_error_line (folder_pages w ranges i pages writer).
Proof. induction pages; intros i writer; prints_step. Qed.

Hypothesis Hquiet : quiet_world w.

Lemma merge_overlay_quiet page s :
  merge_overlay w page s = (s, Ok (with_overlay page)).
Proof.
  unfold merge_overlay. rewrite run_bind, run_try_except.
  by rewrite (ext_quiet w Hquiet).
Qed.

Lemma create_watermark_reader_quiet path i s :
  colour_ok w ->
  _create_watermark_reader w path i s = (s, Ok (negb (watermark_none w path i))).
Proof.
  intros Hcolour.
  unfold _create_watermark_reader, watermark_none, colour_ok,
    mbind, mret, job_bind, job_ret, try_except, ext in *.
  rewrite !Hquiet. destruct (mode_text w).
  - by destruct Hcolour as [rgb ->].
  - by destruct (PyStr.is_empty (wm_image w)).
Qed.

Lemma watermark_page_quiet ranges idx page writer s :
  (selected ranges idx = true -> colour_ok w) ->
  watermark_page w ranges idx page writer s
  = (s, Ok (writer ++ [watermarked w ranges idx page])).
Proof.
  intros Hcolour. unfold watermark_page, watermarked.
  rewrite run_bind, (ext_quiet w Hquiet). cbv beta iota. rewrite run_bind.
  destruct (selected ranges idx); simpl andb; cbv iota.
  - rewrite run_bind, create_watermark_reader_quiet by auto. cbv beta iota.
    destruct (watermark_none w (page_src page) (page_idx page)); cbn [negb].
    + rewrite run_ret. apply add_pages_ok. intros; apply Hquiet.
    + rewrite merge_overlay_quiet. apply add_pages_ok. intros; apply Hquiet.
  - rewrite run_ret. apply add_pages_ok. intros; apply Hquiet.
Qed.

(** A text colour that cannot be converted stops the job at the first
    selected page. *)
Lemma watermark_page_colour_raises ranges idx page writer s e :
  mode_text w = true ->
  HexColor.hex_to_rgb_fraction (text_color w) = Raise e ->
  selected ranges idx = true ->
  watermark_page w ranges idx page writer s = (s, Raise e).
Proof.
  intros Hmode Hcolour Hsel.
  unfold watermark_page, _create_watermark_reader,
    mbind, mret, job_bind, job_ret, raise, ext.
  by rewrite !Hquiet, Hsel, Hmode, Hcolour.
Qed.

Lemma single_loop_quiet ranges total pages :
  forall idx,
  (forall i, (i < length pages)%nat -> selected ranges (idx + i) = true ->
             colour_ok w) ->
  forall writer s,
  exists s',
    single_loop w ranges total idx pages writer s
    = (s', Ok (writer ++ imap (fun i => watermarked w ranges (idx + i)) pages)) /\
    same_files s' s.
Proof.
  induction pages as [|page rest IH]; intros idx Hcolour writer s.
  - exists s. simpl. by rewrite app_nil_r.
  - simpl single_loop. rewrite run_bind, watermark_page_quiet.
    2:{ intros Hsel. apply (Hcolour 0%nat); [simpl; lia|]. by rewrite Nat.add_0_r. }
    cbv beta iota.
    rewrite run_bind, run_put. cbv beta iota.
    rewrite run_bind, run_put. cbv beta iota.
    edestruct (IH (S idx)) with (writer := writer ++ [watermarked w ranges idx page])
      as (s' & -> & Hd & Ha).
    { intros i Hi Hsel. apply (Hcolour (S i)); [simpl; lia|].
      by replace (idx + S i)%nat with (S idx + i)%nat by lia. }
    exists s'. split; [|by split]. do 2 f_equal.
    rewrite imap_cons, Nat.add_0_r, <- app_assoc. cbn [app]. do 2 f_equal.
    apply imap_ext. intros i x _. unfold compose. f_equal. lia.
Qed.

Lemma single_loop_colour_raises ranges total pages e :
  mode_text w = true ->
  HexColor.hex_to_rgb_fraction (text_color w) = Raise e ->
  forall idx writer s,
    (exists i, (i < length pages)%nat /\ selected ranges (idx + i) = true) ->
    (single_loop w ranges total idx pages writer s).2 = Raise e.
Proof.
  intros Hmode Hcolour.
  induction pages as [|page rest IH]; intros idx writer s (i & Hi & Hsel);
    [simpl in Hi; lia|].
  simpl single_loop. rewrite run_bind.
  destruct (selected ranges idx) eqn:Hs.
  - by rewrite (watermark_page_colour_raises _ _ _ _ _ e).
  - rewrite watermark_page_quiet by (intros; congruence). cbv beta iota.
    rewrite run_bind, run_put. cbv beta iota.
    rewrite run_bind, run_put. cbv beta iota.
    apply IH. destruct i as [|i]; [by rewrite Nat.add_0_r, Hs in Hsel|].
    exists i. split; [simpl in Hi; lia|].
    by replace (S idx + i)%nat with (idx + S i)%nat by lia.
Qed.

Lemma numbers_loop_quiet total pages :
  forall i writer s,
  exists s',
    numbers_loop w total i pages writer s
    = (s', Ok (writer ++ (with_overlay <$> pages))) /\
    same_files s' s.
Proof.
  induction pages as [|page rest IH]; intros i writer s.
  - exists s. simpl. by rewrite app_nil_r.
  - simpl numbers_loop.
    rewrite run_bind, (ext_quiet w Hquiet). cbv beta iota.
    rewrite run_bind, (ext_quiet w Hquiet). cbv beta iota.
    rewrite run_bind, merge_overlay_quiet. cbv beta iota.
    rewrite run_bind, run_bind, (ext_quiet w Hquiet). cbv beta iota.
    rewrite run_ret. cbv beta iota.
    rewrite run_bind, run_put. cbv beta iota.
    rewrite run_bind, run_put. cbv beta iota.
    edestruct (IH (S i) (writer ++ [with_overlay page])) as (s' & -> & Hd & Ha).
    exists s'. rewrite <- app_assoc. by split.
Qed.

Lemma finish_quiet out msg writer s :
  finish w out msg writer s
  = (mkJobState ((progress_queue s ++ [EvStatus msg]) ++ [EvDone msg])
                (disk s ++ [(out, writer)]) (after_calls s) (stdout s), Ok tt).
Proof.
  unfold finish, write_pdf. rewrite !run_bind, (ext_quiet w Hquiet). by cbv beta iota.
Qed.

Lemma selected_all (n idx : nat) :
  (idx < n)%nat -> selected [(1, Z.of_nat n)] idx = true.
Proof.
  intros Hlt. unfold selected. simpl. rewrite orb_false_r.
  apply andb_true_iff. split; [apply Z.leb_le | apply Z.ltb_lt]; lia.
Qed.

(** X10: what the watermark job of one file writes.  With libraries
    that do not fail and a range text that is accepted for the
    document, there are two cases.  When no page is selected, or the
    watermark is an image, or it is a text whose colour
    [hex_to_rgb_fraction] converts, the job writes one file with every
    page of the source in its order; a page carries one more overlay
    exactly when its position is selected by the ranges and a watermark
    could be made for it, and is otherwise written as it is; a blank
    range text selects every page.  When a page is selected and the
    watermark is a text whose colour is refused, the job writes no file
    and ends with the "error" event of the refusal. *)
Theorem watermark_single_output (r : list Page) (range_text out : string)
        (ranges : list (Z * Z)) (s : JobState) :
  watermark_ranges range_text (length r) = Ok ranges ->
  let run := run_worker w (JobWatermarkSingle r range_text out) in
  ((some_selected ranges (length r) -> colour_ok w) ->
   disk (run s).1 = disk s ++ [(out, imap (watermarked w ranges) r)]
   /\ length (imap (watermarked w ranges) r) = length r
   /\ (forall idx page,
         r !! idx = Some page ->
         imap (watermarked w ranges) r !! idx
         = Some (if selected ranges idx
                    && negb (watermark_none w (page_src page) (page_idx page))
                 then with_overlay page else page))
   /\ (PyStr.is_empty (PyStr.strip range_text) = true ->
       forall idx, (idx < length r)%nat -> selected ranges idx = true)
   /\ exists evs,
        Forall plain evs /\
        emitted run s
        = evs ++ [EvDone ("Watermark applied successfully! Output saved to: " +:+ out)])
  /\ (forall e,
        some_selected ranges (length r) ->
        mode_text w = true ->
        HexColor.hex_to_rgb_fraction (text_color w) = Raise e ->
        disk (run s).1 = disk s
        /\ exists evs,
             Forall plain evs /\ emitted run s = evs ++ [EvError (exn_str e)]).
Proof.
  intros Hranges run.
  assert (Hrun : run s = worker_outcome (apply_to_single_job w r range_text out s))
    by apply worker_run.
  unfold emitted. rewrite Hrun. clear Hrun run.
  unfold apply_to_single_job. rewrite Hranges, run_bind.
  destruct (quiet_single_loop w ranges (length r) r 0 [] s) as (evs & Hq & Hpl).
  split.
  - intros Hcolour.
    destruct (single_loop_quiet ranges (length r) r 0) with (writer := @nil Page) (s := s)
      as (s1 & Hl & Hd & _).
    { intros i Hi Hsel. apply Hcolour. by exists i. }
    rewrite Hl in Hq |- *. simpl in Hq. cbv beta iota.
    change (write_pdf w out ?x ≫= _) with
      (finish w out ("Watermark applied successfully! Output saved to: " +:+ out) x).
    rewrite finish_quiet. simpl. rewrite Hd, Hq.
    split; [done|]. split; [by rewrite length_imap|]. split; [|split].
    + intros idx page Hidx. rewrite list_lookup_imap, Hidx. done.
    + intros Hblank idx Hidx. unfold watermark_ranges in Hranges.
      rewrite Hblank in Hranges. injection Hranges as <-. by apply selected_all.
    + exists (evs ++ [EvStatus ("Watermark applied successfully! Output saved to: "
                              +:+ out)]).
      split; [apply Forall_app; split; [done|by repeat constructor]|].
      by rewrite <- !app_assoc, drop_app_length.
  - intros e (idx & Hidx & Hsel) Hmode Hcolour.
    pose proof (single_loop_colour_raises ranges (length r) r e Hmode Hcolour 0 [] s)
      as Hraise.
    destruct (keeps_single_loop w ranges (length r) r 0 [] s) as [Hd _].
    destruct (single_loop w ranges (length r) 0 r [] s) as [s1 [writer|e']];
      simpl in Hq, Hd, Hraise.
    { by discriminate Hraise; exists idx. }
    assert (He : e' = e).
    { assert (Raise e' = Raise e :> PyResult (list Page)) as [= ->]; [|done].
      apply Hraise. by exists idx. }
    subst e'. simpl. rewrite Hd, Hq. split; [done|].
    exists evs. split; [done|]. by rewrite <- !app_assoc, drop_app_length.
Qed.

(** X11: the jobs that copy a whole document.  With libraries that do
    not fail, the page-number job writes every page of the source in its
    order, each with exactly one more overlay, and the two password jobs
    write the pages of the source as a reader gives them. *)
Theorem whole_document_jobs (r : list Page) (pick_path out : string) (s : JobState) :
  disk (run_worker w (JobPageNumbers r out) s).1
  = disk s ++ [(out, with_overlay <$> r)]
  /\ disk (run_worker w (JobAddPassword pick_path out) s).1
     = disk s ++ [(out, source_pages w pick_path)]
  /\ disk (run_worker w (JobRemovePassword pick_path out) s).1
     = disk s ++ [(out, source_pages w pick_path)].
Proof.
  split; [|split].
  - unfold run_worker. simpl job_body. rewrite worker_run.
    unfold page_numbers_job. rewrite run_bind.
    destruct (numbers_loop_quiet (length r) r 1 [] s) as (s1 & -> & Hd & _).
    cbv beta iota.
    change (write_pdf w out ?x ≫= _) with
      (finish w out ("Page numbering complete! Output saved to: " +:+ out) x).
    rewrite finish_quiet. simpl. by rewrite Hd.
  - unfold run_worker. simpl job_body. rewrite worker_run.
    unfold add_password_job. rewrite run_bind.
    unfold open_reader at 1. rewrite (read_pdf_quiet w Hquiet). cbv beta iota.
    rewrite run_bind, add_pages_ok by (intros; apply Hquiet). cbv beta iota.
    rewrite run_bind, (ext_quiet w Hquiet). cbv beta iota.
    change (write_pdf w out ?x ≫= _) with
      (finish w out ("Password(s) added successfully! Output saved to: " +:+ out) x).
    by rewrite finish_quiet.
  - unfold run_worker. simpl job_body. rewrite worker_run.
    unfold remove_password_job. rewrite run_bind.
    unfold open_reader at 1. rewrite (read_pdf_quiet w Hquiet). cbv beta iota.
    rewrite run_bind, add_pages_ok by (intros; apply Hquiet). cbv beta iota.
    change (write_pdf w out ?x ≫= _) with
      (finish w out ("Password removed successfully! Output saved to: " +:+ out) x).
    by rewrite finish_quiet.
Qed.

End Overlays.

Lemma watermark_single_output_witness :
  let r := source_pages example_world "a.pdf" in
  let run := run_worker example_world (JobWatermarkSingle r "2-3" "out.pdf") in
  disk (run empty_state).1
  = disk empty_state ++ [("out.pdf"%string, imap (watermarked example_world [(2, 3)]) r)]
  /\ length (imap (watermarked example_world [(2, 3)]) r) = length r
  /\ (forall idx page,
        r !! idx = Some page ->
        imap (watermarked example_world [(2, 3)]) r !! idx
        = Some (if selected [(2, 3)] idx
                   && negb (watermark_none example_world (page_src page) (page_idx page))
                then with_overlay page else page))
  /\ (PyStr.is_empty (PyStr.strip "2-3") = true ->
      forall idx, (idx < length r)%nat -> selected [(2, 3)] idx = true)
  /\ exists evs,
       Forall Trace.plain evs /\
       emitted run empty_state
       = evs ++ [EvDone ("Watermark applied successfully! Output saved to: "
                         +:+ "out.pdf")].
Proof.
  apply (proj1 (watermark_single_output example_world example_world_quiet
                  (source_pages example_world "a.pdf") "2-3" "out.pdf" [(2, 3)]
                  empty_state eq_refl)).
  intros _ _. eexists. vm_compute. reflexivity.
Defined.

Lemma whole_document_jobs_witness :
  let r := source_pages example_world "b.pdf" in
  disk (run_worker example_world (JobPageNumbers r "out.pdf") empty_state).1
  = disk empty_state ++ [("out.pdf"%string, with_overlay <$> r)]
  /\ disk (run_worker example_world (JobAddPassword "b.pdf" "out.pdf") empty_state).1
     = disk empty_state ++ [("out.pdf"%string, source_pages example_world "b.pdf")]
  /\ disk (run_worker example_world (JobRemovePassword "b.pdf" "out.pdf") empty_state).1
     = disk empty_state ++ [("out.pdf"%string, source_pages example_world "b.pdf")].
Proof.
  exact (whole_document_jobs example_world example_world_quiet
           (source_pages example_world "b.pdf") "b.pdf" "out.pdf" empty_state).
Defined.

(** ** The folder job *)

Section Folder.
Import SaveSpec Trace.
Variable w : World.

Lemma merge_overlay_origin page s s' page' :
  merge_overlay w page s = (s', Ok page') -> origin page' = origin page.
Proof.
  unfold merge_overlay. rewrite run_bind.
  destruct (try_except _ _ s) as [s1 [[]|e]]; [|done].
  rewrite run_ret. by intros [= _ <-].
Qed.

Lemma watermark_page_origins ranges idx page writer s s' writer' :
  watermark_page w ranges idx page writer s = (s', Ok writer') ->
  origin <$> writer' = (origin <$> writer) ++ [origin page].
Proof.
  unfold watermark_page. rewrite run_bind. unfold ext at 1.
  destruct (raises w (ExtMediabox _ _)); [done|]. cbv beta iota. rewrite run_bind.
  assert (Hpage : forall s1 page1,
             (if selected ranges idx
              then wm_r ← _create_watermark_reader w (page_src page) (page_idx page) ;
                   (if wm_r : bool then merge_overlay w page else mret page)
              else mret page) s = (s1, Ok page1) ->
             origin page1 = origin page).
  { intros s1 page1. destruct (selected ranges idx); [|by intros [= _ <-]].
    rewrite run_bind.
    destruct (_create_watermark_reader w _ _ s) as [s2 [[]|e]]; [| |done].
    - apply merge_overlay_origin.
    - by intros [= _ <-]. }
  match type of Hpage with
  | forall s1 page1, ?X = _ -> _ => destruct X as [s1 [page1|e]]
  end; [|done].
  specialize (Hpage s1 page1 eq_refl).
  destruct (add_pages_result w [page1] writer s1) as [->|[e ->]]; [|done].
  intros [= _ <-]. rewrite fmap_app. simpl. by rewrite Hpage.
Qed.

Lemma folder_pages_origins ranges pages : forall i writer s s' writer',
  folder_pages w ranges i pages writer s = (s', Ok writer') ->
  origin <$> writer' = (origin <$> writer) ++ (origin <$> pages).
Proof.
  induction pages as [|page rest IH]; intros i writer s s' writer'.
  - simpl. rewrite run_ret. intros [= _ <-]. by rewrite app_nil_r.
  - simpl folder_pages. rewrite run_bind.
    destruct (watermark_page w ranges i page writer s) as [s1 [writer1|e]] eqn:Hp;
      [|done].
    intros Hrest%IH. rewrite Hrest, (watermark_page_origins _ _ _ _ _ _ _ Hp).
    by rewrite <- app_assoc.
Qed.

Lemma read_pdf_pages p r : read_pdf w p = Ok r -> r = source_pages w p.
Proof.
  unfold read_pdf, source_pages. destruct (raises w (ExtPdfReader p)); [done|].
  by intros [= <-].
Qed.

Lemma image_lines_only lines :
  Forall (fun line => image_error_line line = true) lines ->
  Forall (fun line => file_error_line line = true \/ image_error_line line = true)
         lines /\
  length (filter file_error_line lines) = 0%nat.
Proof.
  intros Himg. split; [|by rewrite filter_image_lines].
  eapply Forall_impl; [exact Himg|]. by right.
Qed.

Lemma image_lines_then_file_line lines p e :
  Forall (fun line => image_error_line line = true) lines ->
  let line := ("Error watermarking " +:+ p +:+ " " +:+ exn_str e)%string in
  Forall (fun line => file_error_line line = true \/ image_error_line line = true)
         (lines ++ [line]) /\
  length (filter file_error_line (lines ++ [line])) = 1%nat.
Proof.
  intros Himg line.
  assert (Hline : file_error_line line = true) by apply starts_with_append.
  split.
  - apply Forall_app. split; [by apply image_lines_only|].
    apply Forall_singleton. by left.
  - rewrite filter_app, filter_image_lines by done.
    rewrite filter_cons_True by (by rewrite Hline). done.
Qed.

(** One file of the folder job at which the job does not return: the
    job goes on, and the file is written or one line tells that it
    failed; lines about the image may have been printed before. *)
Lemma folder_file_passes range_text out_dir p s :
  folder_passes w range_text p ->
  exists s' lines,
    folder_file w range_text out_dir p s = (s', Ok false) /\
    progress_queue s' = progress_queue s /\
    after_calls s' = after_calls s /\
    stdout s' = stdout s ++ lines /\
    Forall (fun line => file_error_line line = true \/ image_error_line line = true)
           lines /\
    ((disk s' = disk s /\ length (filter file_error_line lines) = 1%nat) \/
     (length (filter file_error_line lines) = 0%nat /\
      exists pages, disk s' = disk s ++ [(path_join w out_dir (basename w p), pages)] /\
                    origin <$> pages = origin <$> source_pages w p)).
Proof.
  intros Hpass. unfold folder_file. rewrite run_try_except, run_bind.
  unfold open_reader at 1.
  destruct (read_pdf w p) as [r|e] eqn:Hr.
  2:{ destruct (image_lines_then_file_line [] p e) as [Hall Hone]; [done|].
      eexists _, _. split; [reflexivity|]. simpl. do 3 (split; [done|]).
      split; [exact Hall|]. left. by split. }
  specialize (Hpass r Hr). cbv beta iota.
  destruct (watermark_ranges range_text (length r)) as [ranges|e]; [|done].
  rewrite run_bind.
  destruct (only_prints_folder_pages w ranges r 0 [] s) as (lines & Himg & Hs1).
  destruct (folder_pages w ranges 0 r [] s) as [s1 [writer|e]] eqn:Hf;
    simpl in Hs1; subst s1.
  2:{ destruct (image_lines_then_file_line lines p e Himg) as [Hall Hone].
      eexists _, _. split; [reflexivity|]. simpl. rewrite <- app_assoc.
      do 3 (split; [done|]). split; [exact Hall|]. left. by split. }
  cbv beta iota. unfold write_pdf. rewrite !run_bind. unfold ext.
  destruct (raises w (ExtWrite (path_join w out_dir (basename w p)))) as [e|].
  { destruct (image_lines_then_file_line lines p e Himg) as [Hall Hone].
    eexists _, _. split; [reflexivity|]. simpl. rewrite <- app_assoc.
    do 3 (split; [done|]). split; [exact Hall|]. left. by split. }
  destruct (image_lines_only lines Himg) as [Hall Hnone].
  eexists _, _. split; [reflexivity|]. simpl.
  do 3 (split; [done|]). split; [exact Hall|]. right. split; [done|].
  exists writer. split; [done|].
  rewrite (folder_pages_origins _ _ _ _ _ _ _ Hf), <- (read_pdf_pages p r Hr). done.
Qed.


Lemma folder_loop_passes range_text out_dir total pdfs :
  Forall (folder_passes w range_text) pdfs ->
  forall idx s,
  exists s' written lines,
    folder_loop w range_text out_dir total idx pdfs s = (s', Ok false) /\
    progress_queue s' = progress_queue s ++ folder_events total idx pdfs /\
    after_calls s' = after_calls s /\
    disk s' = disk s ++ written /\
    stdout s' = stdout s ++ lines /\
    Forall (fun line => file_error_line line = true \/ image_error_line line = true)
           lines /\
    (length written + length (filter file_error_line lines) = length pdfs)%nat /\
    written.*1 `sublist_of` folder_outputs w out_dir pdfs.
Proof.
  induction 1 as [|p rest Hp _ IH]; intros idx s.
  - exists s, [], []. simpl. by rewrite !app_nil_r.
  - simpl folder_loop. rewrite run_bind.
    destruct (folder_file_passes range_text out_dir p s Hp)
      as (s1 & lines1 & -> & Hq1 & Ha1 & Ho1 & Hall1 & Hfile).
    cbv beta iota.
    rewrite run_bind, run_put. cbv beta iota.
    rewrite run_bind, run_put. cbv beta iota.
    match goal with
    | |- context [folder_loop w range_text out_dir total (S idx) rest ?s2] =>
        set (s2' := s2);
        destruct (IH (S idx) s2')
          as (s' & written & lines & -> & Hq & Ha & Hd & Ho & Hall & Hlen & Hsub)
    end.
    assert (Hcount : length (filter file_error_line (lines1 ++ lines))
                     = (length (filter file_error_line lines1)
                        + length (filter file_error_line lines))%nat)
      by (by rewrite filter_app, length_app).
    destruct Hfile as [[Hd1 Hone]|[Hnone (pages & Hd1 & _)]].
    + exists s', written, (lines1 ++ lines). split; [done|].
      rewrite Hq, Ha, Hd, Ho, Hcount. subst s2'. simpl.
      rewrite Hq1, Ha1, Hd1, Ho1, <- !app_assoc.
      do 4 (split; [done|]). split; [by apply Forall_app|].
      split; [lia|]. by apply sublist_cons.
    + exists s', ((path_join w out_dir (basename w p), pages) :: written),
             (lines1 ++ lines).
      split; [done|].
      rewrite Hq, Ha, Hd, Ho, Hcount. subst s2'. simpl.
      rewrite Hq1, Ha1, Hd1, Ho1, <- !app_assoc.
      do 4 (split; [done|]). split; [by apply Forall_app|].
      split; [lia|]. by apply sublist_skip.
Qed.


Lemma folder_events_no_error total pdfs : forall idx,
  filter (fun ev => is_error_event ev = true) (folder_events total idx pdfs) = [].
Proof.
  induction pdfs as [|p rest IH]; intros idx; [done|].
  simpl. rewrite !filter_cons_False by done. apply IH.
Qed.

(** X12: the folder job with a blank range text.  Whatever the
    libraries do, the job does not stop at a file that fails: it reports
    every file of the folder as processed, one after the other, and
    ends with the final status and ["done"]; no ["error"] event is
    sent.  Every file of the folder is either written to the output
    folder under its own name or answered by one printed line that
    starts with "Error watermarking"; the only other lines printed are
    those of [_create_watermark_reader] for an image that cannot be
    drawn, which start with "Image watermark error:".  So the number of
    files written and the number of "Error watermarking" lines add up to
    the number of files. *)
Theorem folder_job_blank_range (pdfs : list string) (range_text out_dir : string)
        (s : JobState) :
  PyStr.is_empty (PyStr.strip range_text) = true ->
  let run := run_worker w (JobWatermarkFolder pdfs range_text out_dir) in
  let final_message := ("Batch watermark complete! " +:+ str_nat (length pdfs)
                        +:+ " files saved to: " +:+ out_dir)%string in
  (run s).2 = Ok tt
  /\ emitted run s
     = folder_events (length pdfs) 1 pdfs
       ++ [EvStatus final_message; EvDone final_message]
  /\ count is_error_event (emitted run s) = 0%nat
  /\ exists written lines,
       disk (run s).1 = disk s ++ written /\
       stdout (run s).1 = stdout s ++ lines /\
       Forall (fun line => file_error_line line = true \/ image_error_line line = true)
              lines /\
       (length written + length (filter file_error_line lines) = length pdfs)%nat /\
       written.*1 `sublist_of` ((fun p => path_join w out_dir (basename w p)) <$> pdfs).
Proof.
  intros Hblank run final_message.
  assert (Hrun : run s = worker_outcome (apply_to_folder_job w pdfs range_text out_dir s))
    by apply worker_run.
  unfold emitted. rewrite Hrun. clear Hrun run.
  unfold apply_to_folder_job. rewrite run_bind.
  assert (Hpass : Forall (folder_passes w range_text) pdfs).
  { apply Forall_forall. intros p _ r _. unfold watermark_ranges. by rewrite Hblank. }
  destruct (folder_loop_passes range_text out_dir (length pdfs) pdfs Hpass 1 s)
    as (s' & written & lines & -> & Hq & _ & Hd & Ho & Hall & Hlen & Hsub).
  cbv beta iota. rewrite run_bind, run_put. cbv beta iota. rewrite run_put.
  simpl. rewrite Hq, Hd, Ho, <- !app_assoc, drop_app_length.
  split; [done|]. split; [done|]. split.
  - unfold count. rewrite filter_app, length_app, folder_events_no_error. done.
  - by exists written, lines.
Qed.

End Folder.

Lemma folder_job_blank_range_witness :
  let run := run_worker read_only_world
               (JobWatermarkFolder ["a.pdf"; "b.pdf"]%string " " "out") in
  let final_message := ("Batch watermark complete! " +:+ str_nat 2
                        +:+ " files saved to: " +:+ "out")%string in
  (run empty_state).2 = Ok tt
  /\ emitted run empty_state
     = folder_events 2 1 ["a.pdf"; "b.pdf"]%string
       ++ [EvStatus final_message; EvDone final_message]
  /\ Trace.count is_error_event (emitted run empty_state) = 0%nat
  /\ exists written lines,
       disk (run empty_state).1 = disk empty_state ++ written /\
       stdout (run empty_state).1 = stdout empty_state ++ lines /\
       Forall (fun line => file_error_line line = true \/ image_error_line line = true)
              lines /\
       (length written + length (filter file_error_line lines) = 2)%nat /\
       written.*1 `sublist_of`
         ((fun p => path_join read_only_world "out" (basename read_only_world p))
            <$> ["a.pdf"; "b.pdf"]%string).
Proof.
  apply (folder_job_blank_range read_only_world ["a.pdf"; "b.pdf"]%string " " "out"
           empty_state).
  reflexivity.
Defined.

(** ** Range validation in the click handlers *)

Section RangeActions.
Import PyStr RangeParser RangeSpec Trace.
Variable w : World.







End RangeActions.



(** ** Loading pages into the organizer *)

Section Render.
Import SaveSpec Trace.
Variable w : World.

Lemma render_loop_result path total n : forall i page_data s data,
  (render_loop w path total i n page_data s).2 = Ok data ->
  data = page_data ++ ((fun i => mkPageData i path 0) <$> seq i n).
Proof.
  induction n as [|n IH]; intros i page_data s data.
  - simpl. intros [= <-]. by rewrite app_nil_r.
  - simpl render_loop. rewrite run_bind. unfold ext.
    destruct (raises w (ExtRender path i)); [done|]. cbv beta iota.
    rewrite run_bind, run_put. cbv beta iota.
    rewrite run_bind, run_put. cbv beta iota.
    intros ->%IH. simpl. by rewrite <- app_assoc.
Qed.

Lemma render_loop_stdout path total n : forall i page_data s,
  stdout (render_loop w path total i n page_data s).1 = stdout s.
Proof.
  induction n as [|n IH]; intros i page_data s; [done|].
  simpl render_loop. rewrite run_bind. unfold ext.
  destruct (raises w (ExtRender path i)); [done|]. cbv beta iota.
  rewrite run_bind, run_put. cbv beta iota.
  rewrite run_bind, run_put. cbv beta iota. by rewrite IH.
Qed.

Lemma render_worker_run path insert_idx s :
  _render_worker w path insert_idx s
  = let failed e := put (EvError ("Could not render PDF: " +:+ exn_str e)) in
    match raises w (ExtFitzOpen path) with
    | Some e => failed e s
    | None =>
        match render_loop w path (fitz_len w path) 0 (fitz_len w path) [] s with
        | (s1, Raise e) => failed e s1
        | (s1, Ok page_data) =>
            match raises w (ExtDocClose path) with
            | Some e => failed e s1
            | None =>
                match raises w ExtAfter with
                | Some e => failed e s1
                | None => schedule page_data insert_idx s1
                end
            end
        end
    end.
Proof.
  unfold _render_worker, try_except, mbind, job_bind, ext.
  destruct (raises w (ExtFitzOpen path)); [done|].
  destruct (render_loop w path (fitz_len w path) 0 (fitz_len w path) [] s)
    as [s1 [data|e]]; [|done].
  destruct (raises w (ExtDocClose path)); [done|].
  by destruct (raises w ExtAfter).
Qed.

(** What the render job leaves behind. *)
Lemma render_worker_outcome path insert_idx s :
  let s' := (_render_worker w path insert_idx s).1 in
  (_render_worker w path insert_idx s).2 = Ok tt /\
  disk s' = disk s /\ stdout s' = stdout s /\
  exists evs,
    Forall plain evs /\
    ((after_calls s' = after_calls s ++ [(page_data_of path (fitz_len w path), insert_idx)] /\
      progress_queue s' = progress_queue s ++ evs) \/
     (after_calls s' = after_calls s /\
      exists e, progress_queue s'
                = progress_queue s ++ evs
                  ++ [EvError ("Could not render PDF: " +:+ exn_str e)])).
Proof.
  rewrite render_worker_run.
  destruct (raises w (ExtFitzOpen path)) as [e|].
  { simpl. do 3 (split; [done|]). exists []. split; [done|]. right.
    split; [done|]. by exists e. }
  destruct (quiet_render_loop w path (fitz_len w path) (fitz_len w path) 0 [] s)
    as (evs & Hq & Hpl).
  destruct (keeps_render_loop w path (fitz_len w path) (fitz_len w path) 0 [] s)
    as [Hd Ha].
  pose proof (render_loop_result path (fitz_len w path) (fitz_len w path) 0 [] s) as Hres.
  pose proof (render_loop_stdout path (fitz_len w path) (fitz_len w path) 0 [] s) as Ho.
  destruct (render_loop w path (fitz_len w path) 0 (fitz_len w path) [] s)
    as [s1 [data|e]]; simpl in Hq, Hd, Ha, Ho.
  2:{ simpl. rewrite Hq, Hd, Ha, Ho. do 3 (split; [done|]). exists evs.
      split; [done|]. right. split; [done|]. exists e. by rewrite <- app_assoc. }
  specialize (Hres data eq_refl). subst data.
  destruct (raises w (ExtDocClose path)) as [e|].
  { simpl. rewrite Hq, Hd, Ha, Ho. do 3 (split; [done|]). exists evs.
    split; [done|]. right. split; [done|]. exists e. by rewrite <- app_assoc. }
  destruct (raises w ExtAfter) as [e|].
  { simpl. rewrite Hq, Hd, Ha, Ho. do 3 (split; [done|]). exists evs.
    split; [done|]. right. split; [done|]. exists e. by rewrite <- app_assoc. }
  simpl. rewrite Hq, Hd, Ha, Ho. do 3 (split; [done|]). exists evs.
  split; [done|]. by left.
Qed.

Lemma append_to_grid_widgets data st :
  page_widgets (_append_to_grid data None st).1
  = page_widgets st ++ seq (next_ref st) (length data).
Proof.
  unfold _append_to_grid. pose proof (make_cards_spec data st) as Hm.
  destruct (make_cards data st) as [new_cards st1].
  destruct Hm as (-> & _ & Hw & _). simpl. by rewrite Hw.
Qed.

Lemma run_render_any path st js :
  after_calls js = [] ->
  let st' := (run_effects [RunWorker (_render_worker w path None)] (st, js)).1 in
  page_widgets st' = page_widgets st \/
  page_widgets st' = page_widgets st ++ seq (next_ref st) (fitz_len w path).
Proof.
  intros Hcalls. simpl run_effects. rewrite worker_run.
  destruct (render_worker_outcome path None js) as (Hr & _ & _ & evs & _ & Hcase).
  destruct (_render_worker w path None js) as [js1 r]. simpl in Hr, Hcase. subst r.
  simpl. destruct Hcase as [[-> _]|[-> _]]; rewrite Hcalls; simpl.
  - right. pose proof (append_to_grid_widgets (page_data_of path (fitz_len w path)) st) as Hw.
    destruct (_append_to_grid _ None st) as [st2 evs2]. simpl in *.
    rewrite Hw. unfold page_data_of. by rewrite length_fmap, length_seq.
  - by left.
Qed.

(** X13: a load is all or nothing.  Whatever the libraries do, the
    render job returns, writes no file and hands either all pages of the
    source to the grid, in one callback, or none: when a page cannot be
    rendered nothing is scheduled and one ["error"] event "Could not
    render PDF: ..." follows the progress events.  So "append" leaves
    the working list as it is or adds one card for every page of the
    source after the cards that are there, and "load" leaves the
    organizer empty when it fails: the old cards are gone before the
    source is read. *)
Theorem render_all_or_nothing (path : string) (insert_idx : option Z)
        (s : JobState) (app : App) :
  let run := run_worker w (JobRender path insert_idx) in
  ((run s).2 = Ok tt /\ disk (run s).1 = disk s /\
   ((after_calls (run s).1
       = after_calls s ++ [(page_data_of path (fitz_len w path), insert_idx)] /\
     Forall plain (emitted run s)) \/
    (after_calls (run s).1 = after_calls s /\
     exists evs e, Forall plain evs /\
                   emitted run s
                   = evs ++ [EvError ("Could not render PDF: " +:+ exn_str e)])))
  /\ (after_calls app.2 = [] ->
      let old := page_widgets app.1 in
      let new_cards := seq (next_ref app.1) (fitz_len w path) in
      (page_widgets (do_action w (Append path) app).1 = old \/
       page_widgets (do_action w (Append path) app).1 = old ++ new_cards) /\
      (path <> EmptyString ->
       page_widgets (do_action w (Load path) app).1 = [] \/
       page_widgets (do_action w (Load path) app).1 = new_cards)).
Proof.
  intros run. split.
  - assert (Hrun : run s = worker_outcome (_render_worker w path insert_idx s))
      by apply worker_run.
    unfold emitted. rewrite Hrun. clear Hrun run.
    destruct (render_worker_outcome path insert_idx s)
      as (Hr & Hd & _ & evs & Hpl & Hcase).
    destruct (_render_worker w path insert_idx s) as [s1 r]. simpl in *. subst r.
    simpl. split; [done|]. split; [done|].
    destruct Hcase as [[Ha Hq]|[Ha [e Hq]]]; rewrite Hq, drop_app_length.
    + by left.
    + right. split; [done|]. by exists evs, e.
  - intros Hcalls old new_cards. split.
    + unfold do_action, add_pdf_append. destruct (PyStr.is_empty path); [by left|].
      destruct app as [st js]. by apply run_render_any.
    + intros Hne. unfold do_action, load_pdf_clear.
      destruct path; [done|]. simpl PyStr.is_empty. cbv iota.
      destruct app as [st js].
      apply (run_render_any (String a path)
               (set_grid [] (set_page_widgets [] (set_selected_card None st))) js Hcalls).
Qed.

End Render.

Lemma render_all_or_nothing_witness :
  let old := page_widgets App_init.1 in
  let new_cards := seq (next_ref App_init.1) (fitz_len example_world "a.pdf") in
  (page_widgets (do_action example_world (Append "a.pdf") App_init).1 = old \/
   page_widgets (do_action example_world (Append "a.pdf") App_init).1 = old ++ new_cards) /\
  ("a.pdf"%string <> EmptyString ->
   page_widgets (do_action example_world (Load "a.pdf") App_init).1 = [] \/
   page_widgets (do_action example_world (Load "a.pdf") App_init).1 = new_cards).
Proof.
  apply (proj2 (render_all_or_nothing example_world "a.pdf" None empty_state App_init)).
  reflexivity.
Defined.

Section InsertHere.
Import SaveSpec.
Variable w : World.
Hypothesis Hquiet : quiet_world w.

Lemma index_NoDup item widgets k :
  NoDup widgets -> widgets !! k = Some item -> PyList.index item widgets = Some k.
Proof.
  intros Hnd Hk. assert (Hin : item ∈ widgets) by (by eapply list_elem_of_lookup_2).
  destruct (index_elem_of _ _ Hin) as [k' Hk'].
  rewrite Hk'. f_equal. apply index_lookup in Hk'.
  by eapply NoDup_lookup.
Qed.

Lemma append_to_grid_at data (idx : nat) st :
  page_widgets (_append_to_grid data (Some (Z.of_nat idx)) st).1
  = take idx (page_widgets st) ++ seq (next_ref st) (length data)
    ++ drop idx (page_widgets st).
Proof.
  unfold _append_to_grid. pose proof (make_cards_spec data st) as Hm.
  destruct (make_cards data st) as [new_cards st1].
  destruct Hm as (-> & _ & Hw & _). simpl. rewrite Hw.
  change 0 with (Z.of_nat 0). rewrite insert_cards_spec. by rewrite Nat.add_0_r.
Qed.

(** X14: the "+" buttons of a card.  With libraries that do not fail,
    [insert_pages_here] on the card at position [k] of a working list of
    distinct cards puts one new card for every page of the chosen source
    right before that card, or right after it, and keeps the cards that
    were there in their order.  When the card is not in the working list
    the handler raises the [ValueError] of [list.index], after the file
    dialog; a cancelled dialog does nothing. *)
Theorem insert_pages_here_spec (target_card : nat) (before : bool) (p : string)
        (st : OrganizePage) (js : JobState) :
  (p = EmptyString -> insert_pages_here w target_card before p st = Ok [])
  /\ (p <> EmptyString -> target_card ∉ page_widgets st ->
      exists e, insert_pages_here w target_card before p st = Raise e /\
                exn_cls e = ValueError)
  /\ (forall k,
        p <> EmptyString -> after_calls js = [] ->
        NoDup (page_widgets st) -> page_widgets st !! k = Some target_card ->
        exists effects,
          insert_pages_here w target_card before p st = Ok effects /\
          let st' := (run_effects effects (st, js)).1 in
          let at_ := if before then k else S k in
          page_widgets st'
          = take at_ (page_widgets st) ++ seq (next_ref st) (fitz_len w p)
            ++ drop at_ (page_widgets st)
          /\ page_widgets st' !! (if before then (k + fitz_len w p)%nat else k)
             = Some target_card).
Proof.
  unfold insert_pages_here. split; [by intros ->|]. split.
  - intros Hp Hnotin. destruct p; [done|]. simpl PyStr.is_empty. cbv iota.
    destruct (PyList.index target_card (page_widgets st)) as [idx|] eqn:Hi.
    + apply index_lookup, list_elem_of_lookup_2 in Hi. done.
    + by eexists.
  - intros k Hp Hcalls Hnd Hk. destruct p as [|a p']; [done|].
    simpl PyStr.is_empty. cbv iota. rewrite (index_NoDup _ _ _ Hnd Hk).
    eexists. split; [reflexivity|]. cbv zeta.
    set (insert_idx := if before then Z.of_nat k else Z.of_nat k + 1).
    destruct (run_render_effect w Hquiet (String a p') (Some insert_idx) st js Hcalls)
      as (js' & -> & _).
    assert (Hidx : insert_idx = Z.of_nat (if before then k else S k)).
    { subst insert_idx. destruct before; lia. }
    rewrite Hidx. cbn [fst]. rewrite append_to_grid_at.
    unfold page_data_of. rewrite length_fmap, length_seq. split; [done|].
    pose proof (lookup_lt_Some _ _ _ Hk) as Hlt.
    destruct before.
    + rewrite lookup_app_r by (rewrite length_take; lia).
      rewrite length_take, lookup_app_r by (rewrite length_seq; lia).
      rewrite length_seq, lookup_drop, <- Hk. f_equal. lia.
    + rewrite lookup_app_l by (rewrite length_take; lia).
      rewrite lookup_take_lt by lia. done.
Qed.

End InsertHere.

Lemma insert_pages_here_spec_witness :
  let st := mkOrganizePage ∅ 2 [0; 1]%nat None None [] in
  exists effects,
    insert_pages_here example_world 1%nat true "a.pdf" st = Ok effects /\
    let st' := (run_effects effects (st, empty_state)).1 in
    page_widgets st'
    = take 1 (page_widgets st) ++ seq (next_ref st) (fitz_len example_world "a.pdf")
      ++ drop 1 (page_widgets st)
    /\ page_widgets st' !! (1 + fitz_len example_world "a.pdf")%nat = Some 1%nat.
Proof.
  apply (proj2 (proj2 (insert_pages_here_spec example_world example_world_quiet
                         1%nat true "a.pdf"
                         (mkOrganizePage ∅ 2 [0; 1]%nat None None []) empty_state))
           1%nat).
  - done.
  - reflexivity.
  - apply NoDup_cons. split; [|apply NoDup_singleton].
    intros Hin%list_elem_of_singleton. discriminate.
  - reflexivity.
Defined.

(** ** What the user sees: [_poll_progress] *)

Section Poll.
Import Trace.
Variable w : World.

Lemma worker_trace (j : job) (s : JobState) :
  exists pre last,
    Forall plain pre /\
    emitted (run_worker w j) s = pre ++ last /\
    (length last <= 1)%nat /\
    (forall e, (job_body w j s).2 = Raise e -> last = [EvError (exn_str e)]).
Proof.
  destruct (job_ends_once w j s) as (evs & Hq & pre & last & -> & Hpre & Hlast).
  unfold run_worker, emitted. rewrite worker_run.
  destruct (job_body w j s) as [s1 [[]|e]]; simpl in *.
  - exists pre, last. rewrite Hq, drop_app_length. by repeat split.
  - subst last. exists pre, [EvError (exn_str e)].
    rewrite Hq, app_nil_r, <- app_assoc, drop_app_length. repeat split; try done.
    by intros e' [= <-].
Qed.

Lemma poll_plain evs : forall app,
  Forall plain evs -> boxes (foldl poll_event app evs) = boxes app.
Proof.
  induction evs as [|ev rest IH]; intros app Hpl; [done|].
  apply Forall_cons in Hpl as [[He Hd] Hrest]. simpl. rewrite IH by done.
  by destruct ev.
Qed.

Lemma poll_one ev app : exists shown,
  boxes (poll_event app ev) = boxes app ++ shown /\ (length shown <= 1)%nat.
Proof.
  destruct ev; simpl.
  - exists []. rewrite app_nil_r. split; [done | simpl; lia].
  - exists []. rewrite app_nil_r. split; [done | simpl; lia].
  - eexists [_]. split; [done | simpl; lia].
  - eexists [_]. split; [done | simpl; lia].
Qed.

(** X15: what the user sees of a job.  [_poll_progress] takes every
    event from the queue.  Polling the events of any run of the worker,
    whatever the libraries did, shows at most one message box; when
    the job body raised, it is one error box with the text of the
    exception, the status is ["Error"] and the bar is back at 0.  A run
    whose last event is ["done"] ends with the status ["Done"], the bar
    at 0 and one info box with the message of the event (a stand-in text
    when the message is empty).  Polling in two turns gives what polling
    once gives. *)
Theorem poll_after_job (j : job) (s : JobState) (app : MainApp) :
  let evs := emitted (run_worker w j) s in
  let app' := (_poll_progress evs (run_worker_ui app)).2 in
  (_poll_progress evs (run_worker_ui app)).1 = []
  /\ (exists shown, boxes app' = boxes app ++ shown /\ (length shown <= 1)%nat)
  /\ (forall e, (job_body w j s).2 = Raise e ->
                boxes app' = boxes app ++ [ErrorBox (exn_str e)] /\
                status app' = "Error"%string /\ progress_var app' = PctConst 0)
  /\ (forall msg, last evs = Some (EvDone msg) ->
                  boxes app' = boxes app
                               ++ [InfoBox (if PyStr.is_empty msg
                                            then "Operation completed successfully!"%string
                                            else msg)] /\
                  status app' = "Done"%string /\ progress_var app' = PctConst 0)
  /\ (forall q1 q2 app0,
        (_poll_progress (q1 ++ q2) app0).2
        = (_poll_progress q2 (_poll_progress q1 app0).2).2).
Proof.
  intros evs app'. subst app'. unfold _poll_progress. cbn [fst snd].
  destruct (worker_trace j s) as (pre & last_ & Hpre & Hevs & Hlen & Hraise).
  fold evs in Hevs. rewrite Hevs. clear Hevs evs.
  rewrite foldl_app.
  pose proof (poll_plain pre (run_worker_ui app) Hpre) as Hboxes.
  set (app1 := foldl poll_event (run_worker_ui app) pre) in *.
  change (boxes (run_worker_ui app)) with (boxes app) in Hboxes.
  split; [done|]. split; [|split; [|split]].
  - destruct last_ as [|ev [|]]; simpl in *; [| |lia].
    + exists []. rewrite app_nil_r. split; [done | simpl; lia].
    + destruct (poll_one ev app1) as (shown & Hs & Hl). exists shown.
      by rewrite Hs, Hboxes.
  - intros e He. rewrite (Hraise e He). simpl. by rewrite Hboxes.
  - intros msg Hlast. destruct last_ as [|ev [|]]; simpl in Hlen; [| |lia].
    + rewrite app_nil_r in Hlast. apply last_Some in Hlast as [pre' ->].
      rewrite Forall_app, Forall_singleton in Hpre.
      destruct Hpre as [_ [_ Hd]]. simpl in Hd. discriminate.
    + rewrite last_snoc in Hlast. injection Hlast as ->. simpl.
      by rewrite Hboxes.
  - intros q1 q2 app0. apply foldl_app.
Qed.

End Poll.

(** ** The list of the merge page *)

Section MergeList.
Variable w : World.

Lemma add_pdfs_loop_spec paths : forall pdfs lst,
  exists added,
    add_pdfs_loop w paths pdfs lst
    = (pdfs ++ added, lst ++ ((fun p => (basename w p, false)) <$> added)) /\
    added `sublist_of` paths /\
    (forall p, p ∈ paths -> p ∈ pdfs ++ added) /\
    (forall p, p ∈ added -> p ∉ pdfs) /\
    NoDup added.
Proof.
  induction paths as [|p rest IH]; intros pdfs lst.
  - exists []. simpl. rewrite !app_nil_r. repeat split; try done.
    + by intros p ?%elem_of_nil.
    + by intros p ?%elem_of_nil.
    + apply NoDup_nil_2.
  - simpl. unfold path_mem. case_bool_decide as Hin.
    + destruct (IH pdfs lst) as (added & -> & Hsub & Hall & Hnew & Hnd).
      exists added. split; [done|]. split; [by apply sublist_cons|].
      split; [|done]. intros q [->|Hq]%elem_of_cons; [|by apply Hall].
      apply elem_of_app. by left.
    + destruct (IH (pdfs ++ [p]) (Listbox.insert_end (basename w p) lst))
        as (added & -> & Hsub & Hall & Hnew & Hnd).
      exists (p :: added). unfold Listbox.insert_end.
      rewrite <- !app_assoc. split; [done|]. split; [by apply sublist_skip|].
      split; [|split].
      * intros q [->|Hq]%elem_of_cons.
        -- apply elem_of_app. right. by left.
        -- specialize (Hall q Hq). rewrite <- app_assoc in Hall. done.
      * intros q [->|Hq]%elem_of_cons; [done|].
        specialize (Hnew q Hq). intros Hq'. apply Hnew, elem_of_app. by left.
      * apply NoDup_cons. split; [|done]. intros Hp. apply (Hnew p Hp).
        apply elem_of_app. right. by left.
Qed.

(** X16: adding files to the merge list.  [add_pdfs] puts the chosen
    files that are not yet in the list at its end, in the order of the
    choice and each once; the files that were there keep their places.
    Afterwards every chosen file is in the list, a list without
    duplicates stays without duplicates, and the listbox still shows
    the base names of the files line by line.  A cancelled dialog
    changes nothing; otherwise the output entry is set to the default
    file name of the new list. *)
Theorem add_pdfs_spec (paths : list string) (self : MergePage) :
  let self' := add_pdfs w paths self in
  (exists added,
      pdfs self' = pdfs self ++ added /\
      added `sublist_of` paths /\ NoDup added /\
      (forall p, p ∈ added -> p ∉ pdfs self))
  /\ (forall p, p ∈ paths -> p ∈ pdfs self')
  /\ (NoDup (pdfs self) -> NoDup (pdfs self'))
  /\ (in_sync w self -> in_sync w self')
  /\ (paths = [] -> pdfs self' = pdfs self /\ lst self' = lst self /\
                    out_entry self' = out_entry self)
  /\ (paths <> [] -> out_entry self' = _generate_default_filename w (pdfs self')).
Proof.
  intros self'. subst self'. unfold add_pdfs.
  destruct (add_pdfs_loop_spec paths (pdfs self) (lst self))
    as (added & -> & Hsub & Hall & Hnew & Hnd).
  assert (Hp : pdfs (match paths with
                     | [] => mkMergePage (pdfs self ++ added)
                               (lst self ++ ((fun p => (basename w p, false)) <$> added))
                               (out_entry self)
                     | _ :: _ => mkMergePage (pdfs self ++ added)
                               (lst self ++ ((fun p => (basename w p, false)) <$> added))
                               (_generate_default_filename w (pdfs self ++ added))
                     end) = pdfs self ++ added) by (by destruct paths).
  assert (Hl : lst (match paths with
                    | [] => mkMergePage (pdfs self ++ added)
                              (lst self ++ ((fun p => (basename w p, false)) <$> added))
                              (out_entry self)
                    | _ :: _ => mkMergePage (pdfs self ++ added)
                              (lst self ++ ((fun p => (basename w p, false)) <$> added))
                              (_generate_default_filename w (pdfs self ++ added))
                    end) = lst self ++ ((fun p => (basename w p, false)) <$> added))
    by (by destruct paths).
  rewrite Hp. split; [by exists added|]. split; [done|]. split; [|split; [|split]].
  - intros Hnd0. apply NoDup_app. split; [done|]. split; [|done].
    intros p Hp0 Hp1. by apply (Hnew p Hp1).
  - unfold in_sync. rewrite Hp, Hl. intros Hs. unfold Listbox.texts in *.
    rewrite !fmap_app, Hs. f_equal. rewrite <- list_fmap_compose.
    by apply list_fmap_ext.
  - intros ->. apply sublist_nil_r in Hsub. subst added. simpl.
    by rewrite !app_nil_r.
  - intros Hne. by destruct paths.
Qed.

Lemma curselection_from_lt lst : forall i,
  Forall (fun k => (i <= k < i + length lst)%nat) (Listbox.curselection_from i lst).
Proof.
  induction lst as [|[txt sel] rest IH]; intros i; simpl; [done|].
  apply Forall_app. split.
  - destruct sel; [|done]. apply Forall_singleton. lia.
  - eapply Forall_impl; [apply IH|]. simpl. lia.
Qed.

Lemma curselection_lt lst :
  Forall (fun k => (k < length lst)%nat) (Listbox.curselection lst).
Proof.
  eapply Forall_impl; [apply (curselection_from_lt lst 0)|]. simpl. lia.
Qed.

Lemma texts_length lst : length (Listbox.texts lst) = length lst.
Proof. unfold Listbox.texts. by rewrite length_fmap. Qed.

Lemma sync_length pdfs lst :
  Listbox.texts lst = basename w <$> pdfs -> length lst = length pdfs.
Proof. intros Hs. by rewrite <- texts_length, Hs, length_fmap. Qed.

(** Swapping two neighbours of a list. *)
Lemma swap_neighbours {A} (l : list A) (i : nat) (x y : A) :
  l !! i = Some x -> l !! S i = Some y ->
  <[S i := x]> (<[i := y]> l) = take i l ++ y :: x :: drop (S (S i)) l
  /\ l = take i l ++ x :: y :: drop (S (S i)) l.
Proof.
  intros Hi Hj.
  assert (Hl : l = take i l ++ x :: y :: drop (S (S i)) l).
  { rewrite <- (take_drop i l) at 1. f_equal.
    rewrite (drop_S l x i Hi). f_equal. by rewrite (drop_S l y (S i) Hj). }
  split; [|done]. pose proof (lookup_lt_Some _ _ _ Hi) as Hlt.
  rewrite Hl at 1.
  assert (Hlen : length (take i l) = i) by (rewrite length_take; lia).
  rewrite insert_app_r_alt by lia. rewrite Hlen, Nat.sub_diag. simpl.
  rewrite insert_app_r_alt by lia. rewrite Hlen.
  replace (S i - i)%nat with 1%nat by lia. done.
Qed.

Lemma lookup_middle_S {A} (a r : list A) (X Y : A) :
  (a ++ X :: Y :: r) !! S (length a) = Some Y.
Proof. induction a; simpl; done. Qed.

Lemma insert_middle {A} (a r : list A) (X v : A) :
  <[length a := v]> (a ++ X :: r) = a ++ v :: r.
Proof. induction a; simpl; [done|]. by f_equal. Qed.

Lemma insert_middle_S {A} (a r : list A) (X Y v : A) :
  <[S (length a) := v]> (a ++ X :: Y :: r) = a ++ X :: v :: r.
Proof. induction a; simpl; [done|]. by f_equal. Qed.

Lemma line_down {A} (a r : list A) (X Y Z : A) :
  take (S (length a)) (delete (length a) (a ++ X :: Y :: r))
  ++ Z :: drop (S (length a)) (delete (length a) (a ++ X :: Y :: r))
  = a ++ Y :: Z :: r.
Proof. induction a; simpl; [done|]. by f_equal. Qed.

Lemma line_up {A} (a r : list A) (X Y Z : A) :
  take (length a) (delete (S (length a)) (a ++ X :: Y :: r))
  ++ Z :: drop (length a) (delete (S (length a)) (a ++ X :: Y :: r))
  = a ++ Z :: X :: r.
Proof. induction a; simpl; [done|]. by f_equal. Qed.

(** One turn of a move on a list cut at the two lines: the line goes
    down, or it goes up, and is selected. *)
Lemma move_line_split (pa pb : list string) (la lb : list (string * bool))
      (x y : string) (sx sy : bool) :
  length la = length pa ->
  let pdfs := pa ++ x :: y :: pb in
  let lst := la ++ (basename w x, sx) :: (basename w y, sy) :: lb in
  move_line (length pa) (S (length pa)) pdfs lst
  = Ok (pa ++ y :: x :: pb,
        la ++ (basename w y, sy) :: (basename w x, true) :: lb)
  /\ move_line (S (length pa)) (length pa) pdfs lst
     = Ok (pa ++ y :: x :: pb,
           la ++ (basename w y, true) :: (basename w x, sx) :: lb).
Proof.
  intros Hlen pdfs lst. subst pdfs lst.
  unfold move_line, swap, Listbox.get, Listbox.delete_at, Listbox.insert_at,
    Listbox.selection_set.
  rewrite lookup_middle_S, (list_lookup_middle pa _ x (length pa) eq_refl).
  cbn [mbind result_bind].
  rewrite <- Hlen.
  rewrite lookup_middle_S, (list_lookup_middle la _ _ (length la) eq_refl).
  rewrite line_down, line_up.
  rewrite lookup_middle_S, (list_lookup_middle la _ _ (length la) eq_refl).
  rewrite insert_middle_S, insert_middle. rewrite Hlen.
  split.
  - by rewrite insert_middle_S, insert_middle.
  - by rewrite insert_middle, insert_middle_S.
Qed.

(** One turn of a move: the line at [i] and its neighbour change
    places, in the paths and in the listbox. *)
Lemma move_line_neighbours (i j lo : nat) pdfs lst :
  Listbox.texts lst = basename w <$> pdfs ->
  (i = lo /\ j = S lo \/ i = S lo /\ j = lo) ->
  (S lo < length pdfs)%nat ->
  exists pdfs' lst',
    move_line i j pdfs lst = Ok (pdfs', lst') /\
    Listbox.texts lst' = basename w <$> pdfs' /\
    pdfs' ≡ₚ pdfs /\ length pdfs' = length pdfs /\
    pdfs' !! lo = pdfs !! S lo /\ pdfs' !! S lo = pdfs !! lo /\
    (forall k, k <> lo -> k <> S lo -> pdfs' !! k = pdfs !! k) /\
    (exists txt, lst' !! j = Some (txt, true)).
Proof.
  intros Hs Hij Hlt.
  destruct (lookup_lt_is_Some_2 pdfs lo) as [x Hx]; [lia|].
  destruct (lookup_lt_is_Some_2 pdfs (S lo) Hlt) as [y Hy].
  pose proof (sync_length _ _ Hs) as Hlen.
  destruct (lookup_lt_is_Some_2 lst lo) as [[tx sx] Htx]; [lia|].
  destruct (lookup_lt_is_Some_2 lst (S lo)) as [[ty sy] Hty]; [lia|].
  destruct (swap_neighbours pdfs lo x y Hx Hy) as [_ Hpdfs].
  destruct (swap_neighbours lst lo (tx, sx) (ty, sy) Htx Hty) as [_ Hlst].
  assert (Hlo : length (take lo lst) = lo) by (rewrite length_take; lia).
  assert (Hlo' : length (take lo pdfs) = lo) by (rewrite length_take; lia).
  assert (Htexts : Listbox.texts (take lo lst) = basename w <$> take lo pdfs
                   /\ tx = basename w x /\ ty = basename w y
                   /\ Listbox.texts (drop (S (S lo)) lst)
                      = basename w <$> drop (S (S lo)) pdfs).
  { unfold Listbox.texts in *. rewrite !fmap_take, !fmap_drop, Hs.
    split; [done|]. split; [|split; [|done]].
    - assert (H := f_equal (fun l => l !! lo) Hs). simpl in H.
      rewrite !list_lookup_fmap, Htx, Hx in H. simpl in H. congruence.
    - assert (H := f_equal (fun l => l !! S lo) Hs). simpl in H.
      rewrite !list_lookup_fmap, Hty, Hy in H. simpl in H. congruence. }
  destruct Htexts as (Hta & -> & -> & Htb).
  destruct (move_line_split (take lo pdfs) (drop (S (S lo)) pdfs)
              (take lo lst) (drop (S (S lo)) lst) x y sx sy) as [Hdown Hup];
    [by rewrite Hlo, Hlo'|].
  cbv zeta in Hdown, Hup. rewrite <- Hpdfs, <- Hlst, Hlo' in Hdown, Hup.
  assert (Hfacts : forall lst',
             Listbox.texts lst'
             = basename w <$> (take lo pdfs ++ y :: x :: drop (S (S lo)) pdfs) ->
             Listbox.texts lst'
             = basename w <$> (take lo pdfs ++ y :: x :: drop (S (S lo)) pdfs) /\
             take lo pdfs ++ y :: x :: drop (S (S lo)) pdfs ≡ₚ pdfs /\
             length (take lo pdfs ++ y :: x :: drop (S (S lo)) pdfs) = length pdfs /\
             (take lo pdfs ++ y :: x :: drop (S (S lo)) pdfs) !! lo = pdfs !! S lo /\
             (take lo pdfs ++ y :: x :: drop (S (S lo)) pdfs) !! S lo = pdfs !! lo /\
             (forall k, k <> lo -> k <> S lo ->
                        (take lo pdfs ++ y :: x :: drop (S (S lo)) pdfs) !! k
                        = pdfs !! k)).
  { intros lst' Hl. split; [done|]. split; [|split; [|split; [|split]]].
    - rewrite Hpdfs at 3. apply Permutation_app_head. apply perm_swap.
    - rewrite Hpdfs at 3. by rewrite !length_app.
    - rewrite Hy. by apply list_lookup_middle.
    - rewrite Hx.
      pose proof (lookup_middle_S (take lo pdfs) (drop (S (S lo)) pdfs) y x) as H.
      by rewrite Hlo' in H.
    - intros k Hk1 Hk2. rewrite Hpdfs at 3.
      destruct (decide (k < lo)%nat) as [Hk|Hk].
      + by rewrite !lookup_app_l by lia.
      + rewrite !lookup_app_r by lia. rewrite Hlo'.
        destruct (k - lo)%nat as [|[|m]] eqn:Hm; [lia|lia|done]. }
  destruct Hij as [[-> ->]|[-> ->]].
  - eexists _, _. split; [exact Hdown|].
    destruct (Hfacts (take lo lst ++ (basename w y, sy) :: (basename w x, true)
                        :: drop (S (S lo)) lst)) as (H1 & H2 & H3 & H4 & H5 & H6).
    { unfold Listbox.texts in *. by rewrite !fmap_app, !fmap_cons, Hta, Htb. }
    do 6 (split; [done|]). exists (basename w x).
    pose proof (lookup_middle_S (take lo lst) (drop (S (S lo)) lst)
                  (basename w y, sy) (basename w x, true)) as H.
    by rewrite Hlo in H.
  - eexists _, _. split; [exact Hup|].
    destruct (Hfacts (take lo lst ++ (basename w y, true) :: (basename w x, sx)
                        :: drop (S (S lo)) lst)) as (H1 & H2 & H3 & H4 & H5 & H6).
    { unfold Listbox.texts in *. by rewrite !fmap_app, !fmap_cons, Hta, Htb. }
    do 6 (split; [done|]). exists (basename w y).
    by apply list_lookup_middle.
Qed.

Lemma move_up_loop_spec idxs : forall pdfs lst,
  Listbox.texts lst = basename w <$> pdfs ->
  Forall (fun k => (k < length pdfs)%nat) idxs ->
  exists pdfs' lst',
    move_up_loop idxs pdfs lst = Ok (pdfs', lst') /\
    Listbox.texts lst' = basename w <$> pdfs' /\
    pdfs' ≡ₚ pdfs /\ length pdfs' = length pdfs.
Proof.
  induction idxs as [|i rest IH]; intros pdfs lst Hs Hlt.
  - by exists pdfs, lst.
  - apply Forall_cons in Hlt as [Hi Hrest]. simpl.
    destruct i as [|j]; [by apply IH|].
    destruct (move_line_neighbours (S j) j j pdfs lst Hs) as
      (pdfs1 & lst1 & -> & Hs1 & Hp1 & Hl1 & _); [by right | done |].
    cbn [mbind result_bind].
    destruct (IH pdfs1 lst1 Hs1) as (pdfs' & lst' & -> & Hs' & Hp' & Hl');
      [by rewrite Hl1|].
    exists pdfs', lst'. repeat split; try done.
    + by rewrite Hp'.
    + by rewrite Hl'.
Qed.

Lemma move_down_loop_spec idxs : forall pdfs lst,
  Listbox.texts lst = basename w <$> pdfs ->
  Forall (fun k => (k < length pdfs)%nat) idxs ->
  exists pdfs' lst',
    move_down_loop idxs pdfs lst = Ok (pdfs', lst') /\
    Listbox.texts lst' = basename w <$> pdfs' /\
    pdfs' ≡ₚ pdfs /\ length pdfs' = length pdfs.
Proof.
  induction idxs as [|i rest IH]; intros pdfs lst Hs Hlt.
  - by exists pdfs, lst.
  - apply Forall_cons in Hlt as [Hi Hrest]. simpl.
    case_bool_decide as Hlast; [by apply IH|].
    destruct (move_line_neighbours i (S i) i pdfs lst Hs) as
      (pdfs1 & lst1 & -> & Hs1 & Hp1 & Hl1 & _); [by left | lia |].
    cbn [mbind result_bind].
    destruct (IH pdfs1 lst1 Hs1) as (pdfs' & lst' & -> & Hs' & Hp' & Hl');
      [by rewrite Hl1|].
    exists pdfs', lst'. repeat split; try done.
    + by rewrite Hp'.
    + by rewrite Hl'.
Qed.

(** X17: moving lines of the merge list.  As long as the listbox shows
    the list of files, [move_up] and [move_down] never fail, whatever
    lines are selected: the files are the same files in a new order and
    the listbox still shows them line by line.  With one line selected,
    the file changes places with its neighbour above (below), all other
    files stay where they are, and the moved line is selected at its new
    place; the first line is not moved up and the last line is not moved
    down. *)
Theorem merge_list_moves (self : MergePage) :
  in_sync w self ->
  (exists self', move_up w self = Ok self' /\ in_sync w self' /\
                 pdfs self' ≡ₚ pdfs self)
  /\ (exists self', move_down w self = Ok self' /\ in_sync w self' /\
                    pdfs self' ≡ₚ pdfs self)
  /\ (forall lo,
        Listbox.curselection (lst self) = [S lo] ->
        exists self',
          move_up w self = Ok self' /\
          pdfs self' !! lo = pdfs self !! S lo /\
          pdfs self' !! S lo = pdfs self !! lo /\
          (forall k, k <> lo -> k <> S lo -> pdfs self' !! k = pdfs self !! k) /\
          exists txt, lst self' !! lo = Some (txt, true))
  /\ (forall lo,
        Listbox.curselection (lst self) = [lo] -> (S lo < length (pdfs self))%nat ->
        exists self',
          move_down w self = Ok self' /\
          pdfs self' !! lo = pdfs self !! S lo /\
          pdfs self' !! S lo = pdfs self !! lo /\
          (forall k, k <> lo -> k <> S lo -> pdfs self' !! k = pdfs self !! k) /\
          exists txt, lst self' !! S lo = Some (txt, true))
  /\ (Listbox.curselection (lst self) = [0%nat] ->
      exists self', move_up w self = Ok self' /\ pdfs self' = pdfs self /\
                    lst self' = lst self)
  /\ (forall lo,
        Listbox.curselection (lst self) = [lo] -> S lo = length (pdfs self) ->
        exists self', move_down w self = Ok self' /\ pdfs self' = pdfs self /\
                      lst self' = lst self).
Proof.
  intros Hs. unfold in_sync in Hs.
  pose proof (curselection_lt (lst self)) as Hsel.
  rewrite (sync_length _ _ Hs) in Hsel.
  split; [|split; [|split; [|split; [|split]]]].
  - unfold move_up. destruct (Listbox.curselection (lst self)) as [|i rest] eqn:Hc.
    + by exists self.
    + destruct (move_up_loop_spec (i :: rest) (pdfs self) (lst self) Hs Hsel)
        as (pdfs' & lst' & -> & Hs' & Hp' & _).
      cbn [mbind result_bind]. eexists. split; [reflexivity|]. by split.
  - unfold move_down. destruct (Listbox.curselection (lst self)) as [|i rest] eqn:Hc.
    + by exists self.
    + destruct (move_down_loop_spec (reverse (i :: rest)) (pdfs self) (lst self) Hs)
        as (pdfs' & lst' & -> & Hs' & Hp' & _); [by apply Forall_reverse|].
      cbn [mbind result_bind]. eexists. split; [reflexivity|]. by split.
  - intros lo Hc. unfold move_up. rewrite Hc in Hsel |- *.
    rewrite Forall_singleton in Hsel. simpl.
    destruct (move_line_neighbours (S lo) lo lo (pdfs self) (lst self) Hs) as
      (pdfs1 & lst1 & -> & _ & _ & _ & H1 & H2 & H3 & H4); [by right | done |].
    cbn [mbind result_bind]. eexists. split; [reflexivity|]. by simpl.
  - intros lo Hc Hlt. unfold move_down. rewrite Hc. simpl.
    rewrite bool_decide_eq_false_2 by lia.
    destruct (move_line_neighbours lo (S lo) lo (pdfs self) (lst self) Hs) as
      (pdfs1 & lst1 & -> & _ & _ & _ & H1 & H2 & H3 & H4); [by left | done |].
    cbn [mbind result_bind]. eexists. split; [reflexivity|]. by simpl.
  - intros Hc. unfold move_up. rewrite Hc. simpl. by eexists.
  - intros lo Hc Hlast. unfold move_down. rewrite Hc. simpl.
    rewrite bool_decide_eq_true_2 by lia. by eexists.
Qed.

Lemma curselection_from_app l1 l2 : forall i,
  Listbox.curselection_from i (l1 ++ l2)
  = Listbox.curselection_from i l1
    ++ Listbox.curselection_from (i + length l1) l2.
Proof.
  induction l1 as [|[txt sel] rest IH]; intros i; simpl.
  - by rewrite Nat.add_0_r.
  - rewrite IH, <- app_assoc. do 3 f_equal. lia.
Qed.

Lemma unselected_app pdfs0 lst0 : forall pdfs1 lst1,
  length lst0 = length pdfs0 ->
  unselected (pdfs0 ++ pdfs1) (lst0 ++ lst1)
  = unselected pdfs0 lst0 ++ unselected pdfs1 lst1.
Proof.
  revert lst0. induction pdfs0 as [|p rest IH]; intros [|[txt sel] lst0] pdfs1 lst1 Hlen;
    try done.
  simpl in *. rewrite IH by lia. by destruct sel.
Qed.

Lemma remove_loop_frame idxs : forall pdfs lst pdfs' lst' more lines,
  length lst = length pdfs ->
  remove_loop idxs pdfs lst = Ok (pdfs', lst') ->
  remove_loop idxs (pdfs ++ more) (lst ++ lines) = Ok (pdfs' ++ more, lst' ++ lines).
Proof.
  induction idxs as [|i rest IH]; intros pdfs lst pdfs' lst' more lines Hlen.
  - simpl. by intros [= <- <-].
  - simpl. unfold del. destruct (pdfs !! i) as [p|] eqn:Hp; [|done].
    pose proof (lookup_lt_Some _ _ _ Hp) as Hlt.
    rewrite lookup_app_l, Hp by done. cbn [mbind result_bind].
    intros Hrest. unfold Listbox.delete_at in *.
    rewrite !delete_take_drop in *.
    rewrite take_app_le, drop_app_le by lia.
    rewrite (take_app_le lst), (drop_app_le lst) by lia.
    rewrite !app_assoc. apply IH; [|done].
    rewrite !length_app, !length_take, !length_drop. lia.
Qed.

Lemma remove_loop_spec lst : forall pdfs,
  length lst = length pdfs ->
  remove_loop (reverse (Listbox.curselection lst)) pdfs lst
  = Ok (unselected pdfs lst, filter (fun line => line.2 = false) lst).
Proof.
  induction lst as [|[txt sel] lst0 IH] using rev_ind; intros pdfs Hlen.
  - by destruct pdfs.
  - destruct pdfs as [|p pdfs0 _] using rev_ind;
      [rewrite length_app in Hlen; simpl in Hlen; lia|].
    rewrite !length_app in Hlen. simpl in Hlen.
    assert (Hlen0 : length lst0 = length pdfs0) by lia.
    unfold Listbox.curselection. rewrite curselection_from_app, reverse_app.
    rewrite unselected_app, filter_app by done. simpl.
    destruct sel; simpl.
    + rewrite filter_cons_False, filter_nil, !app_nil_r by done.
      unfold del. rewrite Hlen0, list_lookup_middle by done.
      cbn [mbind result_bind]. unfold Listbox.delete_at.
      rewrite delete_middle, <- Hlen0, delete_middle, !app_nil_r.
      by apply IH.
    + rewrite filter_cons_True, filter_nil by done.
      by apply remove_loop_frame, IH.
Qed.

Lemma unselected_sync pdfs : forall lst,
  Listbox.texts lst = basename w <$> pdfs ->
  Listbox.texts (filter (fun line => line.2 = false) lst)
  = basename w <$> unselected pdfs lst.
Proof.
  unfold Listbox.texts.
  induction pdfs as [|p rest IH]; intros [|[txt sel] lst]; try done.
  rewrite !fmap_cons. intros [= -> Hs]. simpl. destruct sel.
  - rewrite filter_cons_False by done. by apply IH.
  - rewrite filter_cons_True by done. rewrite !fmap_cons. simpl. f_equal.
    by apply IH.
Qed.

Lemma unselected_sublist pdfs : forall lst, unselected pdfs lst `sublist_of` pdfs.
Proof.
  induction pdfs as [|p rest IH]; intros [|[txt sel] lst]; simpl;
    try apply sublist_nil_l.
  destruct sel; [by apply sublist_cons | by apply sublist_skip].
Qed.

Lemma unselected_length pdfs : forall lst i,
  length lst = length pdfs ->
  (length (unselected pdfs lst) + length (Listbox.curselection_from i lst)
   = length pdfs)%nat.
Proof.
  induction pdfs as [|p rest IH]; intros [|[txt sel] lst] i Hlen; try done.
  simpl in *. rewrite length_app. specialize (IH lst (S i) ltac:(lia)).
  destruct sel; simpl; lia.
Qed.

Lemma curselection_filter lst : forall i,
  Listbox.curselection_from i (filter (fun line => line.2 = false) lst) = [].
Proof.
  induction lst as [|[txt sel] rest IH]; intros i; [done|].
  destruct sel.
  - rewrite filter_cons_False by done. apply IH.
  - rewrite filter_cons_True by done. simpl. apply IH.
Qed.

Lemma unselected_none pdfs : forall lst i,
  length lst = length pdfs -> Listbox.curselection_from i lst = [] ->
  unselected pdfs lst = pdfs.
Proof.
  induction pdfs as [|p rest IH]; intros [|[txt sel] lst] i Hlen; try done.
  simpl in *. destruct sel; [done|]. simpl. intros Hnone. f_equal.
  apply (IH lst (S i)); [lia | done].
Qed.

(** X18: removing the selected lines.  As long as the listbox shows the
    list of files, [remove_selected] never fails: it takes out exactly
    the files whose lines are selected, keeps the others in their
    order, and the listbox shows the files that are left, none of them
    selected. *)
Theorem remove_selected_spec (self : MergePage) :
  in_sync w self ->
  exists self',
    remove_selected w self = Ok self' /\
    pdfs self' = unselected (pdfs self) (lst self) /\
    lst self' = filter (fun line => line.2 = false) (lst self) /\
    in_sync w self' /\
    pdfs self' `sublist_of` pdfs self /\
    (length (pdfs self') + length (Listbox.curselection (lst self))
     = length (pdfs self))%nat /\
    Listbox.curselection (lst self') = [] /\
    (Listbox.curselection (lst self) = [] -> pdfs self' = pdfs self).
Proof.
  intros Hs. unfold in_sync in Hs. pose proof (sync_length _ _ Hs) as Hlen.
  unfold remove_selected. rewrite remove_loop_spec by done.
  cbn [mbind result_bind]. eexists. split; [reflexivity|]. simpl.
  split; [done|]. split; [done|]. split; [by apply unselected_sync|].
  split; [apply unselected_sublist|]. split; [by apply unselected_length|].
  split; [apply curselection_filter|].
  intros Hnone. by apply (unselected_none _ _ 0).
Qed.

End MergeList.

Lemma merge_list_moves_witness :
  let self := mkMergePage ["a.pdf"; "b.pdf"]%string
                          [("a.pdf", false); ("b.pdf", true)]%string EmptyString in
  exists self',
    move_up example_world self = Ok self' /\
    pdfs self' !! 0%nat = pdfs self !! 1%nat /\
    pdfs self' !! 1%nat = pdfs self !! 0%nat /\
    (forall k, k <> 0%nat -> k <> 1%nat -> pdfs self' !! k = pdfs self !! k) /\
    exists txt, lst self' !! 0%nat = Some (txt, true).
Proof.
  apply (proj1 (proj2 (proj2 (merge_list_moves example_world
           (mkMergePage ["a.pdf"; "b.pdf"]%string
                        [("a.pdf", false); ("b.pdf", true)]%string EmptyString)
           eq_refl)))).
  reflexivity.
Defined.

Lemma remove_selected_spec_witness :
  let self := mkMergePage ["a.pdf"; "b.pdf"; "c.pdf"]%string
                [("a.pdf", true); ("b.pdf", false); ("c.pdf", true)]%string
                EmptyString in
  exists self',
    remove_selected example_world self = Ok self' /\
    pdfs self' = unselected (pdfs self) (lst self) /\
    lst self' = filter (fun line => line.2 = false) (lst self) /\
    in_sync example_world self' /\
    pdfs self' `sublist_of` pdfs self /\
    (length (pdfs self') + length (Listbox.curselection (lst self))
     = length (pdfs self))%nat /\
    Listbox.curselection (lst self') = [] /\
    (Listbox.curselection (lst self) = [] -> pdfs self' = pdfs self).
Proof.
  apply (remove_selected_spec example_world
           (mkMergePage ["a.pdf"; "b.pdf"; "c.pdf"]%string
              [("a.pdf", true); ("b.pdf", false); ("c.pdf", true)]%string
              EmptyString)).
  reflexivity.
Defined.

(** ** More on range expressions *)

Section RangeText.
Import PyStr RangeParser RangeSpec.

Lemma remove_char_idem c s : remove_char c (remove_char c s) = remove_char c s.
Proof.
  induction s as [|a r IH]; [done|]. simpl.
  destruct (Ascii.eqb a c) eqn:Ha; [done|]. simpl. by rewrite Ha, IH.
Qed.

Lemma remove_char_app c a b :
  remove_char c (a +:+ b) = remove_char c a +:+ remove_char c b.
Proof.
  induction a as [|x r IH]; [done|]. simpl.
  destruct (Ascii.eqb x c); [done|]. simpl. by rewrite IH.
Qed.

(** X19: blanks in a range expression.  [parse_ranges] gives the same
    result, the same pairs or the same exception, when the blanks of
    the text are taken out, wherever they stand, and when the text is
    stripped first.  So a blank may be put anywhere, also between the
    digits of a number. *)
Theorem parse_ranges_ignores_blanks (text : string) (total_pages : Z) :
  parse_ranges (remove_char " " text) total_pages = parse_ranges text total_pages
  /\ parse_ranges (strip text) total_pages = parse_ranges text total_pages
  /\ (forall a b, text = (a +:+ b)%string ->
                  parse_ranges (a +:+ " " +:+ b) total_pages
                  = parse_ranges text total_pages).
Proof.
  assert (Hremove : forall t,
             parse_ranges (remove_char " " t) total_pages = parse_ranges t total_pages).
  { intros t. unfold parse_ranges, parts_of.
    rewrite strip_remove_empty, strip_remove, remove_char_idem. done. }
  split; [apply Hremove|]. split.
  - unfold parse_ranges. by rewrite strip_idem.
  - intros a b ->. rewrite <- (Hremove (a +:+ " " +:+ b)%string), <- (Hremove (a +:+ b)%string).
    by rewrite !remove_char_app.
Qed.

Lemma split_app sep a b :
  split sep (a +:+ String sep b) = split sep a ++ split sep b.
Proof.
  induction a as [|c r IH]; simpl.
  - by rewrite Ascii.eqb_refl.
  - rewrite IH. destruct (Ascii.eqb c sep); [done|].
    pose proof (split_nonempty sep r). by destruct (split sep r).
Qed.

Lemma split_lstrip sep s :
  is_space sep = false ->
  split sep (lstrip s)
  = match split sep s with
    | first :: rest => lstrip first :: rest
    | [] => []
    end.
Proof.
  intros Hsep. induction s as [|c r IH]; [done|].
  cbn [lstrip]. destruct (is_space c) eqn:Hc.
  - rewrite IH, split_cons.
    assert (Ascii.eqb c sep = false) as ->.
    { apply Ascii.eqb_neq. intros ->. congruence. }
    pose proof (split_nonempty sep r). destruct (split sep r); [done|].
    simpl. by rewrite Hc.
  - rewrite split_cons. destruct (Ascii.eqb c sep); [done|].
    pose proof (split_nonempty sep r). destruct (split sep r); [done|].
    simpl. by rewrite Hc.
Qed.

Lemma split_empty sep s : split sep s = [EmptyString] -> s = EmptyString.
Proof.
  destruct s as [|c r]; [done|]. rewrite split_cons.
  destruct (Ascii.eqb c sep).
  - intros [= Hr]. by apply split_nonempty in Hr.
  - by destruct (split sep r).
Qed.

Lemma split_rstrip sep s :
  is_space sep = false ->
  exists init last_,
    split sep s = init ++ [last_] /\
    split sep (rstrip s) = init ++ [rstrip last_].
Proof.
  intros Hsep. induction s as [|c r IH].
  - by exists [], EmptyString.
  - destruct IH as (init & last_ & Hr & Hrr).
    destruct (Ascii.eqb c sep) eqn:Hc.
    + exists (EmptyString :: init), last_.
      rewrite rstrip_cons, split_cons, Hr, Hc. split; [done|].
      apply Ascii.eqb_eq in Hc as ->. rewrite Hsep.
      assert ((if is_empty (rstrip r) then String sep EmptyString
               else String sep (rstrip r)) = String sep (rstrip r)) as ->.
      { by destruct (rstrip r). }
      by rewrite split_cons, Ascii.eqb_refl, Hrr.
    + destruct (is_empty (rstrip r)) eqn:He.
      * apply is_empty_true in He. rewrite He in Hrr.
        destruct init as [|i0 init']; [|by destruct init'].
        simpl in Hrr. injection Hrr as Hl.
        exists [], (String c last_).
        rewrite !rstrip_cons, split_cons, Hr, Hc, He, <- Hl. split; [done|].
        simpl is_empty. cbv iota.
        destruct (is_space c); [done|]. by rewrite split_cons, Hc.
      * destruct init as [|i0 init'].
        -- exists [], (String c last_).
           rewrite !rstrip_cons, split_cons, Hr, Hc, He. split; [done|].
           rewrite split_cons, Hc, Hrr. simpl.
           destruct (is_empty (rstrip last_)) eqn:Hl; [|done].
           apply is_empty_true in Hl. rewrite Hl in Hrr.
           apply split_empty in Hrr. rewrite Hrr in He. done.
        -- exists (String c i0 :: init'), last_.
           rewrite !rstrip_cons, split_cons, Hr, Hc, He. split; [done|].
           by rewrite split_cons, Hc, Hrr.
Qed.

Lemma strip_lstrip s : strip (lstrip s) = strip s.
Proof. unfold strip. by rewrite lstrip_idem. Qed.

Lemma strip_rstrip s : strip (rstrip s) = strip s.
Proof. unfold strip. by rewrite lstrip_rstrip, rstrip_idem. Qed.

(** Stripping the text first does not change the stripped pieces. *)
Lemma split_strip sep s :
  is_space sep = false ->
  strip <$> split sep (strip s) = strip <$> split sep s.
Proof.
  intros Hsep. unfold strip at 2.
  destruct (split_rstrip sep (lstrip s) Hsep) as (init & last_ & Hl & ->).
  rewrite fmap_app. simpl. rewrite strip_rstrip.
  change ([strip last_]) with (strip <$> [last_]). rewrite <- fmap_app, <- Hl.
  rewrite split_lstrip by done.
  pose proof (split_nonempty sep s). destruct (split sep s); [done|].
  simpl. by rewrite strip_lstrip.
Qed.

Lemma tokens_pieces text :
  tokens text
  = remove_char " "
      <$> filter (fun t => is_empty t = false) (strip <$> split "," text).
Proof.
  rewrite tokens_entries, <- (split_strip "," text) by done.
  induction (split "," (strip text)) as [|x l IH]; [done|].
  rewrite fmap_cons, !filter_cons.
  destruct (decide (is_empty (strip x) = false)); [|done].
  by rewrite !fmap_cons, IH, strip_remove.
Qed.

Lemma tokens_comma a b :
  tokens (a +:+ "," +:+ b) = tokens a ++ tokens b.
Proof.
  rewrite !tokens_pieces.
  change (a +:+ "," +:+ b)%string with (a +:+ String "," b)%string.
  by rewrite split_app, fmap_app, filter_app, fmap_app.
Qed.

Lemma parse_loop_acc total toks : forall acc,
  parse_loop total toks acc
  = match parse_loop total toks [] with
    | Ok rs => Ok (acc ++ rs)
    | Raise e => Raise e
    end.
Proof.
  induction toks as [|tok rest IH]; intros acc; simpl.
  - by rewrite app_nil_r.
  - destruct (parse_part total tok) as [r|e]; [|done].
    rewrite (IH (acc ++ [r])), (IH [r]).
    destruct (parse_loop total rest []); [|done]. by rewrite <- app_assoc.
Qed.

Lemma parse_loop_app total toks1 toks2 :
  parse_loop total (toks1 ++ toks2) []
  = match parse_loop total toks1 [] with
    | Ok rs1 =>
        match parse_loop total toks2 [] with
        | Ok rs2 => Ok (rs1 ++ rs2)
        | Raise e => Raise e
        end
    | Raise e => Raise e
    end.
Proof.
  generalize (@nil (Z * Z)) at 1 2. induction toks1 as [|tok rest IH]; intros acc.
  - simpl. apply parse_loop_acc.
  - simpl. destruct (parse_part total tok) as [r|e]; [|done]. apply IH.
Qed.

(** X21: range expressions and commas.  Parsing two range expressions
    joined by a comma gives the pairs of the first followed by the
    pairs of the second; when the first is rejected, its exception is
    raised, and otherwise the exception of the second. *)
Theorem parse_ranges_comma (a b : string) (total_pages : Z) :
  parse_ranges (a +:+ "," +:+ b) total_pages
  = match parse_ranges a total_pages with
    | Ok rs1 =>
        match parse_ranges b total_pages with
        | Ok rs2 => Ok (rs1 ++ rs2)
        | Raise e => Raise e
        end
    | Raise e => Raise e
    end.
Proof. by rewrite !parse_ranges_loop, tokens_comma, parse_loop_app. Qed.

End RangeText.

(** ** What [extract] plans *)

Section Extract.
Import PyStr RangeParser RangeSpec SaveSpec.
Variable w : World.

Lemma pages_getitem_ok (r : list Page) (i : nat) page :
  r !! i = Some page -> pages_getitem r (Z.of_nat i) = Ok page.
Proof.
  intros Hi. pose proof (lookup_lt_Some _ _ _ Hi) as Hlt. unfold pages_getitem.
  destruct (Z.ltb_spec (Z.of_nat i) 0); [lia|].
  destruct (Z.leb_spec 0 (Z.of_nat i)); [|lia].
  destruct (Z.ltb_spec (Z.of_nat i) (Z.of_nat (length r))); [|lia].
  simpl. by rewrite Nat2Z.id, Hi.
Qed.

Lemma collect_range_slice (r : list Page) (n : nat) : forall (a : nat) acc,
  (a + n <= length r)%nat ->
  collect_range r (seqZ (Z.of_nat a) (Z.of_nat n)) acc = Ok (acc ++ take n (drop a r)).
Proof.
  induction n as [|n IH]; intros a acc Hlen.
  - simpl. by rewrite app_nil_r.
  - rewrite Nat2Z.inj_succ, seqZ_cons by lia. simpl collect_range.
    destruct (lookup_lt_is_Some_2 r a) as [page Hp]; [lia|].
    rewrite (pages_getitem_ok r a page Hp). cbn [mbind result_bind].
    replace (Z.succ (Z.of_nat a)) with (Z.of_nat (S a)) by lia.
    replace (Z.pred (Z.succ (Z.of_nat n))) with (Z.of_nat n) by lia.
    rewrite IH by lia. rewrite (drop_S r page a Hp). simpl.
    by rewrite <- app_assoc.
Qed.

Lemma collect_one_range (r : list Page) (rng : Z * Z) :
  in_range (Z.of_nat (length r)) rng ->
  collect_ranges r [rng] [] = Ok (page_slice r rng.1 rng.2)
  /\ Z.of_nat (length (page_slice r rng.1 rng.2)) = rng.2 - rng.1 + 1.
Proof.
  destruct rng as [s e]. intros (Hs & Hse & He). simpl in *.
  unfold page_slice.
  replace (s - 1) with (Z.of_nat (Z.to_nat (s - 1))) at 1 by lia.
  replace (e - (s - 1)) with (Z.of_nat (Z.to_nat (e - (s - 1)))) at 1 by lia.
  rewrite collect_range_slice by lia. split; [done|].
  rewrite length_take, length_drop. lia.
Qed.

Lemma extract_loop_destinations (r : list Page) base_name out_dir entries ranges :
  (1 <= length r)%nat ->
  Forall2 (fun entry rng => parse_ranges entry (Z.of_nat (length r)) = Ok [rng])
          entries ranges ->
  forall acc,
    extract_loop w r base_name out_dir entries acc
    = Ok (acc ++ zip_with (destination w r base_name out_dir) entries ranges).
Proof.
  intros Hr H. induction H as [|entry rng entries ranges He _ IH]; intros acc.
  - simpl. by rewrite app_nil_r.
  - simpl extract_loop. rewrite He. cbn [mbind result_bind].
    assert (Hin : in_range (Z.of_nat (length r)) rng).
    { assert (Htotal : 1 <= Z.of_nat (length r)) by lia.
      pose proof (parse_ranges_bounds entry (Z.of_nat (length r)) [rng]
                    Htotal He) as Hb.
      by rewrite Forall_singleton in Hb. }
    destruct (collect_one_range r rng Hin) as [-> Hlen].
    cbn [mbind result_bind].
    destruct (page_slice r rng.1 rng.2) as [|page pages] eqn:Hslice.
    { destruct Hin as (? & ? & ?). simpl in Hlen. lia. }
    rewrite IH. simpl. rewrite <- app_assoc. simpl. unfold destination at 2.
    by rewrite Hslice.
Qed.

Lemma entries_parse ent_text total ranges :
  parse_ranges ent_text total = Ok ranges ->
  Forall2 (fun entry rng => parse_ranges entry total = Ok [rng])
          (entries_of ent_text) ranges.
Proof.
  rewrite parse_ranges_loop, tokens_entries. intros Hloop.
  apply parse_loop_ok in Hloop as (rs & -> & Hall). simpl.
  unfold entries_of. pose proof (split_pieces "," (strip ent_text)) as Hp.
  revert rs Hall. induction Hp as [|x l Hx Hl IH]; intros rs Hall.
  - rewrite filter_nil, fmap_nil in *. by inversion Hall.
  - rewrite filter_cons in *.
    destruct (decide (is_empty (strip x) = false)) as [He|]; cbv beta iota in *;
      [|by apply IH].
    rewrite fmap_cons in *. inversion Hall as [|tok rng toks rs' Htok Hrest]; subst.
    constructor; [|by apply IH].
    by rewrite (parse_entry x total Hx He), Htok.
Qed.

(** X20: what [extract] plans.  When the range text is accepted for a
    document of at least one page, [extract] plans one file for every
    entry of the text between the commas, in the order of the text: the
    file is named after the entry (its blanks taken out and its dash
    turned into an underscore) and holds the pages from the start to the
    end of the pair the entry stands for, so at least one page.  It
    starts the job that writes these files; a text without any entry
    only gives a warning. *)
Theorem extract_plan (path ent_text out_dir : string) (r : list Page)
        (ranges : list (Z * Z)) :
  path <> EmptyString -> out_dir <> EmptyString ->
  is_empty (strip ent_text) = false ->
  read_pdf w path = Ok r -> (1 <= length r)%nat ->
  parse_ranges ent_text (Z.of_nat (length r)) = Ok ranges ->
  let base_name := splitext_base w (basename w path) in
  let planned := zip_with (destination w r base_name out_dir)
                          (entries_of ent_text) ranges in
  length planned = length ranges
  /\ length (entries_of ent_text) = length ranges
  /\ Forall (fun rng => in_range (Z.of_nat (length r)) rng /\
                        Z.of_nat (length (page_slice r rng.1 rng.2))
                        = rng.2 - rng.1 + 1) ranges
  /\ extract w (Some path) ent_text out_dir
     = match planned with
       | [] => [ShowWarning "Warning"
                  "No pages matched the provided ranges or the ranges were invalid."]
       | _ => [RunWorker (job_multi_split w planned out_dir)]
       end.
Proof.
  intros Hpath Hout Hent Hread Hr Hparse base_name planned.
  pose proof (entries_parse ent_text _ ranges Hparse) as Hentries.
  pose proof (Forall2_length _ _ _ Hentries) as Hlen.
  split; [|split; [done|split]].
  - subst planned. rewrite length_zip_with, Hlen. apply Nat.min_id.
  - assert (Htotal : 1 <= Z.of_nat (length r)) by lia.
    pose proof (parse_ranges_bounds ent_text _ ranges Htotal Hparse) as Hb.
    eapply Forall_impl; [exact Hb|]. intros rng Hin. split; [done|].
    by apply collect_one_range.
  - unfold extract. destruct path; [done|]. simpl is_empty at 1. cbv iota.
    rewrite Hent. destruct out_dir; [done|]. simpl is_empty at 1. cbv iota.
    fold (entries_of ent_text). unfold extract_try. rewrite Hread.
    cbn [mbind result_bind]. fold base_name.
    rewrite (extract_loop_destinations r base_name _ _ ranges Hr Hentries []).
    cbn [mbind result_bind app]. fold planned. by destruct planned.
Qed.

End Extract.

Lemma extract_plan_witness :
  let r := source_pages example_world "a.pdf" in
  let planned := zip_with (destination example_world r "a.pdf" "out")
                          (entries_of "1-2, 3") [(1, 2); (3, 3)] in
  length planned = 2%nat
  /\ length (entries_of "1-2, 3") = 2%nat
  /\ Forall (fun rng => RangeSpec.in_range (Z.of_nat (length r)) rng /\
                        Z.of_nat (length (page_slice r rng.1 rng.2))
                        = rng.2 - rng.1 + 1) [(1, 2); (3, 3)]
  /\ extract example_world (Some "a.pdf"%string) "1-2, 3" "out"
     = match planned with
       | [] => [ShowWarning "Warning"
                  "No pages matched the provided ranges or the ranges were invalid."]
       | _ => [RunWorker (job_multi_split example_world planned "out")]
       end.
Proof.
  apply (extract_plan example_world "a.pdf" "1-2, 3" "out"
           (source_pages example_world "a.pdf") [(1, 2); (3, 3)]).
  - done.
  - done.
  - reflexivity.
  - reflexivity.
  - simpl. lia.
  - vm_compute. reflexivity.
Defined.

(** ** Colours *)

Section Colours.
Import PyStr HexColor.

Lemma hex_digit_val_range c v : hex_digit_val c = Some v -> 0 <= v <= 15.
Proof.
  unfold hex_digit_val.
  repeat (match goal with
          | |- context [if ?b then _ else _] => destruct b eqn:?
          end); intros [= <-];
    repeat match goal with
           | H : (_ && _)%bool = true |- _ => apply andb_true_iff in H as [? ?]
           | H : (_ <=? _)%N = true |- _ => apply N.leb_le in H
           end; lia.
Qed.

Lemma hex_digit_not_hash c v : hex_digit_val c = Some v -> c <> "#"%char.
Proof. by intros H ->. Qed.

Lemma hex_digits_bound s : forall b acc v,
  0 <= acc -> hex_digits b acc s = Some v ->
  acc <= v < 16 ^ Z.of_nat (String.length s) * (acc + 1).
Proof.
  induction s as [|c r IH]; intros b acc v Hacc; simpl hex_digits.
  - destruct b; [|done]. intros [= <-]. simpl. lia.
  - cbn [String.length]. rewrite Nat2Z.inj_succ, Z.pow_succ_r by lia.
    pose proof (Z.pow_pos_nonneg 16 (Z.of_nat (String.length r)) ltac:(lia) ltac:(lia)).
    destruct (hex_digit_val c) as [d|] eqn:Hd.
    + apply hex_digit_val_range in Hd. intros Hv%IH; [|lia]. nia.
    + destruct (Ascii.eqb c "_"); [|done]. destruct b; [|done].
      intros Hv%IH; [|lia]. nia.
Qed.

Lemma hex_body_eq t :
  hex_body t
  = match t with
    | String c (String x r) =>
        if Ascii.eqb c "0" && (Ascii.eqb x "x" || Ascii.eqb x "X") then
          match r with
          | String u r' => if Ascii.eqb u "_" then hex_digits false 0 r'
                           else hex_digits false 0 r
          | EmptyString => hex_digits false 0 r
          end
        else hex_digits false 0 t
    | _ => hex_digits false 0 t
    end.
Proof.
  destruct t as [|c [|x r]]; [done| |].
  - by destruct c as [[] [] [] [] [] [] [] []].
  - destruct (Ascii.eqb c "0") eqn:Hc.
    + apply Ascii.eqb_eq in Hc as ->. cbn [hex_body andb].
      destruct (Ascii.eqb x "x" || Ascii.eqb x "X"); [|done].
      destruct r as [|u r']; [done|].
      by destruct u as [[] [] [] [] [] [] [] []].
    + cbn [andb]. destruct c as [[] [] [] [] [] [] [] []]; try done.
Qed.

Lemma hex_body_bound t v :
  hex_body t = Some v -> 0 <= v < 16 ^ Z.of_nat (String.length t).
Proof.
  assert (Hstep : forall r n, (String.length r <= n)%nat ->
                              hex_digits false 0 r = Some v ->
                              0 <= v < 16 ^ Z.of_nat n).
  { intros r n Hn Hv%hex_digits_bound; [|lia].
    pose proof (Z.pow_le_mono_r 16 (Z.of_nat (String.length r)) (Z.of_nat n)
                  ltac:(lia) ltac:(lia)). lia. }
  rewrite hex_body_eq. destruct t as [|c [|x r]]; try (apply Hstep; lia).
  destruct (Ascii.eqb c "0" && (Ascii.eqb x "x" || Ascii.eqb x "X"));
    [|apply Hstep; lia].
  destruct r as [|u r']; [apply Hstep; simpl; lia|].
  destruct (Ascii.eqb u "_"); apply Hstep; simpl; lia.
Qed.

Lemma int16_eq s :
  int16 s
  = match int_rstrip (int_lstrip s) with
    | String c r =>
        if Ascii.eqb c "+" then hex_body r
        else if Ascii.eqb c "-" then Z.opp <$> hex_body r
        else hex_body (int_rstrip (int_lstrip s))
    | EmptyString => hex_body EmptyString
    end.
Proof.
  unfold int16. destruct (int_rstrip (int_lstrip s)) as [|c r]; [done|].
  by destruct c as [[] [] [] [] [] [] [] []].
Qed.

Lemma int_lstrip_length s : (String.length (int_lstrip s) <= String.length s)%nat.
Proof.
  induction s as [|c r IH]; [done|]. simpl. destruct (is_int_space c); simpl; lia.
Qed.

Lemma int_rstrip_length s : (String.length (int_rstrip s) <= String.length s)%nat.
Proof.
  induction s as [|c r IH]; [done|]. simpl.
  destruct (int_rstrip r); [destruct (is_int_space c)|]; simpl in *; lia.
Qed.

Lemma int_strip_length s :
  (String.length (int_rstrip (int_lstrip s)) <= String.length s)%nat.
Proof.
  pose proof (int_rstrip_length (int_lstrip s)). pose proof (int_lstrip_length s).
  lia.
Qed.

Lemma int16_two s v :
  String.length s = 2%nat -> int16 s = Some v -> -15 <= v <= 255.
Proof.
  intros Hlen. rewrite int16_eq. pose proof (int_strip_length s) as Hs.
  rewrite Hlen in Hs.
  assert (Hpow : forall n, (n <= 2)%nat -> 16 ^ Z.of_nat n <= 256).
  { intros [|[|[|n]]] Hn; simpl; lia. }
  assert (Hpow1 : forall n, (n <= 1)%nat -> 16 ^ Z.of_nat n <= 16).
  { intros [|[|n]] Hn; simpl; lia. }
  destruct (int_rstrip (int_lstrip s)) as [|c r] eqn:Ht.
  - intros Hv%hex_body_bound. simpl in Hv. lia.
  - simpl in Hs. destruct (Ascii.eqb c "+").
    + intros Hv%hex_body_bound. specialize (Hpow1 (String.length r)). lia.
    + destruct (Ascii.eqb c "-").
      * destruct (hex_body r) as [u|] eqn:Hu; [|done]. intros [= <-].
        apply hex_body_bound in Hu. specialize (Hpow1 (String.length r)). lia.
      * intros Hv%hex_body_bound. specialize (Hpow (String.length (String c r))).
        simpl in *. lia.
Qed.

Lemma int16_digits c1 c2 v1 v2 :
  hex_digit_val c1 = Some v1 -> hex_digit_val c2 = Some v2 ->
  int16 (String c1 (String c2 EmptyString)) = Some (16 * v1 + v2).
Proof.
  intros H1 H2. rewrite int16_eq.
  assert (Hsp : forall c v, hex_digit_val c = Some v -> is_int_space c = false).
  { intros c v Hc. destruct (is_int_space c) eqn:Hs; [|done].
    destruct c as [[] [] [] [] [] [] [] []]; try discriminate Hs; discriminate Hc. }
  assert (Hstrip : int_rstrip (int_lstrip (String c1 (String c2 EmptyString)))
                   = String c1 (String c2 EmptyString)).
  { simpl int_lstrip. rewrite (Hsp _ _ H1). simpl.
    by rewrite (Hsp _ _ H2). }
  rewrite Hstrip.
  assert (Ascii.eqb c1 "+" = false) as ->.
  { apply Ascii.eqb_neq. by intros ->. }
  assert (Ascii.eqb c1 "-" = false) as ->.
  { apply Ascii.eqb_neq. by intros ->. }
  rewrite hex_body_eq.
  assert (Ascii.eqb c2 "x" || Ascii.eqb c2 "X" = false) as ->.
  { apply orb_false_iff. split; apply Ascii.eqb_neq; by intros ->. }
  rewrite andb_false_r. simpl. rewrite H1, H2. f_equal; lia.
Qed.

(** X22: the colour of the watermark text.  [hex_to_rgb_fraction]
    ignores every leading ["#"]; a text that then does not have exactly
    six characters gives black, without an exception.  Six hexadecimal
    digits give the three numbers they spell, each between 0 and 255
    (over 255); whatever the six characters are, a result has its three
    numbers between -15 and 255, and a failure is a [ValueError]. *)
Theorem hex_to_rgb_fraction_spec (hexcolor : string) :
  hex_to_rgb_fraction (String "#" hexcolor) = hex_to_rgb_fraction hexcolor
  /\ (String.length (lstrip_hash hexcolor) <> 6%nat ->
      hex_to_rgb_fraction hexcolor = Ok (0, 0, 0))
  /\ (forall c1 c2 c3 c4 c5 c6 v1 v2 v3 v4 v5 v6,
        hexcolor = String c1 (String c2 (String c3 (String c4 (String c5
                     (String c6 EmptyString))))) ->
        hex_digit_val c1 = Some v1 -> hex_digit_val c2 = Some v2 ->
        hex_digit_val c3 = Some v3 -> hex_digit_val c4 = Some v4 ->
        hex_digit_val c5 = Some v5 -> hex_digit_val c6 = Some v6 ->
        hex_to_rgb_fraction hexcolor
        = Ok (16 * v1 + v2, 16 * v3 + v4, 16 * v5 + v6) /\
        0 <= 16 * v1 + v2 <= 255 /\ 0 <= 16 * v3 + v4 <= 255 /\
        0 <= 16 * v5 + v6 <= 255)
  /\ (forall r g b, hex_to_rgb_fraction hexcolor = Ok (r, g, b) ->
                    -15 <= r <= 255 /\ -15 <= g <= 255 /\ -15 <= b <= 255)
  /\ (forall e, hex_to_rgb_fraction hexcolor = Raise e -> exn_cls e = ValueError).
Proof.
  split; [done|]. split; [|split; [|split]].
  - intros Hlen. unfold hex_to_rgb_fraction.
    by rewrite (proj2 (Nat.eqb_neq _ _) Hlen).
  - intros c1 c2 c3 c4 c5 c6 v1 v2 v3 v4 v5 v6 -> H1 H2 H3 H4 H5 H6.
    unfold hex_to_rgb_fraction.
    assert (lstrip_hash (String c1 (String c2 (String c3 (String c4 (String c5
                           (String c6 EmptyString))))))
            = String c1 (String c2 (String c3 (String c4 (String c5
                           (String c6 EmptyString)))))) as ->.
    { pose proof (hex_digit_not_hash _ _ H1) as Hne.
      destruct c1 as [[] [] [] [] [] [] [] []]; try done. }
    simpl String.length. simpl substring. cbv iota. unfold int16_or_raise.
    rewrite (int16_digits _ _ _ _ H1 H2), (int16_digits _ _ _ _ H3 H4),
      (int16_digits _ _ _ _ H5 H6).
    split; [done|].
    apply hex_digit_val_range in H1, H2, H3, H4, H5, H6. lia.
  - intros r g b. unfold hex_to_rgb_fraction.
    destruct (Nat.eqb_spec (String.length (lstrip_hash hexcolor)) 6) as [Hlen|];
      [|intros [= <- <- <-]; lia].
    destruct (lstrip_hash hexcolor) as [|c1 [|c2 [|c3 [|c4 [|c5 [|c6 [|c7 rest]]]]]]];
      try done.
    simpl substring. unfold int16_or_raise.
    destruct (int16 (String c1 (String c2 EmptyString))) as [r'|] eqn:Hr; [|done].
    destruct (int16 (String c3 (String c4 EmptyString))) as [g'|] eqn:Hg; [|done].
    destruct (int16 (String c5 (String c6 EmptyString))) as [b'|] eqn:Hb; [|done].
    intros [= <- <- <-].
    apply int16_two in Hr, Hg, Hb; done.
  - intros e. unfold hex_to_rgb_fraction.
    destruct (String.length (lstrip_hash hexcolor) =? 6)%nat; [|done].
    unfold int16_or_raise.
    destruct (int16 (substring 0 2 _)); [|by intros [= <-]].
    destruct (int16 (substring 2 2 _)); [|by intros [= <-]].
    destruct (int16 (substring 4 2 _)); [done|by intros [= <-]].
Qed.

End Colours.

(** ** The merge page from end to end *)

Section MergePageRun.
Import SaveSpec Trace.
Variable w : World.
Hypothesis Hquiet : quiet_world w.

Lemma quiet_only_append_fails : only_append_fails w.
Proof. intros c. destruct c; try done; apply Hquiet. Qed.

(** X23: the merge page from end to end.  With libraries that do not
    fail: after the files of a file dialog have been added to the empty
    list, the list holds every chosen file once, in the order of the
    choice, and "Merge & Save" with a file name starts one job that
    writes one file with all pages of the listed files, file after file
    in the order of the list.  With an empty list the button only shows
    a warning, and a cancelled save dialog does nothing. *)
Theorem merge_end_to_end (paths : list string) (out : string) (app : App) :
  let self := add_pdfs w paths MergePage_init in
  NoDup (pdfs self)
  /\ (forall p, p ∈ pdfs self <-> p ∈ paths)
  /\ pdfs self `sublist_of` paths
  /\ (paths = [] ->
      merge_and_save w out self = Ok [ShowWarning "Warning" "Add at least one PDF."])
  /\ (paths <> [] -> out = EmptyString -> merge_and_save w out self = Ok [])
  /\ (paths <> [] -> out <> EmptyString -> after_calls app.2 = [] ->
      exists effects,
        merge_and_save w out self = Ok effects /\
        (run_effects effects app).1 = app.1 /\
        disk (run_effects effects app).2
        = disk app.2 ++ [(out, concat (source_pages w <$> pdfs self))]).
Proof.
  intros self.
  destruct (add_pdfs_loop_spec w paths [] []) as (added & Hloop & Hsub & Hall & _ & Hnd).
  assert (Hpdfs : pdfs self = added).
  { subst self. unfold add_pdfs. simpl pdfs at 1. simpl lst. rewrite Hloop.
    by destruct paths. }
  rewrite Hpdfs. split; [done|]. split; [|split; [done|split; [|split]]].
  - intros p. split; [|apply Hall]. intros Hp.
    eapply elem_of_sublist; [exact Hp | exact Hsub].
  - intros ->. apply sublist_nil_r in Hsub. unfold merge_and_save.
    by rewrite Hpdfs, Hsub.
  - intros Hne ->. unfold merge_and_save. rewrite Hpdfs.
    destruct added as [|p rest]; [|done].
    destruct paths as [|q qs]; [done|]. specialize (Hall q ltac:(by left)).
    by apply elem_of_nil in Hall.
  - intros Hne Hout Hcalls. unfold merge_and_save. rewrite Hpdfs.
    destruct added as [|p rest] eqn:Hadded.
    { destruct paths as [|q qs]; [done|]. specialize (Hall q ltac:(by left)).
      by apply elem_of_nil in Hall. }
    rewrite <- Hadded. destruct out as [|a out']; [done|]. simpl PyStr.is_empty.
    cbv iota. rewrite Hquiet. eexists. split; [reflexivity|].
    destruct app as [st js]. simpl in Hcalls. simpl run_effects.
    rewrite worker_run. unfold merge_job. rewrite run_bind.
    destruct (merge_loop_output w (length added) added quiet_only_append_fails 1 [] js)
      as (js1 & -> & Hd & Ha).
    cbv beta iota.
    change (write_pdf w (String a out') ?x ≫= _) with
      (finish w (String a out')
              ("Merge complete! Output saved to: " +:+ String a out') x).
    rewrite (finish_quiet w Hquiet). simpl. rewrite Ha, Hcalls, Hd. by simpl.
Qed.

End MergePageRun.

Lemma merge_end_to_end_witness :
  let self := add_pdfs example_world ["a.pdf"; "b.pdf"; "a.pdf"]%string MergePage_init in
  exists effects,
    merge_and_save example_world "out.pdf" self = Ok effects /\
    (run_effects effects App_init).1 = App_init.1 /\
    disk (run_effects effects App_init).2
    = disk App_init.2 ++ [("out.pdf"%string,
                           concat (source_pages example_world <$> pdfs self))].
Proof.
  apply (proj2 (proj2 (proj2 (proj2 (proj2
           (merge_end_to_end example_world example_world_quiet
              ["a.pdf"; "b.pdf"; "a.pdf"]%string "out.pdf" App_init)))))).
  - done.
  - done.
  - reflexivity.
Defined.
